(** * Warehouse compliance system: the mobile packout workflow and its
      offline storage, embedded from the TypeScript sources.

    Source files embedded here:
    - [WarehouseMobile/src/services/api.ts]: [tokenManager],
      [offlineStorage], [authAPI], [ordersAPI], [packoutTasksAPI],
      [compliancePhotosAPI], [routingGuidesAPI], [workerAPI],
      [networkUtils] and the interceptors of [apiClient];
    - the packout instructions screen (a React component): its state,
      its mount effect and the handlers [loadPackoutProgress],
      [savePackoutProgress],
      [handleChecklistItemToggle], [handleTakePhoto], [handleCameraCapture],
      [handleNextStep], [handlePreviousStep], [handleSubmitPackout];
    - the scanner screen: [handleBarCodeRead], [fetchOrderData],
      [handleOrderSelect], [handleRescan];
    - [WarehouseMobile/App.tsx]: [initializeApp], [handleAuthStateChange],
      [handleLogout].

    Parts 1 to 5 are the embedding: the platform the program runs on
    (AsyncStorage, JSON, Date, axios, which are not the repository's), then
    the source functions. Part 6 defines what the properties are stated
    with, Part 7 proves the general lemmas and theorems, Part 8 runs the
    program on concrete inputs. *)

From stdpp Require Import base option list gmap fin_maps strings pretty.
From Stdlib Require Import ZArith Bool.

Open Scope string_scope.
Open Scope Z_scope.

(* ===================================================================== *)
(** * Part 1. The platform                                                *)
(* ===================================================================== *)

(** ** JSON values

    Numbers are the integers the program stores (ids, indices, counts,
    millisecond clocks). An object is its list of properties in insertion
    order. *)

#[local] Set Warnings "-register-all".

Inductive json : Type :=
| JNull
| JBool (b : bool)
| JNum (n : Z)
| JStr (s : string)
| JArr (elems : list json)
| JObj (props : list (string * json)).

(** [o.k] on a parsed object: the first property named [k], [None] for
    [undefined]. *)
Fixpoint prop (k : string) (props : list (string * json)) : option json :=
  match props with
  | [] => None
  | (k', v) :: rest => if String.eqb k' k then Some v else prop k rest
  end.

Definition get (k : string) (j : json) : option json :=
  match j with
  | JObj props => prop k props
  | _ => None
  end.

(** JavaScript truthiness, as used by [!!x], [if (x)] and [x || y]. *)
Definition string_truthy (s : string) : bool := negb (String.eqb s "").

Definition truthy (j : json) : bool :=
  match j with
  | JNull => false
  | JBool b => b
  | JNum n => negb (n =? 0)
  | JStr s => string_truthy s
  | JArr _ | JObj _ => true
  end.

(** [x || y] where [x] may be [undefined]. *)
Definition or_else (x : option json) (y : json) : json :=
  match x with
  | Some v => if truthy v then v else y
  | None => y
  end.

(** [{...o, k: v}]: assigning a property keeps an existing key in place and
    appends a new one. *)
Fixpoint assign (k : string) (v : json) (props : list (string * json))
  : list (string * json) :=
  match props with
  | [] => [(k, v)]
  | (k', v') :: rest =>
      if String.eqb k' k then (k', v) :: rest else (k', v') :: assign k v rest
  end.

(** The value read as a number, string, boolean or array; [None] when it
    is [undefined] or of another type. *)
Definition as_num (j : option json) : option Z :=
  match j with Some (JNum n) => Some n | _ => None end.
Definition as_str (j : option json) : option string :=
  match j with Some (JStr s) => Some s | _ => None end.
Definition as_bool (j : option json) : option bool :=
  match j with Some (JBool b) => Some b | _ => None end.
Definition as_arr (j : option json) : option (list json) :=
  match j with Some (JArr l) => Some l | _ => None end.

(** [String(v)], which is what [v.toString()] returns when [v] has the
    method of its prototype. An array joins its elements with commas, a
    [null] element as the empty string. A parsed object that has a
    property of its own named [toString] has no method to call there,
    whatever the property holds (a JSON value is never a function): a
    TypeError ([None]). *)
Fixpoint String_of (j : json) : option string :=
  match j with
  | JNull => Some "null"
  | JBool b => Some (if b then "true" else "false")
  | JNum n => Some (pretty n)
  | JStr s => Some s
  | JArr elems =>
      String.concat "," <$>
        ((fix each (l : list json) : option (list string) :=
            match l with
            | [] => Some []
            | e :: rest =>
                s ← match e with JNull => Some "" | _ => String_of e end;
                ss ← each rest;
                Some (s :: ss)
            end) elems)
  | JObj props =>
      match prop "toString" props with
      | Some _ => None
      | None => Some "[object Object]"
      end
  end.

(** [v.toString()] where [v] may be [undefined]: on [undefined] and on
    [null] the call is a TypeError ([None]). *)
Definition toString (v : option json) : option string :=
  match v with
  | None | Some JNull => None
  | Some j => String_of j
  end.

(** [s.startsWith(searchString)] *)
Fixpoint startsWith (s searchString : string) {struct searchString} : bool :=
  match searchString, s with
  | EmptyString, _ => true
  | String c rest, String c' s' => Ascii.eqb c' c && startsWith s' rest
  | String _ _, EmptyString => false
  end.

(** ** Text held by AsyncStorage

    AsyncStorage holds strings. A string is either text the program wrote as
    it is (the token fields) or the output of [JSON.stringify]; the latter
    is kept as the JSON value it denotes, so [JSON.parse] after
    [JSON.stringify] is the identity on JSON values. What is lost on the
    way is lost when a runtime value is turned into a JSON value
    ([toJSON], below), not in the text. *)

Inductive text : Type :=
| Raw (s : string)
| Stringified (j : json).

(** The text of a JSON value is never the empty string. *)
Definition text_truthy (t : text) : bool :=
  match t with
  | Raw s => string_truthy s
  | Stringified _ => true
  end.

(** What the platform computes and the repository only calls:
    [Date.prototype.toISOString] on a millisecond instant, and [JSON.parse]
    on text that did not come out of [JSON.stringify]. *)
Class Platform : Type := {
  toISOString : Z → string;
  JSON_parse_raw : string → option json;
}.

(** ** Promises over AsyncStorage *)

Inductive Error : Type :=
| StorageError
| NetworkError
| HttpError (status : Z)
| TypeError
| SyntaxError.

Inductive settled (A : Type) : Type :=
| Fulfilled (a : A)
| Rejected (e : Error).
Arguments Fulfilled {A} a.
Arguments Rejected {A} e.

(** The device: the items of AsyncStorage, whether the backing store
    currently fails (every storage call then rejects and changes nothing),
    and the lines written to the console (first argument of each
    [console.log] and [console.error], oldest first). *)
Record Device : Type := mkDevice {
  items : gmap string text;
  failing : bool;
  console : list string;
}.

Definition with_items (m : gmap string text) (d : Device) : Device :=
  {| items := m; failing := failing d; console := console d |}.

(** An asynchronous computation, run to completion: the handlers of this
    program are awaited one after the other, so a computation is a function
    of the device state it starts from. *)
Definition Async (A : Type) : Type := Device → settled A * Device.

Definition ret {A} (a : A) : Async A := λ st, (Fulfilled a, st).
Definition throw {A} (e : Error) : Async A := λ st, (Rejected e, st).

Definition bind {A B} (c : Async A) (k : A → Async B) : Async B :=
  λ st, match c st with
        | (Fulfilled a, st') => k a st'
        | (Rejected e, st') => (Rejected e, st')
        end.

(** [try { c } catch (error) { h error }] *)
Definition try_catch {A} (c : Async A) (h : Error → Async A) : Async A :=
  λ st, match c st with
        | (Fulfilled a, st') => (Fulfilled a, st')
        | (Rejected e, st') => h e st'
        end.

Declare Scope async_scope.
Delimit Scope async_scope with async.
Notation "'await' x ':=' c 'in' k" := (bind c (λ x, k))
  (at level 10, x name, c at level 100, k at level 200,
   format "'[v' 'await'  x  ':='  c  'in' '/' k ']'") : async_scope.
Notation "c >> k" := (bind c (λ _, k))
  (at level 100, k at level 200, right associativity) : async_scope.
Open Scope async_scope.

Definition printed (line : string) (d : Device) : Device :=
  {| items := items d; failing := failing d; console := console d ++ [line] |}.

Definition log (line : string) : Async unit := λ d, (Fulfilled tt, printed line d).

Definition storage_call {A} (f : gmap string text → A * gmap string text) : Async A :=
  λ st, if failing st then (Rejected StorageError, st)
        else let '(a, m) := f (items st) in (Fulfilled a, with_items m st).

Definition getItem (k : string) : Async (option text) :=
  storage_call (λ m, (m !! k, m)).

Definition setItem (k : string) (v : text) : Async unit :=
  storage_call (λ m, (tt, <[k := v]> m)).

Definition removeItem (k : string) : Async unit :=
  storage_call (λ m, (tt, delete k m)).

Definition remove_all (ks : list string) (m : gmap string text) : gmap string text :=
  foldr delete m ks.

Definition multiRemove (ks : list string) : Async unit :=
  storage_call (λ m, (tt, remove_all ks m)).

Definition set_all (kvs : list (string * text)) (m : gmap string text)
  : gmap string text :=
  foldl (λ acc kv, <[kv.1 := kv.2]> acc) m kvs.

Definition multiSet (kvs : list (string * text)) : Async unit :=
  storage_call (λ m, (tt, set_all kvs m)).

(** The keys in the order the store lists them: that of the map. *)
Definition all_keys (m : gmap string text) : list string := (map_to_list m).*1.

Definition getAllKeys : Async (list string) :=
  storage_call (λ m, (all_keys m, m)).

(** ** HTTP

    What the server does with one request: a response with a status code
    and a body, or no response at all (no network, time-out). *)
Inductive reply (A : Type) : Type :=
| Response (status : Z) (data : A)
| NoResponse.
Arguments Response {A} status data.
Arguments NoResponse {A}.

(** axios with its default [validateStatus]: resolves on 2xx with the
    body, rejects otherwise. *)
Definition axios_request {A} (r : reply A) : Async A :=
  match r with
  | Response status data =>
      if (200 <=? status) && (status <? 300) then ret data
      else throw (HttpError status)
  | NoResponse => throw NetworkError
  end.

Definition JSON_parse `{Platform} (t : text) : option json :=
  match t with
  | Stringified j => Some j
  | Raw s => JSON_parse_raw s
  end.

(* ===================================================================== *)
(** * Part 2. services/api.ts                                             *)
(* ===================================================================== *)

Section Api.
Context `{Platform}.

(** ** apiClient

    The request interceptor reads [access_token] inside its own
    [try]/[catch] to set a header. The response interceptor removes the
    token fields on a 401 and rejects every failure. *)
Definition token_fields : list string := ["access_token"; "token_type"; "username"].

Definition request_interceptor : Async unit :=
  try_catch (getItem "access_token" >> ret tt)
            (λ _, log "Error retrieving token:").

Definition response_interceptor {A} (r : reply A) : Async A :=
  match r with
  | Response status data =>
      if (200 <=? status) && (status <? 300) then ret data
      else
        (if status =? 401
         then try_catch (multiRemove token_fields >>
                         log "Authentication failed - user needs to login again")
                        (λ _, log "Error clearing tokens:")
         else ret tt) >>
        throw (HttpError status)
  | NoResponse =>
      log "Network error - attempting offline fallback" >>
      throw NetworkError
  end.

(** One request through [apiClient]: [get], [post] or [patch]. *)
Definition apiClient_request {A} (r : reply A) : Async A :=
  request_interceptor >> response_interceptor r.

(** ** tokenManager *)

Record TokenData : Type := mkTokenData {
  access_token : string;
  token_type : string;
  expires_in : Z;
}.

Definition storeTokens (tokenData : TokenData) (username : option string) : Async unit :=
  try_catch
    (multiSet ([("access_token", Raw (access_token tokenData));
                ("token_type", Raw (token_type tokenData));
                ("token_expires_in", Raw (pretty (expires_in tokenData)))]
               ++ match username with
                  | Some u => if string_truthy u then [("username", Raw u)] else []
                  | None => []
                  end))
    (λ error, log "Error storing tokens:" >> throw error).

(** [storeTokens] as [login] calls it, on [response.data]: TypeScript's
    [TokenData] is not checked at run time. Reading [access_token] of
    [null] and calling [toString] on an absent [expires_in] are TypeErrors,
    raised while the argument of [multiSet] is built, inside the [try].
    AsyncStorage holds strings; the library is not part of the repository,
    and a [multiSet] with a value that is not a string is taken to be
    refused. On the JSON of a [TokenData] this is [storeTokens]
    ([storeTokens_body_typed] below). *)
Definition tokenDataToJSON (tokenData : TokenData) : json :=
  JObj [("access_token", JStr (access_token tokenData));
        ("token_type", JStr (token_type tokenData));
        ("expires_in", JNum (expires_in tokenData))].

Definition storeTokens_body (tokenData : json) (username : option string) : Async unit :=
  try_catch
    (match tokenData with
     | JNull => throw TypeError
     | _ =>
         match toString (get "expires_in" tokenData) with
         | None => throw TypeError
         | Some expires_in =>
             match as_str (get "access_token" tokenData),
                   as_str (get "token_type" tokenData) with
             | Some access_token, Some token_type =>
                 multiSet ([("access_token", Raw access_token);
                            ("token_type", Raw token_type);
                            ("token_expires_in", Raw expires_in)]
                           ++ match username with
                              | Some u => if string_truthy u then [("username", Raw u)] else []
                              | None => []
                              end)
             | _, _ => throw StorageError
             end
         end
     end)
    (λ error, log "Error storing tokens:" >> throw error).

Definition getToken : Async (option text) :=
  try_catch (getItem "access_token")
            (λ _, log "Error retrieving token:" >> ret None).

Definition clearTokens : Async unit :=
  try_catch
    (multiRemove ["access_token"; "token_type"; "username"; "token_expires_in"])
    (λ _, log "Error clearing tokens:").

(** [!!token] *)
Definition double_bang (token : option text) : bool :=
  match token with
  | Some t => text_truthy t
  | None => false
  end.

Definition isAuthenticated : Async bool :=
  try_catch (await token := getItem "access_token" in ret (double_bang token))
            (λ _, ret false).

(** ** offlineStorage *)

Definition offline_prefix : string := "offline_".

Definition offlineKey (key : string) : string := offline_prefix +:+ key.

(** The value [storeOfflineData] writes: [{ data, timestamp }]. *)
Definition envelope (data : json) (now : Z) : json :=
  JObj [("data", data); ("timestamp", JStr (toISOString now))].

Definition storeOfflineData (key : string) (data : json) (now : Z) : Async unit :=
  try_catch (setItem (offlineKey key) (Stringified (envelope data now)))
            (λ _, log "Error storing offline data:").

(** Returns [parsed.data], with [None] for [null] and [undefined]. *)
Definition getOfflineData (key : string) : Async (option json) :=
  try_catch
    (await storedData := getItem (offlineKey key) in
     match storedData with
     | Some t =>
         if text_truthy t then
           match JSON_parse t with
           | None => throw SyntaxError
           | Some JNull => throw TypeError
           | Some parsed => ret (get "data" parsed)
           end
         else ret None
     | None => ret None
     end)
    (λ _, log "Error retrieving offline data:" >> ret None).

Definition is_offline_key (k : string) : bool := startsWith k offline_prefix.

(** [clearOfflineData(key?)]: an absent or empty [key] takes the second
    branch, which removes every [offline_] item. *)
Definition clearOfflineData (key : option string) : Async unit :=
  try_catch
    (match key with
     | Some k =>
         if string_truthy k then removeItem (offlineKey k)
         else
           await keys := getAllKeys in
           let offlineKeys := filter (λ k, Is_true (is_offline_key k)) keys in
           if (0 <? Z.of_nat (length offlineKeys))%Z then multiRemove offlineKeys else ret tt
     | None =>
         await keys := getAllKeys in
         let offlineKeys := filter (λ k, Is_true (is_offline_key k)) keys in
         if (0 <? Z.of_nat (length offlineKeys))%Z then multiRemove offlineKeys else ret tt
     end)
    (λ _, log "Error clearing offline data:").

(** The body of the [for] loop of [syncOfflineData]: read the item and, when
    it holds text, write one console line. Nothing else is done with it. *)
Fixpoint sync_each (offlineKeys : list string) : Async unit :=
  match offlineKeys with
  | [] => ret tt
  | key :: rest =>
      await data := getItem key in
      (if double_bang data
       then log ("Syncing offline data for key: " +:+ key)
       else ret tt) >>
      sync_each rest
  end.

Definition syncOfflineData : Async unit :=
  try_catch
    (await keys := getAllKeys in
     let offlineKeys := filter (λ k, Is_true (is_offline_key k)) keys in
     sync_each offlineKeys)
    (λ _, log "Error syncing offline data:").

(** ** authAPI *)

Record LoginCredentials : Type := mkCredentials {
  username : string;
  password : string;
}.

(** [response.data] is stored and returned as it is. *)
Definition login (credentials : LoginCredentials) (server : reply json)
  : Async json :=
  try_catch
    (await tokenData := apiClient_request server in
     storeTokens_body tokenData (Some (username credentials)) >>
     ret tokenData)
    (λ error, log "Login error:" >> throw error).

Definition logout : Async unit :=
  try_catch (clearTokens >> clearOfflineData None)
            (λ _, log "Logout error:").

Definition getCurrentUser (server : reply json) : Async json :=
  try_catch (apiClient_request server)
            (λ error, log "Get current user error:" >> throw error).

(** ** Reads that keep a copy under an [offline_] key

    [ordersAPI.getOrders], [packoutTasksAPI.getTasks] and
    [routingGuidesAPI.getRoutingGuides] have the same body up to the cache
    key and the console lines. *)
Definition cached_get (key errorLine hitLine : string) (server : reply json) (now : Z)
  : Async json :=
  try_catch
    (await data := apiClient_request server in
     storeOfflineData key data now >>
     ret data)
    (λ error,
       log errorLine >>
       await offlineData := getOfflineData key in
       match offlineData with
       | Some v => if truthy v then log hitLine >> ret v else throw error
       | None => throw error
       end).

Definition getOrders := cached_get "orders" "Get orders error:" "Returning offline orders data".
Definition getTasks :=
  cached_get "packout_tasks" "Get packout tasks error:" "Returning offline packout tasks data".
Definition getRoutingGuides :=
  cached_get "routing_guides" "Get routing guides error:" "Returning offline routing guides data".

(** ** Writes that are stored for a later sync when they fail *)

Definition updateOrderStatus (orderId : Z) (status : string) (server : reply json) (now : Z)
  : Async json :=
  try_catch (apiClient_request server)
    (λ error,
       log "Update order status error:" >>
       storeOfflineData ("order_status_update_" +:+ pretty orderId)
         (JObj [("orderId", JNum orderId); ("status", JStr status);
                ("timestamp", JStr (toISOString now))]) now >>
       throw error).

(** [{ ...taskData, timestamp }] *)
Definition createTask (taskData : list (string * json)) (server : reply json) (now : Z)
  : Async json :=
  try_catch (apiClient_request server)
    (λ error,
       log "Create packout task error:" >>
       storeOfflineData ("create_task_" +:+ pretty now)
         (JObj (assign "timestamp" (JStr (toISOString now)) taskData)) now >>
       throw error).

(** [{ taskId, ...updateData, timestamp }] *)
Definition updateTask (taskId : Z) (updateData : list (string * json))
    (server : reply json) (now : Z) : Async json :=
  try_catch (apiClient_request server)
    (λ error,
       log "Update packout task error:" >>
       storeOfflineData ("update_task_" +:+ pretty taskId)
         (JObj (assign "timestamp" (JStr (toISOString now))
                  (foldl (λ acc kv, assign kv.1 kv.2 acc) [("taskId", JNum taskId)] updateData)))
         now >>
       throw error).

Record PackoutTaskData : Type := mkTaskData {
  order_id : Z;
  steps_completed : list json;
  compliance_photos : list json;
  completed_at : string;
  worker_notes : option string;
}.

Definition taskDataProps (taskData : PackoutTaskData) : list (string * json) :=
  [("order_id", JNum (order_id taskData));
   ("steps_completed", JArr (steps_completed taskData));
   ("compliance_photos", JArr (compliance_photos taskData));
   ("completed_at", JStr (completed_at taskData))]
  ++ match worker_notes taskData with
     | Some n => [("worker_notes", JStr n)]
     | None => []
     end.

(** The key under which [completeTask] stores a failed submission. *)
Definition complete_task_key (orderId now : Z) : string :=
  "complete_task_" +:+ pretty orderId +:+ "_" +:+ pretty now.

Definition completeTask (taskData : PackoutTaskData) (server : reply json) (now : Z)
  : Async json :=
  try_catch (apiClient_request server)
    (λ error,
       log "Complete packout task error:" >>
       storeOfflineData (complete_task_key (order_id taskData) now)
         (JObj (assign "offline_timestamp" (JStr (toISOString now)) (taskDataProps taskData)))
         now >>
       throw error).

(** ** Requests that only report their error

    [ordersAPI.getOrderByBarcode] and [getOrder], the three functions of
    [compliancePhotosAPI], [routingGuidesAPI.getRoutingGuide] and the two
    functions of [workerAPI] have the same body up to the console line: the
    request through [apiClient], and a [catch] that logs and throws the
    error again. *)
Definition reported_request (errorLine : string) (server : reply json) : Async json :=
  try_catch (apiClient_request server)
            (λ error, log errorLine >> throw error).

Definition getOrderByBarcode := reported_request "Get order by barcode error:".
Definition getOrder := reported_request "Get order error:".
Definition uploadPhoto := reported_request "Upload compliance photo error:".
Definition getPhotos := reported_request "Get compliance photos error:".
Definition updatePhoto := reported_request "Update compliance photo error:".
Definition getRoutingGuide := reported_request "Get routing guide error:".
Definition getWorkerStats := reported_request "Get worker stats error:".
Definition getWorkerTasks := reported_request "Get worker tasks error:".


(** ** networkUtils *)

Definition checkConnectivity (health : reply json) : Async bool :=
  try_catch
    (apiClient_request health >>
     ret (match health with
          | Response status _ => status =? 200
          | NoResponse => false
          end))
    (λ _, ret false).

Definition syncPendingData (health : reply json) : Async unit :=
  try_catch
    (await isConnected := checkConnectivity health in
     if isConnected then syncOfflineData else ret tt)
    (λ _, log "Sync pending data error:").

End Api.

(* ===================================================================== *)
(** * Part 3. The data of the two screens                                 *)
(* ===================================================================== *)

(** [interface ScannedOrder] of the scanner screen; the packout screen
    receives it as [route.params.order]. *)
Module ScannedOrder.
Record customer : Type := mkCustomer { name : string; email : string }.
Record line : Type := mkLine { sku : string; line_name : string; quantity : Z }.
Record t : Type := mk {
  id : Z;
  order_number : string;
  customer_info : customer;
  items : list line;
  status : string;
  priority : string;
}.
End ScannedOrder.

(** An entry of [checklistItems]. *)
Module Item.
Record t : Type := mk { id : Z; text : string; completed : bool }.
End Item.

(** [interface PackoutStep]. [photoUri] is optional. *)
Module Step.
Record t : Type := mk {
  id : Z;
  title : string;
  description : string;
  required : bool;
  completed : bool;
  photoRequired : bool;
  photoTaken : bool;
  photoUri : option string;
  instructions : list string;
  checklistItems : list Item.t;
}.
End Step.

Inductive PhotoType : Type := package | label | damage | compliance.

(** The [timestamp] of a compliance photo at run time: the [Date] object
    [handleCameraCapture] creates, or the string a parsed JSON value holds
    in its place. *)
Inductive Timestamp : Type :=
| DateObject (ms : Z)
| TimeString (s : string).

(** [interface CompliancePhoto]. *)
Module Photo.
Record t : Type := mk {
  uri : string;
  type : PhotoType;
  notes : string;
  timestamp : Timestamp;
}.
End Photo.

(** ** From run-time values to JSON ([JSON.stringify]'s view of them) *)

Definition photoTypeName (t : PhotoType) : string :=
  match t with
  | package => "package"
  | label => "label"
  | damage => "damage"
  | compliance => "compliance"
  end.

Definition itemToJSON (item : Item.t) : json :=
  JObj [("id", JNum (Item.id item)); ("text", JStr (Item.text item));
        ("completed", JBool (Item.completed item))].

(** An [undefined] [photoUri] is left out; once set it is the object's last
    property. *)
Definition stepToJSON (step : Step.t) : json :=
  JObj ([("id", JNum (Step.id step));
         ("title", JStr (Step.title step));
         ("description", JStr (Step.description step));
         ("required", JBool (Step.required step));
         ("completed", JBool (Step.completed step));
         ("photoRequired", JBool (Step.photoRequired step));
         ("photoTaken", JBool (Step.photoTaken step));
         ("instructions", JArr (JStr <$> Step.instructions step));
         ("checklistItems", JArr (itemToJSON <$> Step.checklistItems step))]
        ++ match Step.photoUri step with
           | Some u => [("photoUri", JStr u)]
           | None => []
           end).

Section ToJSON.
Context `{Platform}.

(** A [Date] is written through its [toJSON], that is [toISOString]. *)
Definition timestampToJSON (t : Timestamp) : json :=
  match t with
  | DateObject ms => JStr (toISOString ms)
  | TimeString s => JStr s
  end.

Definition photoToJSON (photo : Photo.t) : json :=
  JObj [("uri", JStr (Photo.uri photo));
        ("type", JStr (photoTypeName (Photo.type photo)));
        ("notes", JStr (Photo.notes photo));
        ("timestamp", timestampToJSON (Photo.timestamp photo))].

End ToJSON.

(** ** From parsed JSON back to the declared types

    The screen puts what [JSON.parse] returns into its state as it is. The
    readers below say which step, item or photo a parsed value is when the
    handlers later read its properties; a value of another shape has none. *)

Definition itemOfJSON (j : json) : option Item.t :=
  id ← as_num (get "id" j);
  text ← as_str (get "text" j);
  completed ← as_bool (get "completed" j);
  Some (Item.mk id text completed).

Definition optional_str (j : option json) : option (option string) :=
  match j with
  | None => Some None
  | Some (JStr s) => Some (Some s)
  | Some _ => None
  end.

Definition stepOfJSON (j : json) : option Step.t :=
  id ← as_num (get "id" j);
  title ← as_str (get "title" j);
  description ← as_str (get "description" j);
  required ← as_bool (get "required" j);
  completed ← as_bool (get "completed" j);
  photoRequired ← as_bool (get "photoRequired" j);
  photoTaken ← as_bool (get "photoTaken" j);
  photoUri ← optional_str (get "photoUri" j);
  instructions ← as_arr (get "instructions" j) ≫= mapM (λ x, as_str (Some x));
  checklistItems ← as_arr (get "checklistItems" j) ≫= mapM itemOfJSON;
  Some (Step.mk id title description required completed photoRequired photoTaken
          photoUri instructions checklistItems).

Definition photoTypeOfName (s : string) : option PhotoType :=
  if String.eqb s "package" then Some package
  else if String.eqb s "label" then Some label
  else if String.eqb s "damage" then Some damage
  else if String.eqb s "compliance" then Some compliance
  else None.

(** A parsed [timestamp] is a string: JSON has no dates. *)
Definition photoOfJSON (j : json) : option Photo.t :=
  uri ← as_str (get "uri" j);
  type ← as_str (get "type" j) ≫= photoTypeOfName;
  notes ← as_str (get "notes" j);
  timestamp ← as_str (get "timestamp" j);
  Some (Photo.mk uri type notes (TimeString timestamp)).

(* ===================================================================== *)
(** * Part 4. The packout instructions screen                             *)
(* ===================================================================== *)

(** ** Component state

    The step objects live in [objects] and are mutated in place; the state
    variable [packoutSteps] is an array of references to them. The spread
    [[...packoutSteps]] copies the references, not the objects, so the array
    of the current render and the copy a handler builds reach the same
    objects. The checklist items of a step are reached through that step
    only and are kept inside it. *)

Definition ref : Type := nat.

Record Screen : Type := mkScreen {
  objects : list Step.t;
  packoutSteps : list ref;
  compliancePhotos : list Photo.t;
  currentStepIndex : Z;
  showCamera : bool;
  cameraType : PhotoType;
  photoNotes : string;
  submitting : bool;
  showCompletionModal : bool;
  alerts : list (string * string);
}.

(** [array[i]] for a JavaScript number [i]: [None] is [undefined]. *)
Definition at_index {A} (l : list A) (i : Z) : option A :=
  if i <? 0 then None else l !! Z.to_nat i.

(** The step object the array slot [i] refers to, with its reference. *)
Definition step_at (s : Screen) (steps : list ref) (i : Z) : option (ref * Step.t) :=
  r ← at_index steps i;
  step ← objects s !! r;
  Some (r, step).

(** The steps as a reader of [packoutSteps] sees them. *)
Definition steps_of (s : Screen) : list (option Step.t) :=
  (λ r, objects s !! r) <$> packoutSteps s.

Definition with_objects (o : list Step.t) (s : Screen) : Screen :=
  mkScreen o (packoutSteps s) (compliancePhotos s) (currentStepIndex s) (showCamera s)
    (cameraType s) (photoNotes s) (submitting s) (showCompletionModal s) (alerts s).
Definition setPackoutSteps (steps : list ref) (s : Screen) : Screen :=
  mkScreen (objects s) steps (compliancePhotos s) (currentStepIndex s) (showCamera s)
    (cameraType s) (photoNotes s) (submitting s) (showCompletionModal s) (alerts s).
Definition setCompliancePhotos (photos : list Photo.t) (s : Screen) : Screen :=
  mkScreen (objects s) (packoutSteps s) photos (currentStepIndex s) (showCamera s)
    (cameraType s) (photoNotes s) (submitting s) (showCompletionModal s) (alerts s).
Definition setCurrentStepIndex (i : Z) (s : Screen) : Screen :=
  mkScreen (objects s) (packoutSteps s) (compliancePhotos s) i (showCamera s)
    (cameraType s) (photoNotes s) (submitting s) (showCompletionModal s) (alerts s).
Definition setShowCamera (b : bool) (s : Screen) : Screen :=
  mkScreen (objects s) (packoutSteps s) (compliancePhotos s) (currentStepIndex s) b
    (cameraType s) (photoNotes s) (submitting s) (showCompletionModal s) (alerts s).
Definition setCameraType (t : PhotoType) (s : Screen) : Screen :=
  mkScreen (objects s) (packoutSteps s) (compliancePhotos s) (currentStepIndex s)
    (showCamera s) t (photoNotes s) (submitting s) (showCompletionModal s) (alerts s).
Definition setPhotoNotes (n : string) (s : Screen) : Screen :=
  mkScreen (objects s) (packoutSteps s) (compliancePhotos s) (currentStepIndex s)
    (showCamera s) (cameraType s) n (submitting s) (showCompletionModal s) (alerts s).
Definition setSubmitting (b : bool) (s : Screen) : Screen :=
  mkScreen (objects s) (packoutSteps s) (compliancePhotos s) (currentStepIndex s)
    (showCamera s) (cameraType s) (photoNotes s) b (showCompletionModal s) (alerts s).
Definition setShowCompletionModal (b : bool) (s : Screen) : Screen :=
  mkScreen (objects s) (packoutSteps s) (compliancePhotos s) (currentStepIndex s)
    (showCamera s) (cameraType s) (photoNotes s) (submitting s) b (alerts s).
(** [Alert.alert(title, message, ...)] *)
Definition Alert_alert (title message : string) (s : Screen) : Screen :=
  mkScreen (objects s) (packoutSteps s) (compliancePhotos s) (currentStepIndex s)
    (showCamera s) (cameraType s) (photoNotes s) (submitting s) (showCompletionModal s)
    (alerts s ++ [(title, message)]).

(** ** The initial steps *)

Definition unchecked (texts : list string) : list Item.t :=
  imap (λ i text, Item.mk (Z.of_nat i + 1) text false) texts.

Definition initialSteps : list Step.t :=
  [ Step.mk 1 "Verify Order Items" "Check all items against the order list"
      true false true false None
      ["Scan or verify each item SKU"; "Check quantities match order";
       "Inspect items for damage"; "Set aside any damaged items"]
      (unchecked ["All items present"; "Quantities correct"; "No visible damage"]);
    Step.mk 2 "Select Packaging" "Choose appropriate packaging materials"
      true false true false None
      ["Select box size based on items"; "Use bubble wrap for fragile items";
       "Add sufficient padding material"; "Ensure box can close properly"]
      (unchecked ["Correct box size selected"; "Protective materials added";
                  "Box closes securely"]);
    Step.mk 3 "Pack Items" "Carefully pack all items in the container"
      true false true false None
      ["Place heavier items at bottom"; "Wrap fragile items individually";
       "Fill empty spaces with padding"; "Ensure nothing moves when shaken"]
      (unchecked ["Items packed securely"; "No movement in package";
                  "Fragile items protected"]);
    Step.mk 4 "Apply Labels" "Attach shipping and handling labels"
      true false true false None
      ["Print shipping label"; "Apply label to largest flat surface";
       "Add fragile stickers if needed"; "Attach return label inside package"]
      (unchecked ["Shipping label applied correctly"; "Address clearly visible";
                  "Special handling labels added"]);
    Step.mk 5 "Final Inspection" "Perform final quality check"
      true false true false None
      ["Verify all labels are secure"; "Check package integrity";
       "Confirm order details match"; "Take final compliance photo"]
      (unchecked ["Package sealed properly"; "All labels secure";
                  "Final inspection passed"]) ].

(** The state of the first render: the [useState] initial values. *)
Definition initialScreen : Screen :=
  mkScreen initialSteps (seq 0 (length initialSteps)) [] 0 false package "" false false [].

Section PackoutInstructionsScreen.
Context `{Platform}.
Variable order : ScannedOrder.t.

Definition packout_key : string := "packout_" +:+ pretty (ScannedOrder.id order).

(** ** savePackoutProgress

    [s] is what the closure of the calling render holds: its
    [packoutSteps], [compliancePhotos] and [currentStepIndex], and the
    objects as they are when the call is made. An array slot that refers to
    no object is [undefined] and is written as [null]. *)
Definition progressToJSON (s : Screen) (now : Z) : json :=
  JObj [("steps", JArr ((λ o, from_option stepToJSON JNull o) <$> steps_of s));
        ("photos", JArr (photoToJSON <$> compliancePhotos s));
        ("currentStep", JNum (currentStepIndex s));
        ("lastUpdated", JStr (toISOString now))].

Definition savePackoutProgress (s : Screen) (now : Z) : Async unit :=
  try_catch (setItem packout_key (Stringified (progressToJSON s now)))
            (λ _, log "Error saving progress:").

(** ** loadPackoutProgress

    Parsing creates new objects; they are appended to [objects]. The result
    is [None] when a parsed field is truthy but is not of the type the state
    variable declares: the component then holds a value the handlers below
    are not written for. *)

(** [progress.steps || packoutSteps] *)
Definition loaded_steps (progress : json) (s : Screen) : option (list Step.t * list ref) :=
  match get "steps" progress with
  | Some v =>
      if truthy v then
        steps ← as_arr (Some v) ≫= mapM stepOfJSON;
        Some ((objects s ++ steps)%list, seq (length (objects s)) (length steps))
      else Some (objects s, packoutSteps s)
  | None => Some (objects s, packoutSteps s)
  end.

(** [progress.photos || []] *)
Definition loaded_photos (progress : json) : option (list Photo.t) :=
  as_arr (Some (or_else (get "photos" progress) (JArr []))) ≫= mapM photoOfJSON.

(** [progress.currentStep || 0] *)
Definition loaded_index (progress : json) : option Z :=
  as_num (Some (or_else (get "currentStep" progress) (JNum 0))).

Definition loadPackoutProgress (s : Screen) : Async (option Screen) :=
  try_catch
    (await savedProgress := getItem packout_key in
     if double_bang savedProgress then
       match savedProgress ≫= JSON_parse with
       | None => throw SyntaxError
       | Some JNull => throw TypeError
       | Some progress =>
           ret ('(objs, steps) ← loaded_steps progress s;
                photos ← loaded_photos progress;
                index ← loaded_index progress;
                Some (setCurrentStepIndex index
                        (setCompliancePhotos photos
                           (setPackoutSteps steps (with_objects objs s)))))
       end
     else ret (Some s))
    (λ _, log "Error loading progress:" >> ret (Some s)).

(** ** handleChecklistItemToggle *)

(** [item.completed = !item.completed] on the item [find] returned: the
    first one with that id. *)
Fixpoint toggle_found (itemId : Z) (items : list Item.t) : list Item.t :=
  match items with
  | [] => []
  | item :: rest =>
      if Item.id item =? itemId
      then Item.mk (Item.id item) (Item.text item) (negb (Item.completed item)) :: rest
      else item :: toggle_found itemId rest
  end.

Definition assign_checklist (items : list Item.t) (completed : bool) (step : Step.t) : Step.t :=
  Step.mk (Step.id step) (Step.title step) (Step.description step) (Step.required step)
    completed (Step.photoRequired step) (Step.photoTaken step) (Step.photoUri step)
    (Step.instructions step) items.

(** A [TypeError] (reading [checklistItems] of [undefined]) is not caught
    by the handler. *)
Definition handleChecklistItemToggle (s : Screen) (stepIndex itemId : Z) (now : Z)
  : Async Screen :=
  let updatedSteps := packoutSteps s in
  match step_at s updatedSteps stepIndex with
  | None => throw TypeError
  | Some (r, step) =>
      match find (λ item, Item.id item =? itemId) (Step.checklistItems step) with
      | Some _ =>
          let items := toggle_found itemId (Step.checklistItems step) in
          let allItemsCompleted := forallb Item.completed items in
          let photoCompleted := negb (Step.photoRequired step) || Step.photoTaken step in
          let mutated :=
            with_objects
              (<[r := assign_checklist items (allItemsCompleted && photoCompleted) step]>
                 (objects s)) s in
          savePackoutProgress mutated now >>
          ret (setPackoutSteps updatedSteps mutated)
      | None => ret s
      end
  end.

(** ** handleTakePhoto *)
Definition handleTakePhoto (photoType : PhotoType) (s : Screen) : Screen :=
  setShowCamera true (setPhotoNotes "" (setCameraType photoType s)).

(** ** handleCameraCapture *)

Definition assign_photo (uri : string) (step : Step.t) : Step.t :=
  Step.mk (Step.id step) (Step.title step) (Step.description step) (Step.required step)
    (forallb Item.completed (Step.checklistItems step) && true)
    (Step.photoRequired step) true (Some uri)
    (Step.instructions step) (Step.checklistItems step).

(** The whole body is inside [try]; the [catch] reports the error. The
    call of [savePackoutProgress] is the one of the current render: it sees
    the mutated step object, and the [compliancePhotos] the render started
    with. *)
Definition handleCameraCapture (s : Screen) (uri : string) (now : Z) : Async Screen :=
  try_catch
    (let updatedSteps := packoutSteps s in
     match step_at s updatedSteps (currentStepIndex s) with
     | None => throw TypeError
     | Some (r, currentStep) =>
         let mutated := with_objects (<[r := assign_photo uri currentStep]> (objects s)) s in
         let compliancePhoto :=
           Photo.mk uri (cameraType s) (photoNotes s) (DateObject now) in
         savePackoutProgress mutated now >>
         ret (Alert_alert "Success" "Photo captured successfully!"
                (setShowCamera false
                   (setCompliancePhotos (compliancePhotos s ++ [compliancePhoto])
                      (setPackoutSteps updatedSteps mutated))))
     end)
    (λ _, log "Error capturing photo:" >>
          ret (Alert_alert "Error" "Failed to capture photo. Please try again." s)).

(** ** handleNextStep, handlePreviousStep *)

Definition handleNextStep (s : Screen) (now : Z) : Async Screen :=
  match step_at s (packoutSteps s) (currentStepIndex s) with
  | None => throw TypeError
  | Some (_, currentStep) =>
      if negb (Step.completed currentStep) then
        ret (Alert_alert "Step Incomplete"
               "Please complete all checklist items and take required photos before proceeding."
               s)
      else if currentStepIndex s <? Z.of_nat (length (packoutSteps s)) - 1 then
        savePackoutProgress s now >>
        ret (setCurrentStepIndex (currentStepIndex s + 1) s)
      else ret (setShowCompletionModal true s)
  end.

Definition handlePreviousStep (s : Screen) (now : Z) : Async Screen :=
  if 0 <? currentStepIndex s then
    savePackoutProgress s now >>
    ret (setCurrentStepIndex (currentStepIndex s - 1) s)
  else ret s.

(** ** handleSubmitPackout *)

Definition stepCompletion (step : Step.t) : json :=
  JObj ([("step_id", JNum (Step.id step));
         ("completed", JBool (Step.completed step));
         ("checklist_items", JArr (itemToJSON <$> Step.checklistItems step))]
        ++ match Step.photoUri step with
           | Some u => [("photo_uri", JStr u)]
           | None => []
           end).

(** [photo.timestamp.toISOString()]: a string has no such method. *)
Definition photoSummary (photo : Photo.t) : option json :=
  match Photo.timestamp photo with
  | DateObject ms =>
      Some (JObj [("type", JStr (photoTypeName (Photo.type photo)));
                  ("notes", JStr (Photo.notes photo));
                  ("timestamp", JStr (toISOString ms))])
  | TimeString _ => None
  end.

Definition submissionData (s : Screen) (now : Z) : option PackoutTaskData :=
  steps ← mapM (fmap stepCompletion) (steps_of s);
  photos ← mapM photoSummary (compliancePhotos s);
  Some (mkTaskData (ScannedOrder.id order) steps photos (toISOString now) (Some "")).

(** The request goes through [axios] itself, not through [apiClient] and
    not through [packoutTasksAPI.completeTask]. The [finally] block runs on
    both paths. *)
Definition handleSubmitPackout (s : Screen) (server : reply json) (now : Z) : Async Screen :=
  await shown :=
    try_catch
      (await token := getItem "access_token" in
       match submissionData s now with
       | None => throw TypeError
       | Some data =>
           axios_request server >>
           removeItem packout_key >>
           ret (Alert_alert "Success!" "Packout completed successfully!" s)
       end)
      (λ _, log "Submission error:" >>
            ret (Alert_alert "Submission Failed"
                   "Failed to submit packout. Data has been saved locally." s)) in
  ret (setShowCompletionModal false (setSubmitting false shown)).

End PackoutInstructionsScreen.

(* ===================================================================== *)
(** * Part 5. The scanner screen                                          *)
(* ===================================================================== *)

(** [orderData] holds what [setOrderData] was given: [response.data] as it
    came, whatever it is, or the placeholder object; [null] before. *)
Record Scanner : Type := mkScanner {
  scanning : bool;
  scannedData : option string;
  loading : bool;
  orderData : json;
  showOrderModal : bool;
}.

Definition setOrderData (o : json) (s : Scanner) : Scanner :=
  mkScanner (scanning s) (scannedData s) (loading s) o (showOrderModal s).
Definition setShowOrderModal (b : bool) (s : Scanner) : Scanner :=
  mkScanner (scanning s) (scannedData s) (loading s) (orderData s) b.
Definition setLoading (b : bool) (s : Scanner) : Scanner :=
  mkScanner (scanning s) (scannedData s) b (orderData s) (showOrderModal s).

(** [barcode.slice(-6)]: the last six characters, or all of them when there
    are fewer. *)
Definition slice_last (n : nat) (s : string) : string :=
  String.substring (String.length s - n)%nat n s.

Definition mockOrder (barcode : string) : ScannedOrder.t :=
  ScannedOrder.mk 1 ("ORD-" +:+ slice_last 6 barcode)
    (ScannedOrder.mkCustomer "John Smith" "john.smith@example.com")
    [ScannedOrder.mkLine "SKU-001" "Product A" 2;
     ScannedOrder.mkLine "SKU-002" "Product B" 1]
    "pending" "normal".

(** An order as a run-time object, and the order a run-time value is when
    its properties are read. *)
Definition lineToJSON (l : ScannedOrder.line) : json :=
  JObj [("sku", JStr (ScannedOrder.sku l));
        ("name", JStr (ScannedOrder.line_name l));
        ("quantity", JNum (ScannedOrder.quantity l))].

Definition orderToJSON (o : ScannedOrder.t) : json :=
  JObj [("id", JNum (ScannedOrder.id o));
        ("order_number", JStr (ScannedOrder.order_number o));
        ("customer_info",
         JObj [("name", JStr (ScannedOrder.name (ScannedOrder.customer_info o)));
               ("email", JStr (ScannedOrder.email (ScannedOrder.customer_info o)))]);
        ("items", JArr (lineToJSON <$> ScannedOrder.items o));
        ("status", JStr (ScannedOrder.status o));
        ("priority", JStr (ScannedOrder.priority o))].

Definition lineOfJSON (j : json) : option ScannedOrder.line :=
  sku ← as_str (get "sku" j);
  name ← as_str (get "name" j);
  quantity ← as_num (get "quantity" j);
  Some (ScannedOrder.mkLine sku name quantity).

Definition orderOfJSON (j : json) : option ScannedOrder.t :=
  id ← as_num (get "id" j);
  order_number ← as_str (get "order_number" j);
  customer ← get "customer_info" j;
  name ← as_str (get "name" customer);
  email ← as_str (get "email" customer);
  items ← as_arr (get "items" j) ≫= mapM lineOfJSON;
  status ← as_str (get "status" j);
  priority ← as_str (get "priority" j);
  Some (ScannedOrder.mk id order_number (ScannedOrder.mkCustomer name email) items
          status priority).

(** [setOrderData(response.data)]: the body of a 2xx response is not
    looked at. *)
Definition fetchOrderData (s : Scanner) (barcode : string) (server : reply json)
  : Async Scanner :=
  await shown :=
    try_catch
      (await token := getItem "access_token" in
       await data := axios_request server in
       ret (setShowOrderModal true (setOrderData data s)))
      (λ _, log "API error:" >>
            ret (setShowOrderModal true
                   (setOrderData (orderToJSON (mockOrder barcode)) s))) in
  ret (setLoading false shown).

Definition setScanning (b : bool) (s : Scanner) : Scanner :=
  mkScanner b (scannedData s) (loading s) (orderData s) (showOrderModal s).
Definition setScannedData (data : option string) (s : Scanner) : Scanner :=
  mkScanner (scanning s) data (loading s) (orderData s) (showOrderModal s).

(** The state of the first render of the scanner. *)
Definition initialScanner : Scanner := mkScanner true None false JNull false.

(** ** handleBarCodeRead

    A scan is dropped while the scanner is not scanning or a lookup is under
    way. The result is the state and the alert the [catch] shows, if any;
    the vibration touches neither the state nor the device and is left
    out. *)
Definition handleBarCodeRead (s : Scanner) (data : string) (server : reply json)
  : Async (Scanner * option (string * string)) :=
  if negb (scanning s) || loading s then ret (s, None)
  else
    let started := setLoading true (setScannedData (Some data) (setScanning false s)) in
    try_catch
      (await shown := fetchOrderData started data server in
       ret (shown, None))
      (λ _, log "Scan processing error:" >>
            ret (started,
                 Some ("Scan Error", "Failed to process the scanned code. Please try again."))).

(** ** handleOrderSelect, handleRescan

    [navigation.navigate('PackoutInstructions', { order, scannedCode })]:
    the route and its two parameters. *)
Record Navigation : Type := mkNavigation {
  route_name : string;
  route_order : json;
  route_scannedCode : option string;
}.

(** [if (orderData)] *)
Definition handleOrderSelect (s : Scanner) : Scanner * option Navigation :=
  if truthy (orderData s) then
    (setShowOrderModal false s,
     Some (mkNavigation "PackoutInstructions" (orderData s) (scannedData s)))
  else (s, None).

Definition handleRescan (s : Scanner) : Scanner :=
  setScanning true (setScannedData None (setOrderData JNull (setShowOrderModal false s))).

(* ===================================================================== *)
(** * Part 5, continued. The App component                               *)
(* ===================================================================== *)

(** The state of the [App] component. [isAuthenticated] is [null] until the
    start-up check has answered. *)
Module App.
Record t : Type := mk {
  isAuthenticated : option bool;
  isLoading : bool;
  user : option json;
  alerts : list (string * string);
}.
End App.

Definition initialApp : App.t := App.mk None true None [].

Definition setIsAuthenticated (b : bool) (app : App.t) : App.t :=
  App.mk (Some b) (App.isLoading app) (App.user app) (App.alerts app).
Definition setIsLoading (b : bool) (app : App.t) : App.t :=
  App.mk (App.isAuthenticated app) b (App.user app) (App.alerts app).
Definition setUser (u : option json) (app : App.t) : App.t :=
  App.mk (App.isAuthenticated app) (App.isLoading app) u (App.alerts app).
Definition App_alert (title message : string) (app : App.t) : App.t :=
  App.mk (App.isAuthenticated app) (App.isLoading app) (App.user app)
    (App.alerts app ++ [(title, message)]).

(** ** initializeApp

    [me] is the server's answer to [/auth/me]; [health] and [health'] are
    its answers to the two [/health] requests ([checkConnectivity] is called
    by [initializeApp] and again inside [syncPendingData]).

    A [catch] sees the state as the setters called before the exception
    left it: the inner one is written once for an exception of
    [getCurrentUser], before [setUser], and once for one after
    [setIsAuthenticated(true)]. *)
Definition token_validation_failed (app : App.t) : Async App.t :=
  log "Token validation failed:" >>
  clearTokens >>
  ret (setIsAuthenticated false app).

Definition initializeApp (app : App.t) (me health health' : reply json) : Async App.t :=
  await checked :=
    try_catch
      (await isAuth := isAuthenticated in
       if isAuth then
         await userData :=
           try_catch (await data := getCurrentUser me in ret (Some data))
                     (λ _, ret None) in
         match userData with
         | Some data =>
             let signed := setIsAuthenticated true (setUser (Some data) app) in
             try_catch
               (await isConnected := checkConnectivity health in
                (if isConnected then syncPendingData health' else ret tt) >>
                ret signed)
               (λ _, token_validation_failed signed)
         | None => token_validation_failed app
         end
       else ret (setIsAuthenticated false app))
      (λ _, log "App initialization error:" >>
            ret (setIsAuthenticated false app)) in
  ret (setIsLoading false checked).

(** ** handleAuthStateChange, handleLogout *)

(** [userData || null] *)
Definition or_null (userData : option json) : option json :=
  match userData with
  | Some v => if truthy v then Some v else None
  | None => None
  end.

Definition handleAuthStateChange (authenticated : bool) (userData : option json) (app : App.t)
  : App.t :=
  setUser (or_null userData) (setIsAuthenticated authenticated app).

Definition handleLogout (app : App.t) : Async App.t :=
  try_catch
    (logout >>
     ret (setUser None (setIsAuthenticated false app)))
    (λ _, log "Logout error:" >>
          ret (App_alert "Error" "Failed to logout properly. Please try again." app)).


(* ===================================================================== *)
(** * Part 6. What the properties are stated with                        *)
(* ===================================================================== *)

(** The state of a component after a handler ran: an exception that escapes
    the handler leaves the state of the render it was called in. *)
Definition after {S} (s : S) (r : settled S * Device) : S :=
  match r.1 with
  | Fulfilled s' => s'
  | Rejected _ => s
  end.

Definition healthy (m : gmap string text) : Device := mkDevice m false [].

(** ** The packout screen *)

Section PackoutNotions.
Context `{Platform}.
Variable order : ScannedOrder.t.

(** What [savePackoutProgress] leaves on the device: the progress entry when
    the store works, one console line when it does not. It never rejects. *)
Definition saved (s : Screen) (now : Z) (d : Device) : Device :=
  if failing d then printed "Error saving progress:" d
  else with_items (<[packout_key order := Stringified (progressToJSON s now)]> (items d)) d.

Definition StepIncomplete : string * string :=
  ("Step Incomplete",
   "Please complete all checklist items and take required photos before proceeding.").

Definition SubmissionFailed : string * string :=
  ("Submission Failed", "Failed to submit packout. Data has been saved locally.").

(** The index of the last step. *)
Definition last_index (s : Screen) : Z := Z.of_nat (length (packoutSteps s)) - 1.

(** What the flag is derived from: every checklist item is completed, and a
    required photo has been taken. *)
Definition derived_completed (step : Step.t) : bool :=
  forallb Item.completed (Step.checklistItems step)
  && implb (Step.photoRequired step) (Step.photoTaken step).

Definition consistent_step (step : Step.t) : Prop :=
  Step.completed step = derived_completed step.

(** Every step the screen's [packoutSteps] reaches carries the derived flag. *)
Definition consistent (s : Screen) : Prop :=
  ∀ step, Some step ∈ steps_of s → consistent_step step.

(** The two operations that change a source of the flag. *)
Inductive Mutation : Type :=
| ToggleItem (stepIndex itemId : Z)
| RecordPhoto (uri : string).

Definition mutate (m : Mutation) (s : Screen) (now : Z) : Async Screen :=
  match m with
  | ToggleItem stepIndex itemId => handleChecklistItemToggle order s stepIndex itemId now
  | RecordPhoto uri => handleCameraCapture order s uri now
  end.

(** The slot of the step a mutation touches, whether it finds what it is to
    change in that step, and what it does to the sources of the flag:
    toggling negates the item with the given id and leaves the photo
    fields; recording a photo sets [photoTaken] and [photoUri] and leaves
    the checklist. Neither changes [photoRequired]. *)
Definition touched_slot (m : Mutation) (s : Screen) : Z :=
  match m with
  | ToggleItem stepIndex _ => stepIndex
  | RecordPhoto _ => currentStepIndex s
  end.

Definition finds (m : Mutation) (step : Step.t) : Prop :=
  match m with
  | ToggleItem _ itemId =>
      ∃ item, item ∈ Step.checklistItems step ∧ Item.id item = itemId
  | RecordPhoto _ => True
  end.

(** [items'] is [items] with the first item of id [itemId] negated. *)
Definition negated_at (itemId : Z) (items items' : list Item.t) : Prop :=
  ∃ before item after,
    items = (before ++ item :: after)%list
    ∧ (∀ earlier, earlier ∈ before → Item.id earlier ≠ itemId)
    ∧ Item.id item = itemId
    ∧ items' = (before
                ++ Item.mk (Item.id item) (Item.text item) (negb (Item.completed item))
                   :: after)%list.

Definition sources_after (m : Mutation) (step step' : Step.t) : Prop :=
  Step.photoRequired step' = Step.photoRequired step
  ∧ match m with
    | ToggleItem _ itemId =>
        negated_at itemId (Step.checklistItems step) (Step.checklistItems step')
        ∧ Step.photoTaken step' = Step.photoTaken step
        ∧ Step.photoUri step' = Step.photoUri step
    | RecordPhoto uri =>
        Step.checklistItems step' = Step.checklistItems step
        ∧ Step.photoTaken step' = true
        ∧ Step.photoUri step' = Some uri
    end.

(** [s'] has the step objects of [s], except possibly the one the slot [i]
    refers to, and the same [packoutSteps] and [currentStepIndex]. *)
Definition steps_changed_at (i : Z) (s s' : Screen) : Prop :=
  packoutSteps s' = packoutSteps s
  ∧ currentStepIndex s' = currentStepIndex s
  ∧ length (objects s') = length (objects s)
  ∧ ∀ r, at_index (packoutSteps s) i ≠ Some r → objects s' !! r = objects s !! r.

(** The [photoTaken] flag of the step in slot [i]. *)
Definition photoTaken_at (s : Screen) (i : Z) : option bool :=
  (λ found, Step.photoTaken found.2) <$> step_at s (packoutSteps s) i.

(** A timestamp after a trip through JSON: the text of the date. *)
Definition parsed_timestamp (t : Timestamp) : Timestamp :=
  match t with
  | DateObject ms => TimeString (toISOString ms)
  | TimeString s => TimeString s
  end.

Definition parsed_photo (photo : Photo.t) : Photo.t :=
  Photo.mk (Photo.uri photo) (Photo.type photo) (Photo.notes photo)
    (parsed_timestamp (Photo.timestamp photo)).

(** Every slot of [packoutSteps] refers to an object. *)
Definition well_formed (s : Screen) : Prop :=
  ∀ r, r ∈ packoutSteps s → is_Some (objects s !! r).

Inductive Event : Type :=
| Toggle (stepIndex itemId : Z)
| TakePhoto (photoType : PhotoType)
| Capture (uri : string)
| Next
| Previous
| Submit (server : reply json).

Definition dispatch (e : Event) (s : Screen) (now : Z) : Async Screen :=
  match e with
  | Toggle stepIndex itemId => handleChecklistItemToggle order s stepIndex itemId now
  | TakePhoto photoType => ret (handleTakePhoto photoType s)
  | Capture uri => handleCameraCapture order s uri now
  | Next => handleNextStep order s now
  | Previous => handlePreviousStep order s now
  | Submit server => handleSubmitPackout order s server now
  end.

(** The handler calls that follow the mount of the screen, from the state
    [s] the screen is in: they are taken one after the other, one clock
    tick apart; each handler runs on the state the previous one left. *)
Fixpoint play (events : list Event) (now : Z) (s : Screen) (d : Device) : Screen * Device :=
  match events with
  | [] => (s, d)
  | e :: rest =>
      let r := dispatch e s now d in
      play rest (now + 1) (after s r) r.2
  end.

(** The mount effect ([useEffect] with no dependencies): the screen starts
    in the state of its first render and runs [loadPackoutProgress]. The
    state is [None] when the stored entry put a value of another type into
    a state variable. *)
Definition mount (d : Device) : option Screen * Device :=
  let r := loadPackoutProgress order initialScreen d in
  (match r.1 with
   | Fulfilled loaded => loaded
   | Rejected _ => Some initialScreen
   end, r.2).

(** A session of the screen on the device [d]: the mount, then handler
    calls, the first of them after the load of the mount has settled.
    Leaving the screen and opening it again starts another session, on the
    device the earlier one left. *)
Definition session (events : list Event) (now : Z) (d : Device) : option (Screen * Device) :=
  (λ s, play events now s (mount d).2) <$> (mount d).1.

(** Two states with the same steps in the same slots and the same step on
    display. *)
Definition same_view (x y : Screen) : Prop :=
  steps_of x = steps_of y ∧ currentStepIndex x = currentStepIndex y.

(** [currentStepIndex] is the index of a slot and every slot refers to a
    step object. *)
Definition has_current_step (s : Screen) : Prop :=
  well_formed s ∧ 0 ≤ currentStepIndex s < Z.of_nat (length (packoutSteps s)).

(** The progress entry of the order, when the device holds one, is what
    [savePackoutProgress] writes from a state that satisfies [P]. Every
    entry the screen writes is of that form for the properties its states
    have; a device that never ran the screen for the order holds none. *)
Definition entry_from (P : Screen → Prop) (d : Device) : Prop :=
  ∀ t, items d !! packout_key order = Some t →
       ∃ s now, t = Stringified (progressToJSON s now) ∧ P s.

(** What a handler leaves of the progress entry: the entry as it was, no
    entry, or the entry of a state with the view of the state before or
    after the call. *)
Definition entry_written (s s' : Screen) (d d' : Device) : Prop :=
  items d' !! packout_key order = items d !! packout_key order
  ∨ items d' !! packout_key order = None
  ∨ ∃ x now, (same_view x s ∨ same_view x s')
             ∧ items d' !! packout_key order = Some (Stringified (progressToJSON x now)).

(** The flags are the derived ones in a state whose slots all refer to
    steps. *)
Definition flags_derived (s : Screen) : Prop := well_formed s ∧ consistent s.

End PackoutNotions.

(** The request did not get a 2xx response. *)
Definition delivery_failed {A} (server : reply A) : Prop :=
  match server with
  | Response status _ => (200 <=? status) && (status <? 300) = false
  | NoResponse => True
  end.

(** ** The offline queue *)

(** The queue: the keys of AsyncStorage that start with [offline_]. *)
Definition queue (d : Device) : gset string :=
  filter (λ k, Is_true (is_offline_key k)) (dom (items d)).

(** [m'] has every [offline_] key that [m] has. *)
Definition keeps_envelopes (m m' : gmap string text) : Prop :=
  ∀ k, is_offline_key k = true → is_Some (m !! k) → is_Some (m' !! k).

(** A computation that removes no [offline_] key, whatever device it starts
    from and whether it fulfils or rejects. *)
Definition removes_no_envelope {A} (c : Async A) : Prop :=
  ∀ d, keeps_envelopes (items d) (items (c d).2).

Definition sync_line (key : string) : string := "Syncing offline data for key: " +:+ key.

(** The console lines of one run: one per [offline_] key that holds text,
    in the order [getAllKeys] lists the keys. *)
Definition sync_lines (m : gmap string text) : list string :=
  sync_line <$> filter (λ key, Is_true (double_bang (m !! key)))
                  (filter (λ key, Is_true (is_offline_key key)) (all_keys m)).

Definition printed_all (lines : list string) (d : Device) : Device :=
  mkDevice (items d) (failing d) (console d ++ lines).

(** ** Every operation that reaches AsyncStorage *)

(** The functions of [api.ts], the handlers of [App] and the handlers of
    the two screens that call AsyncStorage or the server, with their
    arguments. A handler is called on the state of the render it belongs
    to; the mount effect of the packout screen is [LoadPackoutProgress] on
    the state of the first render. The handlers left out set state
    variables only ([handleTakePhoto], [handleOrderSelect], [handleRescan],
    [handleAuthStateChange]). *)
Inductive Call : Type :=
| StoreTokens (tokenData : TokenData) (username : option string)
| GetToken
| ClearTokens
| IsAuthenticated
| StoreOfflineData (key : string) (data : json)
| GetOfflineData (key : string)
| ClearOfflineData (key : option string)
| SyncOfflineData
| Login (credentials : LoginCredentials) (server : reply json)
| Logout
| GetCurrentUser (server : reply json)
| GetOrders (server : reply json)
| GetTasks (server : reply json)
| GetRoutingGuides (server : reply json)
| UpdateOrderStatus (orderId : Z) (status : string) (server : reply json)
| CreateTask (taskData : list (string * json)) (server : reply json)
| UpdateTask (taskId : Z) (updateData : list (string * json)) (server : reply json)
| CompleteTask (taskData : PackoutTaskData) (server : reply json)
| CheckConnectivity (health : reply json)
| SyncPendingData (health : reply json)
| GetOrderByBarcode (server : reply json)
| GetOrder (server : reply json)
| UploadPhoto (server : reply json)
| GetPhotos (server : reply json)
| UpdatePhoto (server : reply json)
| GetRoutingGuide (server : reply json)
| GetWorkerStats (server : reply json)
| GetWorkerTasks (server : reply json)
| InitializeApp (app : App.t) (me health health' : reply json)
| HandleLogout (app : App.t)
| BarCodeRead (s : Scanner) (data : string) (server : reply json)
| FetchOrderData (s : Scanner) (barcode : string) (server : reply json)
| LoadPackoutProgress (order : ScannedOrder.t) (s : Screen)
| SavePackoutProgress (order : ScannedOrder.t) (s : Screen)
| ChecklistItemToggle (order : ScannedOrder.t) (s : Screen) (stepIndex itemId : Z)
| CameraCapture (order : ScannedOrder.t) (s : Screen) (uri : string)
| NextStep (order : ScannedOrder.t) (s : Screen)
| PreviousStep (order : ScannedOrder.t) (s : Screen)
| SubmitPackout (order : ScannedOrder.t) (s : Screen) (server : reply json).

(** The calls that remove the envelope under key [k] when it is queued:
    [logout], also when [handleLogout] of [App] calls it,
    [clearOfflineData()] with no key or an empty one, and
    [clearOfflineData(key)] for the key of [k]. *)
Definition clears_envelope (c : Call) (k : string) : Prop :=
  match c with
  | Logout | HandleLogout _ => True
  | ClearOfflineData None => True
  | ClearOfflineData (Some key) => key = "" ∨ k = offlineKey key
  | _ => False
  end.

Section Calls.
Context `{Platform}.

(** The device after a call made at time [now]. *)
Definition perform (c : Call) (now : Z) (d : Device) : Device :=
  match c with
  | StoreTokens tokenData username => (storeTokens tokenData username d).2
  | GetToken => (getToken d).2
  | ClearTokens => (clearTokens d).2
  | IsAuthenticated => (isAuthenticated d).2
  | StoreOfflineData key data => (storeOfflineData key data now d).2
  | GetOfflineData key => (getOfflineData key d).2
  | ClearOfflineData key => (clearOfflineData key d).2
  | SyncOfflineData => (syncOfflineData d).2
  | Login credentials server => (login credentials server d).2
  | Logout => (logout d).2
  | GetCurrentUser server => (getCurrentUser server d).2
  | GetOrders server => (getOrders server now d).2
  | GetTasks server => (getTasks server now d).2
  | GetRoutingGuides server => (getRoutingGuides server now d).2
  | UpdateOrderStatus orderId status server =>
      (updateOrderStatus orderId status server now d).2
  | CreateTask taskData server => (createTask taskData server now d).2
  | UpdateTask taskId updateData server => (updateTask taskId updateData server now d).2
  | CompleteTask taskData server => (completeTask taskData server now d).2
  | CheckConnectivity health => (checkConnectivity health d).2
  | SyncPendingData health => (syncPendingData health d).2
  | GetOrderByBarcode server => (getOrderByBarcode server d).2
  | GetOrder server => (getOrder server d).2
  | UploadPhoto server => (uploadPhoto server d).2
  | GetPhotos server => (getPhotos server d).2
  | UpdatePhoto server => (updatePhoto server d).2
  | GetRoutingGuide server => (getRoutingGuide server d).2
  | GetWorkerStats server => (getWorkerStats server d).2
  | GetWorkerTasks server => (getWorkerTasks server d).2
  | InitializeApp app me health health' => (initializeApp app me health health' d).2
  | HandleLogout app => (handleLogout app d).2
  | BarCodeRead s data server => (handleBarCodeRead s data server d).2
  | FetchOrderData s barcode server => (fetchOrderData s barcode server d).2
  | LoadPackoutProgress order s => (loadPackoutProgress order s d).2
  | SavePackoutProgress order s => (savePackoutProgress order s now d).2
  | ChecklistItemToggle order s stepIndex itemId =>
      (handleChecklistItemToggle order s stepIndex itemId now d).2
  | CameraCapture order s uri => (handleCameraCapture order s uri now d).2
  | NextStep order s => (handleNextStep order s now d).2
  | PreviousStep order s => (handlePreviousStep order s now d).2
  | SubmitPackout order s server => (handleSubmitPackout order s server now d).2
  end.

(** A sequence of calls, each with the time it is made at. *)
Fixpoint run (calls : list (Call * Z)) (d : Device) : Device :=
  match calls with
  | [] => d
  | (c, now) :: rest => run rest (perform c now d)
  end.

End Calls.

(** ** The session store and the device *)

(** The four keys [storeTokens] writes and [clearTokens] removes. *)
Definition session_keys : list string :=
  ["access_token"; "token_type"; "username"; "token_expires_in"].

(** A computation that leaves every [offline_] item as it is: it adds
    none, removes none and rewrites none. *)
Definition leaves_queue_alone {A} (c : Async A) : Prop :=
  ∀ d k, is_offline_key k = true → items (c d).2 !! k = items d !! k.

(** The request got a 2xx response. *)
Definition accepted {A} (server : reply A) : bool :=
  match server with
  | Response status _ => (200 <=? status) && (status <? 300)
  | NoResponse => false
  end.

(** The calls that write to the offline queue or clear it: the functions
    of [offlineStorage] that store and clear, [logout] and the handler of
    [App] that calls it, the cached reads and the writes that are stored
    when they fail. *)
Definition writes_queue (c : Call) : bool :=
  match c with
  | StoreOfflineData _ _ | ClearOfflineData _ | Logout | HandleLogout _
  | GetOrders _ | GetTasks _ | GetRoutingGuides _
  | UpdateOrderStatus _ _ _ | CreateTask _ _ | UpdateTask _ _ _ | CompleteTask _ _ => true
  | _ => false
  end.

(** The calls that store under the key [k], replacing what is queued
    there: [storeOfflineData] with that key, a cached read that the server
    answers, for its cache key, and a write that fails, for the key it
    builds from its argument or from the time of the call. *)
Definition rewrites_envelope (c : Call) (now : Z) (k : string) : Prop :=
  match c with
  | StoreOfflineData key _ => k = offlineKey key
  | GetOrders server => accepted server = true ∧ k = offlineKey "orders"
  | GetTasks server => accepted server = true ∧ k = offlineKey "packout_tasks"
  | GetRoutingGuides server => accepted server = true ∧ k = offlineKey "routing_guides"
  | UpdateOrderStatus orderId _ server =>
      accepted server = false ∧ k = offlineKey ("order_status_update_" +:+ pretty orderId)
  | CreateTask _ server =>
      accepted server = false ∧ k = offlineKey ("create_task_" +:+ pretty now)
  | UpdateTask taskId _ server =>
      accepted server = false ∧ k = offlineKey ("update_task_" +:+ pretty taskId)
  | CompleteTask taskData server =>
      accepted server = false ∧ k = offlineKey (complete_task_key (order_id taskData) now)
  | _ => False
  end.

(** A computation that leaves every [offline_] item other than the one
    under [key] as it is. *)
Definition leaves_others_alone {A} (key : string) (c : Async A) : Prop :=
  ∀ d k, is_offline_key k = true → k ≠ offlineKey key →
         items (c d).2 !! k = items d !! k.

(** [c] is one of the characters of [s]. *)
Fixpoint occurs (c : Ascii.ascii) (s : string) : bool :=
  match s with
  | EmptyString => false
  | String c' s' => Ascii.eqb c' c || occurs c s'
  end.

(** The character ["_"] that separates the parts of a key. *)
Definition underscore : Ascii.ascii :=
  Ascii.Ascii true true true true true false true false.

(** ** The packout screen as the worker operates it

    What the rendered screen lets the worker do. A checklist row toggles
    its item in the step on display ([handleChecklistItemToggle] is given
    [currentStepIndex]). The completion modal covers the screen while it is
    visible: its two buttons, Review and Submit, are the only controls then,
    and they are controls of the modal only. *)
Inductive Press : Type :=
| PressItem (itemId : Z)
| PressPhoto (photoType : PhotoType)
| TypeNotes (notes : string)
| Shutter (uri : string)
| CloseCamera
| PressNext
| PressPrevious
| PressReview
| PressSubmit (server : reply json).

Section Presses.
Context `{Platform}.
Variable order : ScannedOrder.t.

Definition press (p : Press) (s : Screen) (now : Z) : Async Screen :=
  if showCompletionModal s then
    match p with
    | PressReview => ret (setShowCompletionModal false s)
    | PressSubmit server => handleSubmitPackout order s server now
    | _ => ret s
    end
  else
    match p with
    | PressItem itemId => handleChecklistItemToggle order s (currentStepIndex s) itemId now
    | PressPhoto photoType => ret (handleTakePhoto photoType s)
    | TypeNotes notes => ret (setPhotoNotes notes s)
    | Shutter uri => handleCameraCapture order s uri now
    | CloseCamera => ret (setShowCamera false s)
    | PressNext => handleNextStep order s now
    | PressPrevious => handlePreviousStep order s now
    | PressReview | PressSubmit _ => ret s
    end.

(** The presses that follow the mount of the screen, from the state [s]
    the screen is in. *)
Fixpoint operate (presses : list Press) (now : Z) (s : Screen) (d : Device)
  : Screen * Device :=
  match presses with
  | [] => (s, d)
  | p :: rest =>
      let r := press p s now d in
      operate rest (now + 1) (after s r) r.2
  end.

(** A session at the screen: the mount, then what the worker presses. *)
Definition worked (presses : list Press) (now : Z) (d : Device) : option (Screen * Device) :=
  (λ s, operate presses now s (mount order d).2) <$> (mount order d).1.

End Presses.

(** Every step before the one on display is completed. *)
Definition passed_steps_completed (s : Screen) : Prop :=
  ∀ i step, Z.of_nat i < currentStepIndex s → steps_of s !! i = Some (Some step) →
            Step.completed step = true.

Definition all_steps_completed (s : Screen) : Prop :=
  ∀ step, Some step ∈ steps_of s → Step.completed step = true.

(** What the entries hold that the screen writes while the worker operates
    it: a step on display, completed steps before it, derived flags. *)
Definition resumable (s : Screen) : Prop :=
  has_current_step s ∧ passed_steps_completed s ∧ consistent s.

(** What holds of every state of a session at the screen: the slots refer
    to different objects, the state could be resumed, and the completion
    modal is visible only over completed steps. *)
Definition session_invariant (s : Screen) : Prop :=
  NoDup (packoutSteps s)
  ∧ resumable s
  ∧ (showCompletionModal s = true → all_steps_completed s).

(** ** What the scanner holds after a scan

    The body of the 2xx response, or the placeholder when the token could
    not be read or the request was not accepted. *)
Definition resolved_order (barcode : string) (server : reply json) (d : Device) : json :=
  match server with
  | Response status body =>
      if negb (failing d) && accepted server then body
      else orderToJSON (mockOrder barcode)
  | NoResponse => orderToJSON (mockOrder barcode)
  end.

(** ** The scanner as the worker operates it *)
Inductive ScannerEvent : Type :=
| Scan (data : string) (server : reply json)
| SelectOrder
| Rescan.

Definition scanner_step (e : ScannerEvent) (s : Scanner) : Async Scanner :=
  match e with
  | Scan data server => await r := handleBarCodeRead s data server in ret r.1
  | SelectOrder => ret (handleOrderSelect s).1
  | Rescan => ret (handleRescan s)
  end.

(** The scanner waits for a code in its initial state, or it is not
    scanning and holds the code it read last; the order modal is then
    closed only over a truthy [orderData]. *)
Definition scanner_invariant (s : Scanner) : Prop :=
  loading s = false
  ∧ (s = initialScanner
     ∨ (scanning s = false ∧ is_Some (scannedData s)
        ∧ (showOrderModal s = true ∨ truthy (orderData s) = true))).

Fixpoint scanner_run (events : list ScannerEvent) (s : Scanner) (d : Device)
  : Scanner * Device :=
  match events with
  | [] => (s, d)
  | e :: rest =>
      let r := scanner_step e s d in
      scanner_run rest (after s r) r.2
  end.


(** ** The claims as they are written

    The readings below are the statements that turn out not to hold of the
    code; each is refuted at a concrete input in Part 8. *)

Section ClaimsAsWritten.
Context `{Platform}.

(** The reading of C9 as it is written: authenticated exactly when
    [getToken] returns a credential. *)
Definition authenticated_iff_token_stored (d : Device) : Prop :=
  (isAuthenticated d).1 = Fulfilled true ↔ ∃ t, (getToken d).1 = Fulfilled (Some t).

(** The drain C4 describes, for a submit function and the envelopes in the
    order they were enqueued: what stays queued, and the counts of
    successes and failures. *)
Fixpoint drain_as_claimed {E} (submit : E → bool) (envelopes : list E)
  : list E * (nat * nat) :=
  match envelopes with
  | [] => ([], (0%nat, 0%nat))
  | e :: rest =>
      if submit e then
        let '(remaining, (successes, failures)) := drain_as_claimed submit rest in
        (remaining, (S successes, failures))
      else (envelopes, (0%nat, 1%nat))
  end.

Definition enqueue_all (enqueued : list (string * json)) (now : Z) (d : Device) : Device :=
  foldl (λ d e, (storeOfflineData e.1 e.2 now d).2) d enqueued.

(** C4 as it is written, on the queue: after [syncOfflineData] the queue
    holds what the described drain leaves. *)
Definition sync_is_the_claimed_drain
    (submit : string * json → bool) (enqueued : list (string * json))
    (now : Z) (d : Device) : Prop :=
  ∀ key, key ∈ queue (syncOfflineData (enqueue_all enqueued now d)).2
         ↔ key ∈ ((λ e, offlineKey e.1) <$> (drain_as_claimed submit enqueued).1).

(** C5 as it is written. No function of the program sends a queued envelope
    to the server ([syncOfflineData], the only one that visits them, reads
    and logs), so no envelope is ever replayed with success and the claim
    reads: whatever is called, a queued envelope stays queued. *)
Definition queued_envelope_is_never_removed : Prop :=
  ∀ (calls : list (Call * Z)) (d : Device), queue d ⊆ queue (run calls d).

(** The first clause of C7 as it is written: a capture in a category other
    than the per-step one (the required-photo button asks for ['package'];
    ['damage'] and ['compliance'] are the additional, optional photos)
    leaves [photoTaken] of the current step as it was. *)
Definition only_required_photo_marks_step
    (order : ScannedOrder.t) (s : Screen) (uri : string) (now : Z) (d : Device) : Prop :=
  cameraType s ≠ package →
  photoTaken_at (after s (handleCameraCapture order s uri now d)) (currentStepIndex s)
  = photoTaken_at s (currentStepIndex s).

(** The lookup failed: the store could not be read or the request did not
    get a 2xx response. *)
Definition resolution_failed (server : reply json) (d : Device) : Prop :=
  failing d = true ∨ delivery_failed server.

(** C8 as it is written: the caller can tell from the result whether it is
    the placeholder of a failed lookup. *)
Definition degraded_result_is_marked : Prop :=
  ∃ marker : Scanner → bool,
    ∀ (s : Scanner) (barcode : string) (server : reply json) (d : Device),
      marker (after s (fetchOrderData s barcode server d)) = true
      ↔ resolution_failed server d.

End ClaimsAsWritten.

(** ** Concrete inputs *)

(** A platform for the closed examples: an instant is printed as its
    millisecond count and text that is not stringified JSON does not parse.
    No statement below depends on either choice. *)
Definition example_platform : Platform :=
  {| toISOString := λ ms, "T" +:+ pretty ms; JSON_parse_raw := λ _, None |}.

Section ConcreteInputs.
#[local] Existing Instance example_platform.

Definition order42 : ScannedOrder.t :=
  ScannedOrder.mk 42 "ORD-000042"
    (ScannedOrder.mkCustomer "Ada" "ada@example.com")
    [ScannedOrder.mkLine "SKU-001" "Product A" 2] "pending" "normal".

(** A device with a stored token and nothing else. *)
Definition signed_in : Device := healthy {["access_token" := Raw "token"]}.

(** The worker checks the three items of step [i], takes the required
    photo, and goes on. *)
Definition complete_step (i : Z) : list Event :=
  [Toggle i 1; Toggle i 2; Toggle i 3; TakePhoto package;
   Capture "file:///photo.jpg"; Next].

(** All five steps done, completion modal open. *)
Definition packed : Screen * Device :=
  play order42
    (complete_step 0 ++ complete_step 1 ++ complete_step 2 ++ complete_step 3
     ++ complete_step 4)%list
    1000 initialScreen signed_in.

(** The device after a submission of order 42 failed in [completeTask]. *)
Definition with_unsent_task : Device :=
  perform (CompleteTask (mkTaskData 42 [] [] "T9000" (Some "")) NoResponse) 9000 signed_in.

(** One required photo taken on the first step. *)
Definition one_photo : Screen * Device :=
  play order42 [TakePhoto package; Capture "file:///photo.jpg"] 1000 initialScreen signed_in.

(** The device after the screen in that state saved its progress, and the
    state of a new mount of the screen after it loaded it. *)
Definition one_photo_saved : Device :=
  (savePackoutProgress order42 one_photo.1 5000 one_photo.2).2.

Definition one_photo_resumed : option Screen :=
  match (loadPackoutProgress order42 initialScreen one_photo_saved).1 with
  | Fulfilled loaded => loaded
  | Rejected _ => None
  end.

Definition scanned (barcode : string) : Scanner :=
  mkScanner false (Some barcode) true JNull false.

(** The token data of a successful login. *)
Definition ada_token : TokenData := mkTokenData "token" "bearer" 3600.

(** The first step done: its three items checked and its photo taken. *)
Definition first_step_done : Screen * Device :=
  play order42
    [Toggle 0 1; Toggle 0 2; Toggle 0 3; TakePhoto package; Capture "file:///photo.jpg"]
    1000 initialScreen signed_in.

(** What the worker presses to complete the step on display and go on,
    and the presses of a whole session: five steps. *)
Definition complete_current_step : list Press :=
  [PressItem 1; PressItem 2; PressItem 3; PressPhoto package;
   Shutter "file:///photo.jpg"; PressNext].

Definition whole_session : list Press :=
  (complete_current_step ++ complete_current_step ++ complete_current_step
   ++ complete_current_step ++ complete_current_step)%list.

(** The first step with two of its three items checked and its photo
    taken: the step is not completed. *)
Definition one_item_left : Screen * Device :=
  play order42
    [Toggle 0 1; Toggle 0 2; TakePhoto package; Capture "file:///photo.jpg"]
    1000 initialScreen signed_in.

(** A first visit to the screen, on a device that holds no progress entry:
    the worker completes the first step, goes on and checks the first item
    of the second step. [after_first_visit] is the device the visit
    leaves. *)
Definition first_visit : list Press := (complete_current_step ++ [PressItem 1])%list.

Definition after_first_visit : Device :=
  (operate order42 first_visit 1000 initialScreen signed_in).2.

(** A second visit: the worker finishes the second step and completes the
    other three. *)
Definition second_visit : list Press :=
  ([PressItem 2; PressItem 3; PressPhoto package; Shutter "file:///photo.jpg"; PressNext]
   ++ complete_current_step ++ complete_current_step ++ complete_current_step)%list.

(** A 2xx body of the login request that carries no [expires_in]. *)
Definition token_without_expiry : json :=
  JObj [("access_token", JStr "token"); ("token_type", JStr "bearer")].


End ConcreteInputs.

(* ===================================================================== *)
(** * Part 7. Lemmas and theorems                                         *)
(* ===================================================================== *)

(** ** The store and the monad *)

Lemma with_items_same d : with_items (items d) d = d.
Proof. by destruct d. Qed.

Lemma getItem_ok k d :
  failing d = false → getItem k d = (Fulfilled (items d !! k), d).
Proof.
  intros Hd. unfold getItem, storage_call. rewrite Hd. by rewrite with_items_same.
Qed.

Lemma getItem_failing k d :
  failing d = true → getItem k d = (Rejected StorageError, d).
Proof. intros Hd. unfold getItem, storage_call. by rewrite Hd. Qed.

Lemma text_truthy_spec t : text_truthy t = true ↔ t ≠ Raw "".
Proof.
  destruct t as [s|j]; simpl; [|split; [discriminate | done]].
  unfold string_truthy. rewrite negb_true_iff, String.eqb_neq.
  split; [intros Hs [= ->]; done | intros Hs ->; done].
Qed.

(** ** Session store: [isAuthenticated] *)

(** C9, counterexample: with the empty string stored under
    [access_token], [getToken] returns it (a credential that is not [null])
    while [isAuthenticated] answers [false], because [!!""] is [false]. *)
Lemma empty_token_is_stored_but_not_authenticated :
  ¬ authenticated_iff_token_stored (healthy {["access_token" := Raw ""]}).
Proof.
  unfold authenticated_iff_token_stored. intros [_ Hback].
  assert ((isAuthenticated (healthy {["access_token" := Raw ""]})).1 = Fulfilled true) as Hyes.
  { apply Hback. exists (Raw ""). reflexivity. }
  vm_compute in Hyes. discriminate.
Qed.

(** C9, amended: [isAuthenticated] never rejects and never changes the
    device; it answers [true] exactly when the store can be read and holds a
    non-empty [access_token]. A store that fails to read gives [false]. *)
Theorem isAuthenticated_iff_nonempty_token (d : Device) :
  ∃ b, isAuthenticated d = (Fulfilled b, d)
       ∧ (b = true ↔ failing d = false
                      ∧ ∃ t, items d !! "access_token" = Some t ∧ t ≠ Raw "").
Proof.
  unfold isAuthenticated, try_catch, bind.
  destruct (failing d) eqn:Hd.
  - rewrite getItem_failing by done. exists false. split; [done|].
    split; [discriminate | intros [? _]; discriminate].
  - rewrite getItem_ok by done. eexists. split; [reflexivity|].
    unfold double_bang. destruct (items d !! "access_token") as [t|]; simpl.
    + rewrite text_truthy_spec. split.
      * intros Ht. split; [done|]. by exists t.
      * by intros [_ (t' & [= <-] & Ht)].
    + split; [discriminate | intros [_ (t & ? & _)]; discriminate].
Qed.

(** ** The packout screen *)

Section PackoutProperties.
Context `{Platform}.
Variable order : ScannedOrder.t.

Lemma savePackoutProgress_run s now d :
  savePackoutProgress order s now d = (Fulfilled tt, saved order s now d).
Proof.
  unfold savePackoutProgress, try_catch, setItem, storage_call, saved.
  by destruct (failing d) eqn:Hd.
Qed.

Lemma find_item_none itemId (items : list Item.t) :
  (∀ item, item ∈ items → Item.id item ≠ itemId) →
  find (λ item, Item.id item =? itemId) items = None.
Proof.
  induction items as [|item items IH]; intros Hno; [done|]. simpl.
  destruct (Z.eqb_spec (Item.id item) itemId) as [Heq|_].
  - exfalso. apply (Hno item); [left | done].
  - apply IH. intros i Hi. apply Hno. by right.
Qed.

(** C10: toggling an item id that does not occur in the step's checklist
    returns the state of the render as it is and leaves the device as it is:
    no object is mutated, no state variable is set, nothing is written to
    AsyncStorage or to the console. *)
Theorem toggle_of_unknown_item_changes_nothing
    (s : Screen) (stepIndex itemId now : Z) (d : Device) (r : ref) (step : Step.t) :
  step_at s (packoutSteps s) stepIndex = Some (r, step) →
  (∀ item, item ∈ Step.checklistItems step → Item.id item ≠ itemId) →
  handleChecklistItemToggle order s stepIndex itemId now d = (Fulfilled s, d).
Proof.
  intros Hstep Hno. unfold handleChecklistItemToggle.
  rewrite Hstep. by rewrite find_item_none.
Qed.

(** ** [advance]: handleNextStep *)


(** ** The derived flag [completed] *)

Lemma toggled_step_is_consistent itemId step :
  let items := toggle_found itemId (Step.checklistItems step) in
  consistent_step
    (assign_checklist items
       (forallb Item.completed items
        && (negb (Step.photoRequired step) || Step.photoTaken step)) step).
Proof.
  unfold consistent_step, derived_completed. simpl.
  by destruct (Step.photoRequired step), (Step.photoTaken step).
Qed.

Lemma photographed_step_is_consistent uri step :
  consistent_step (assign_photo uri step).
Proof.
  unfold consistent_step, derived_completed. simpl.
  by destruct (Step.photoRequired step).
Qed.

(** Mutating one object in place keeps the invariant when the new value of
    that object satisfies it: every slot reaches either the mutated object
    or an object that did not change. *)
Lemma consistent_after_mutation s r step :
  consistent s → consistent_step step →
  consistent (with_objects (<[r := step]> (objects s)) s).
Proof.
  intros Hs Hstep step' Hin. unfold steps_of in Hin. simpl in Hin.
  apply list_elem_of_fmap in Hin as (r' & Hlook & Hr').
  symmetry in Hlook. destruct (decide (r = r')) as [<-|Hne].
  - apply list_lookup_insert_Some in Hlook as [(_ & <- & _)|(? & _)]; done.
  - rewrite list_lookup_insert_ne in Hlook by done.
    apply Hs. unfold steps_of. apply list_elem_of_fmap. by exists r'.
Qed.

Lemma consistent_steps_only s s' :
  objects s' = objects s → packoutSteps s' = packoutSteps s →
  consistent s → consistent s'.
Proof. unfold consistent, steps_of. by intros -> ->. Qed.

Lemma toggle_keeps_consistent (s : Screen) (stepIndex itemId now : Z) (d : Device) :
  consistent s →
  consistent (after s (handleChecklistItemToggle order s stepIndex itemId now d)).
Proof.
  intros Hs. unfold after, handleChecklistItemToggle.
  destruct (step_at s (packoutSteps s) stepIndex) as [[r step]|]; [|done].
  destruct (find _ _); [|done].
  unfold bind. rewrite savePackoutProgress_run. simpl.
  eapply consistent_steps_only;
    [| | apply consistent_after_mutation;
         [exact Hs | apply toggled_step_is_consistent]]; reflexivity.
Qed.

Lemma capture_keeps_consistent (s : Screen) (uri : string) (now : Z) (d : Device) :
  consistent s → consistent (after s (handleCameraCapture order s uri now d)).
Proof.
  intros Hs. unfold after, handleCameraCapture, try_catch.
  destruct (step_at s (packoutSteps s) (currentStepIndex s)) as [[r step]|]; simpl.
  - unfold bind. rewrite savePackoutProgress_run. simpl.
    eapply consistent_steps_only;
      [| | apply consistent_after_mutation;
           [exact Hs | apply photographed_step_is_consistent]]; reflexivity.
  - eapply consistent_steps_only; [| | exact Hs]; reflexivity.
Qed.

(** The state of the first render satisfies the invariant. *)
Lemma initialScreen_consistent : consistent initialScreen.
Proof.
  intros step Hin. unfold steps_of in Hin.
  apply list_elem_of_fmap in Hin as (r & Hlook & _).
  do 5 (destruct r as [|r]; [by injection Hlook as ->|]). done.
Qed.

(** ** [recordPhoto]: handleCameraCapture *)

Lemma step_at_mutated s r step i :
  (r < length (objects s))%nat →
  at_index (packoutSteps s) i = Some r →
  step_at (with_objects (<[r := step]> (objects s)) s) (packoutSteps s) i = Some (r, step).
Proof.
  intros Hr Hi. unfold step_at. rewrite Hi. simpl.
  by rewrite list_lookup_insert_eq.
Qed.

Lemma step_at_inv s steps i r step :
  step_at s steps i = Some (r, step) →
  at_index steps i = Some r ∧ objects s !! r = Some step.
Proof.
  unfold step_at. destruct (at_index steps i) as [r'|]; simpl; [|done].
  destruct (objects s !! r') as [step'|] eqn:Hobj; simpl; [|done].
  by intros [= <- <-].
Qed.

(** C7, amended: with a current step, a capture returns normally and,
    whatever the camera type, the current step object then has
    [photoTaken = true], [photoUri] the captured uri and [completed]
    recomputed as "all checklist items completed" (its checklist is not
    touched); the photo, with the camera type and notes of the render, is
    appended to [compliancePhotos]; and when the store works the progress
    entry [packout_<order id>] is written with the steps as they are after
    the capture. *)
Theorem capture_marks_current_step_whatever_the_type
    (s : Screen) (uri : string) (now : Z) (d : Device) (r : ref) (step : Step.t) :
  step_at s (packoutSteps s) (currentStepIndex s) = Some (r, step) →
  ∃ s' d' step',
    handleCameraCapture order s uri now d = (Fulfilled s', d')
    ∧ step_at s' (packoutSteps s') (currentStepIndex s') = Some (r, step')
    ∧ Step.photoTaken step' = true
    ∧ Step.photoUri step' = Some uri
    ∧ Step.checklistItems step' = Step.checklistItems step
    ∧ Step.completed step' = forallb Item.completed (Step.checklistItems step')
    ∧ compliancePhotos s'
      = (compliancePhotos s
         ++ [Photo.mk uri (cameraType s) (photoNotes s) (DateObject now)])%list
    ∧ (failing d = false →
       ∃ progress,
         items d' !! packout_key order = Some (Stringified progress)
         ∧ get "steps" progress
           = Some (JArr ((λ o, from_option stepToJSON JNull o) <$> steps_of s'))).
Proof.
  intros Hstep. destruct (step_at_inv _ _ _ _ _ Hstep) as [Hi Hobj].
  unfold handleCameraCapture, try_catch, bind. rewrite Hstep.
  rewrite savePackoutProgress_run. simpl.
  eexists _, _, (assign_photo uri step). split; [reflexivity|].
  split.
  { apply (step_at_mutated s r (assign_photo uri step) (currentStepIndex s));
      [by eapply lookup_lt_Some | done]. }
  repeat split; simpl; [by rewrite andb_true_r|].
  intros Hd. unfold saved. rewrite Hd. simpl. rewrite lookup_insert_eq.
  by eexists.
Qed.

(** ** Persistence: save, then load *)

Lemma itemOfJSON_itemToJSON item : itemOfJSON (itemToJSON item) = Some item.
Proof. by destruct item. Qed.

Lemma stepOfJSON_stepToJSON step : stepOfJSON (stepToJSON step) = Some step.
Proof.
  destruct step as [id title description required completed photoRequired
                      photoTaken photoUri instructions checklistItems].
  unfold stepOfJSON, stepToJSON. cbn -[mapM].
  assert (mapM (λ x, as_str (Some x)) (JStr <$> instructions) = Some instructions)
    as Hinstr by (by apply mapM_fmap_Some).
  unfold as_str in Hinstr.
  assert (mapM itemOfJSON (itemToJSON <$> checklistItems) = Some checklistItems)
    as Hitems by (apply mapM_fmap_Some, itemOfJSON_itemToJSON).
  destruct photoUri; cbn -[mapM]; rewrite Hinstr; cbn -[mapM]; by rewrite Hitems.
Qed.

Lemma photoOfJSON_photoToJSON photo :
  photoOfJSON (photoToJSON photo) = Some (parsed_photo photo).
Proof. by destruct photo as [uri [] notes []]. Qed.

Lemma mapM_fmap_through {A B C} (f : B → option C) (g : A → B) (h : A → C) l :
  (∀ x, f (g x) = Some (h x)) → mapM f (g <$> l) = Some (h <$> l).
Proof.
  intros Hfg. apply mapM_Some_2. induction l; constructor; auto.
Qed.

Lemma steps_of_well_formed s :
  well_formed s → ∃ steps, steps_of s = Some <$> steps.
Proof.
  unfold well_formed, steps_of. induction (packoutSteps s) as [|r rs IH]; intros Hwf.
  - by exists [].
  - destruct (Hwf r) as [step Hstep]; [left|].
    destruct IH as [steps Hsteps]; [intros r' Hr'; apply Hwf; by right|].
    exists (step :: steps). by rewrite !fmap_cons, Hstep, Hsteps.
Qed.

Lemma steps_of_fresh (objs steps : list Step.t) s :
  steps_of (setPackoutSteps (seq (length objs) (length steps))
              (with_objects (objs ++ steps) s))
  = Some <$> steps.
Proof.
  unfold steps_of. simpl. apply list_eq. intros i.
  rewrite !list_lookup_fmap. destruct (decide (i < length steps)%nat) as [Hi|Hi].
  - rewrite lookup_seq_lt by done. simpl.
    rewrite lookup_app_r by lia. replace (length objs + i - length objs)%nat with i by lia.
    destruct (lookup_lt_is_Some_2 steps i Hi) as [step Hstep]. by rewrite Hstep.
  - rewrite lookup_seq_ge by lia. simpl. by rewrite lookup_ge_None_2 by lia.
Qed.

(** What a load finds after a save. [mounted] is the state of the render
    that loads (the first render of a new mount of the screen). The steps
    and the index come back as they were saved; each photo comes back with
    the text of its date in place of the date. *)
Lemma load_after_save (s mounted : Screen) (now : Z) (d : Device) :
  failing d = false → well_formed s →
  ∃ s' d',
    loadPackoutProgress order mounted (saved order s now d) = (Fulfilled (Some s'), d')
    ∧ steps_of s' = steps_of s
    ∧ currentStepIndex s' = currentStepIndex s
    ∧ compliancePhotos s' = parsed_photo <$> compliancePhotos s.
Proof.
  intros Hd Hwf. destruct (steps_of_well_formed s Hwf) as [steps Hsteps].
  unfold loadPackoutProgress, try_catch, bind, saved. rewrite Hd.
  rewrite getItem_ok by done. simpl. rewrite lookup_insert_eq. simpl.
  unfold loaded_steps, loaded_photos, loaded_index, progressToJSON. cbn -[mapM].
  rewrite Hsteps, <- list_fmap_compose. simpl.
  erewrite (mapM_fmap_Some stepOfJSON) by (intros; apply stepOfJSON_stepToJSON).
  erewrite mapM_fmap_through by apply photoOfJSON_photoToJSON.
  simpl. destruct (Z.eqb_spec (currentStepIndex s) 0) as [Hz|Hnz]; simpl;
    do 2 eexists; (split; [reflexivity|]); simpl;
    (split; [apply steps_of_fresh|]); split; done.
Qed.

(** ** Sequences of user actions *)

Lemma dispatch_keeps_consistent e s now d :
  consistent s → consistent (after s (dispatch order e s now d)).
Proof.
  intros Hs. destruct e as [stepIndex itemId|photoType|uri| | |server].
  - apply toggle_keeps_consistent, Hs.
  - eapply consistent_steps_only; [| | exact Hs]; reflexivity.
  - apply capture_keeps_consistent, Hs.
  - unfold after, dispatch, handleNextStep.
    destruct (step_at _ _ _) as [[r step]|]; [|done].
    destruct (negb _); [by eapply consistent_steps_only|].
    destruct (_ <? _); [|by eapply consistent_steps_only].
    unfold bind. rewrite savePackoutProgress_run. by eapply consistent_steps_only.
  - unfold after, dispatch, handlePreviousStep. destruct (_ <? _); [|done].
    unfold bind. rewrite savePackoutProgress_run. by eapply consistent_steps_only.
  - unfold after, dispatch, handleSubmitPackout, bind, try_catch.
    destruct (getItem _ d) as [[token|e] d1]; simpl;
      [|eapply consistent_steps_only; [| | exact Hs]; reflexivity].
    destruct (submissionData order s now); simpl;
      [|eapply consistent_steps_only; [| | exact Hs]; reflexivity].
    destruct (axios_request server d1) as [[j|e] d2]; simpl;
      [|eapply consistent_steps_only; [| | exact Hs]; reflexivity].
    destruct (removeItem _ d2) as [[[]|e] d3]; simpl;
      eapply consistent_steps_only; [| | exact Hs| | | exact Hs]; reflexivity.
Qed.

(** ** [submit]: handleSubmitPackout *)

Lemma axios_request_failed {A} (server : reply A) d :
  delivery_failed server → ∃ e, axios_request server d = (Rejected e, d).
Proof.
  destruct server as [status data|]; simpl; intros Hfail.
  - rewrite Hfail. by eexists.
  - by eexists.
Qed.

(** When the request fails, [handleSubmitPackout] shows the Submission
    Failed alert, closes the modal, and does nothing to AsyncStorage: the
    only trace on the device is the console line of the [catch]. *)
Lemma handleSubmitPackout_failure (s : Screen) (server : reply json) (now : Z) (d : Device) :
  delivery_failed server →
  handleSubmitPackout order s server now d
  = (Fulfilled (setShowCompletionModal false
                  (setSubmitting false
                     (Alert_alert SubmissionFailed.1 SubmissionFailed.2 s))),
     printed "Submission error:" d).
Proof.
  intros Hfail. unfold handleSubmitPackout, bind, try_catch.
  destruct (failing d) eqn:Hd.
  - by rewrite getItem_failing.
  - rewrite getItem_ok by done.
    destruct (submissionData order s now); [|done].
    by destruct (axios_request_failed server d Hfail) as [e ->].
Qed.

Lemma failed_submit_leaves_items (s : Screen) (now : Z) (d : Device) :
  items (handleSubmitPackout order s NoResponse now d).2 = items d
  ∧ last (alerts (after s (handleSubmitPackout order s NoResponse now d)))
    = Some SubmissionFailed.
Proof.
  rewrite handleSubmitPackout_failure by exact I. split; [done|].
  unfold after. simpl. by rewrite last_snoc.
Qed.

End PackoutProperties.

(** ** The offline queue *)

Lemma elem_of_queue d k :
  k ∈ queue d ↔ is_offline_key k = true ∧ is_Some (items d !! k).
Proof.
  unfold queue. rewrite elem_of_filter, elem_of_dom, Is_true_true. done.
Qed.

Lemma keeps_envelopes_refl m : keeps_envelopes m m.
Proof. by intros k _. Qed.

Lemma keeps_envelopes_trans m1 m2 m3 :
  keeps_envelopes m1 m2 → keeps_envelopes m2 m3 → keeps_envelopes m1 m3.
Proof. intros H12 H23 k Hk Hin. apply H23, H12; done. Qed.

Lemma remove_all_lookup ks (m : gmap string text) k :
  remove_all ks m !! k = if decide (k ∈ ks) then None else m !! k.
Proof.
  induction ks as [|k' ks IH].
  - by rewrite decide_False by apply not_elem_of_nil.
  - change (remove_all (k' :: ks) m) with (delete k' (remove_all ks m)).
    destruct (decide (k' = k)) as [->|Hne].
    + rewrite lookup_delete_eq. by rewrite decide_True by left.
    + rewrite lookup_delete_ne, IH by done.
      destruct (decide (k ∈ ks)) as [Hin|Hnin].
      * by rewrite decide_True by (by right).
      * rewrite decide_False; [done|]. rewrite elem_of_cons. intros [?|?]; congruence.
Qed.

Lemma set_all_keeps kvs (m : gmap string text) k :
  is_Some (m !! k) → is_Some (set_all kvs m !! k).
Proof.
  revert m. induction kvs as [|[k' v] kvs IH]; intros m Hin; simpl; [done|].
  apply IH. destruct (decide (k' = k)) as [->|Hne].
  - rewrite lookup_insert_eq. by eexists.
  - by rewrite lookup_insert_ne.
Qed.

Section Frame.
Context {A B : Type}.

Lemma ret_keeps (a : A) : removes_no_envelope (ret a).
Proof. intros d. apply keeps_envelopes_refl. Qed.

Lemma throw_keeps e : removes_no_envelope (throw (A:=A) e).
Proof. intros d. apply keeps_envelopes_refl. Qed.

Lemma bind_keeps (c : Async A) (k : A → Async B) :
  removes_no_envelope c → (∀ a, removes_no_envelope (k a)) →
  removes_no_envelope (bind c k).
Proof.
  intros Hc Hk d. unfold bind. specialize (Hc d).
  destruct (c d) as [[a|e] d'] eqn:Hcd; simpl in *; [|done].
  eapply keeps_envelopes_trans; [exact Hc | apply Hk].
Qed.

Lemma try_catch_keeps (c : Async A) (h : Error → Async A) :
  removes_no_envelope c → (∀ e, removes_no_envelope (h e)) →
  removes_no_envelope (try_catch c h).
Proof.
  intros Hc Hh d. unfold try_catch. specialize (Hc d).
  destruct (c d) as [[a|e] d'] eqn:Hcd; simpl in *; [done|].
  eapply keeps_envelopes_trans; [exact Hc | apply Hh].
Qed.

Lemma storage_call_keeps (f : gmap string text → A * gmap string text) :
  (∀ m, keeps_envelopes m (f m).2) → removes_no_envelope (storage_call f).
Proof.
  intros Hf d. unfold storage_call. destruct (failing d); simpl.
  - apply keeps_envelopes_refl.
  - specialize (Hf (items d)). by destruct (f (items d)).
Qed.

End Frame.

Lemma log_keeps line : removes_no_envelope (log line).
Proof. intros d. apply keeps_envelopes_refl. Qed.

Lemma getItem_keeps k : removes_no_envelope (getItem k).
Proof. apply storage_call_keeps. intros m. apply keeps_envelopes_refl. Qed.

Lemma getAllKeys_keeps : removes_no_envelope getAllKeys.
Proof. apply storage_call_keeps. intros m. apply keeps_envelopes_refl. Qed.

Lemma setItem_keeps k v : removes_no_envelope (setItem k v).
Proof.
  apply storage_call_keeps. intros m k' _ Hin. simpl.
  destruct (decide (k = k')) as [->|Hne].
  - rewrite lookup_insert_eq. by eexists.
  - by rewrite lookup_insert_ne.
Qed.

Lemma multiSet_keeps kvs : removes_no_envelope (multiSet kvs).
Proof. apply storage_call_keeps. intros m k _. apply set_all_keeps. Qed.

Lemma removeItem_keeps k : is_offline_key k = false → removes_no_envelope (removeItem k).
Proof.
  intros Hk. apply storage_call_keeps. intros m k' Hk' Hin. simpl.
  rewrite lookup_delete_ne; [done|]. intros ->. congruence.
Qed.

Lemma multiRemove_keeps ks :
  forallb (λ k, negb (is_offline_key k)) ks = true → removes_no_envelope (multiRemove ks).
Proof.
  intros Hks. apply storage_call_keeps. intros m k Hk Hin. simpl.
  rewrite remove_all_lookup. destruct (decide (k ∈ ks)) as [Hkin|]; [|done].
  rewrite forallb_forall in Hks. apply list_elem_of_In, Hks in Hkin.
  rewrite Hk in Hkin. done.
Qed.

Create HintDb frame discriminated.

#[export] Hint Resolve ret_keeps throw_keeps log_keeps getItem_keeps setItem_keeps
  multiSet_keeps getAllKeys_keeps : frame.
#[export] Hint Extern 1 (removes_no_envelope (removeItem _)) =>
  apply removeItem_keeps; reflexivity : frame.
#[export] Hint Extern 1 (removes_no_envelope (multiRemove _)) =>
  apply multiRemove_keeps; reflexivity : frame.

(** Splits a computation along its binds, handlers and case distinctions
    and closes each piece with a lemma of the [frame] database. *)
Ltac frame :=
  repeat first
    [ solve [auto 1 with frame nocore]
    | apply bind_keeps | apply try_catch_keeps
    | match goal with
      | |- ∀ _, _ => intro
      | |- removes_no_envelope (match ?x with _ => _ end) => destruct x
      | |- removes_no_envelope (if ?b then _ else _) => destruct b
      end ].

Lemma request_interceptor_keeps : removes_no_envelope request_interceptor.
Proof. unfold request_interceptor. frame. Qed.
#[export] Hint Resolve request_interceptor_keeps : frame.

Lemma response_interceptor_keeps {A} (r : reply A) :
  removes_no_envelope (response_interceptor r).
Proof. unfold response_interceptor. frame. Qed.
#[export] Hint Resolve response_interceptor_keeps : frame.

Lemma apiClient_request_keeps {A} (r : reply A) : removes_no_envelope (apiClient_request r).
Proof. unfold apiClient_request. frame. Qed.
#[export] Hint Resolve apiClient_request_keeps : frame.

Lemma axios_request_keeps {A} (r : reply A) : removes_no_envelope (axios_request r).
Proof. unfold axios_request. frame. Qed.
#[export] Hint Resolve axios_request_keeps : frame.

Lemma storeTokens_keeps tokenData username :
  removes_no_envelope (storeTokens tokenData username).
Proof. unfold storeTokens. frame. Qed.
#[export] Hint Resolve storeTokens_keeps : frame.

Lemma storeTokens_body_keeps tokenData username :
  removes_no_envelope (storeTokens_body tokenData username).
Proof. unfold storeTokens_body. frame. Qed.
#[export] Hint Resolve storeTokens_body_keeps : frame.

Lemma reported_request_keeps errorLine server :
  removes_no_envelope (reported_request errorLine server).
Proof. unfold reported_request. frame. Qed.
#[export] Hint Resolve reported_request_keeps : frame.

Lemma clearTokens_keeps : removes_no_envelope clearTokens.
Proof. unfold clearTokens. frame. Qed.
#[export] Hint Resolve clearTokens_keeps : frame.

Lemma storeOfflineData_keeps `{Platform} key data now :
  removes_no_envelope (storeOfflineData key data now).
Proof. unfold storeOfflineData. frame. Qed.
#[export] Hint Resolve storeOfflineData_keeps : frame.

Lemma getOfflineData_keeps `{Platform} key : removes_no_envelope (getOfflineData key).
Proof. unfold getOfflineData. frame. Qed.
#[export] Hint Resolve getOfflineData_keeps : frame.

Lemma sync_each_keeps offlineKeys : removes_no_envelope (sync_each offlineKeys).
Proof. induction offlineKeys as [|key rest IH]; simpl; frame. Qed.
#[export] Hint Resolve sync_each_keeps : frame.

Lemma syncOfflineData_keeps : removes_no_envelope syncOfflineData.
Proof. unfold syncOfflineData. frame. Qed.
#[export] Hint Resolve syncOfflineData_keeps : frame.

Lemma cached_get_keeps `{Platform} key errorLine hitLine server now :
  removes_no_envelope (cached_get key errorLine hitLine server now).
Proof. unfold cached_get. frame. Qed.
#[export] Hint Resolve cached_get_keeps : frame.

Lemma completeTask_keeps `{Platform} taskData server now :
  removes_no_envelope (completeTask taskData server now).
Proof. unfold completeTask. frame. Qed.
#[export] Hint Resolve completeTask_keeps : frame.

Lemma savePackoutProgress_keeps `{Platform} order s now :
  removes_no_envelope (savePackoutProgress order s now).
Proof. unfold savePackoutProgress. frame. Qed.
#[export] Hint Resolve savePackoutProgress_keeps : frame.

(** ** Every operation that reaches AsyncStorage *)

Section System.
Context `{Platform}.

(** Every call other than the clearing ones keeps every queued key. *)
Lemma call_keeps_envelopes (c : Call) (now : Z) (d : Device) :
  (∀ k, ¬ clears_envelope c k) → keeps_envelopes (items d) (items (perform c now d)).
Proof.
  intros Hc. revert d.
  destruct c; simpl;
    try (exfalso; apply (Hc ""); exact I);
    match goal with |- ∀ d, keeps_envelopes _ (items (?f d).2) =>
      change (removes_no_envelope f) end.
  - apply storeTokens_keeps.
  - unfold getToken. frame.
  - apply clearTokens_keeps.
  - unfold isAuthenticated. frame.
  - apply storeOfflineData_keeps.
  - apply getOfflineData_keeps.
  - destruct key as [key|]; exfalso.
    + apply (Hc (offlineKey key)). by right.
    + apply (Hc ""). exact I.
  - apply syncOfflineData_keeps.
  - unfold login. frame.
  - unfold getCurrentUser. frame.
  - apply cached_get_keeps.
  - apply cached_get_keeps.
  - apply cached_get_keeps.
  - unfold updateOrderStatus. frame.
  - unfold createTask. frame.
  - unfold updateTask. frame.
  - apply completeTask_keeps.
  - unfold checkConnectivity. frame.
  - unfold syncPendingData, checkConnectivity. frame.
  - apply reported_request_keeps.
  - apply reported_request_keeps.
  - apply reported_request_keeps.
  - apply reported_request_keeps.
  - apply reported_request_keeps.
  - apply reported_request_keeps.
  - apply reported_request_keeps.
  - apply reported_request_keeps.
  - unfold initializeApp, token_validation_failed, isAuthenticated, getCurrentUser,
      syncPendingData, checkConnectivity.
    frame.
  - unfold handleBarCodeRead, fetchOrderData. frame.
  - unfold fetchOrderData. frame.
  - unfold loadPackoutProgress. frame.
  - apply savePackoutProgress_keeps.
  - unfold handleChecklistItemToggle. frame.
  - unfold handleCameraCapture. frame.
  - unfold handleNextStep. frame.
  - unfold handlePreviousStep. frame.
  - unfold handleSubmitPackout. frame.
Qed.

End System.

(** ** [drain]: syncOfflineData *)

Lemma sync_each_run offlineKeys d :
  failing d = false →
  sync_each offlineKeys d
  = (Fulfilled tt,
     printed_all (sync_line <$> filter (λ key, Is_true (double_bang (items d !! key)))
                                  offlineKeys) d).
Proof.
  revert d. induction offlineKeys as [|key rest IH]; intros d Hd.
  - simpl. unfold ret, printed_all. rewrite app_nil_r. by destruct d.
  - simpl. unfold bind at 1. rewrite getItem_ok by done.
    rewrite filter_cons. unfold bind at 1.
    destruct (double_bang (items d !! key)) eqn:Hdata.
    + rewrite decide_True by exact I. simpl. rewrite IH by done.
      unfold printed_all, printed. simpl. by rewrite <- app_assoc.
    + rewrite decide_False by exact id. simpl. by rewrite IH.
Qed.

(** C4, amended: [syncOfflineData] never rejects and returns nothing; it
    leaves the items of AsyncStorage and so the whole queue as they are;
    all it does is write console lines: one per queued key that holds text,
    in the order [getAllKeys] lists them, or the error line when the store
    cannot be read. It takes no submit function and calls none. *)
Theorem syncOfflineData_reads_and_logs (d : Device) :
  syncOfflineData d
  = (Fulfilled tt,
     printed_all (if failing d then ["Error syncing offline data:"]
                  else sync_lines (items d)) d).
Proof.
  unfold syncOfflineData, try_catch, bind, getAllKeys, storage_call.
  destruct (failing d) eqn:Hd.
  - reflexivity.
  - by rewrite with_items_same, sync_each_run.
Qed.

(** ** [resolve]: fetchOrderData *)

Lemma mapM_lineOfJSON lines : mapM lineOfJSON (lineToJSON <$> lines) = Some lines.
Proof.
  induction lines as [|[sku name quantity] rest IH]; [done|].
  rewrite fmap_cons. cbn [mapM]. rewrite IH. reflexivity.
Qed.

(** Reading the properties of an order object gives the order back. *)
Lemma orderOfJSON_orderToJSON o : orderOfJSON (orderToJSON o) = Some o.
Proof.
  destruct o as [id number [name email] lines status priority].
  unfold orderOfJSON, orderToJSON. cbn -[mapM]. rewrite mapM_lineOfJSON. reflexivity.
Qed.

(** C8, amended: when the request fails, the scanner shows the order
    [mockOrder barcode], a function of the scanned code alone, with the
    order modal open and loading off. The state is the one a 200 response
    carrying that same order produces: nothing in it marks the order as a
    placeholder. *)
Theorem fetchOrderData_failure_shows_unmarked_mockOrder
    (s : Scanner) (barcode : string) (server : reply json) (d : Device) :
  delivery_failed server →
  ∃ shown,
    (fetchOrderData s barcode server d).1 = Fulfilled shown
    ∧ orderData shown = orderToJSON (mockOrder barcode)
    ∧ orderOfJSON (orderData shown) = Some (mockOrder barcode)
    ∧ showOrderModal shown = true
    ∧ loading shown = false
    ∧ (fetchOrderData s barcode (Response 200 (orderToJSON (mockOrder barcode)))
         (mkDevice (items d) false (console d))).1 = Fulfilled shown.
Proof.
  intros Hfail.
  exists (setLoading false
            (setShowOrderModal true (setOrderData (orderToJSON (mockOrder barcode)) s))).
  split; [|split; [reflexivity|split; [apply orderOfJSON_orderToJSON|]]].
  - unfold fetchOrderData, bind, try_catch. destruct (failing d) eqn:Hd.
    + by rewrite getItem_failing.
    + rewrite getItem_ok by done.
      by destruct (axios_request_failed server d Hfail) as [e ->].
  - do 2 (split; [reflexivity|]). unfold fetchOrderData, bind, try_catch.
    by rewrite (getItem_ok _ (mkDevice _ false _)).
Qed.

(** ** [completeTask] stores what it could not send *)

Section CompleteTask.
Context `{Platform}.

(** What [apiClient] leaves in AsyncStorage when a request fails: the items
    without the token fields after a 401, the items as they were otherwise. *)
Lemma apiClient_request_failed {A} (server : reply A) d :
  delivery_failed server → failing d = false →
  ∃ e d', apiClient_request server d = (Rejected e, d')
          ∧ failing d' = false
          ∧ ∀ k, is_offline_key k = true → items d' !! k = items d !! k.
Proof.
  intros Hfail Hd. unfold apiClient_request, request_interceptor, bind at 1, try_catch.
  unfold bind at 1. rewrite getItem_ok by done. simpl.
  destruct server as [status data|]; simpl in *.
  - rewrite Hfail. unfold bind, try_catch.
    destruct (status =? 401).
    + unfold multiRemove, storage_call. rewrite Hd. simpl.
      do 2 eexists. split; [reflexivity|]. split; [done|].
      intros k Hk. simpl.
      rewrite !lookup_delete_ne; [done|..]; intros <-; vm_compute in Hk; discriminate.
    + by do 2 eexists.
  - unfold bind. simpl. by do 2 eexists.
Qed.

(** A failed [completeTask] rejects, as the request did, and leaves exactly
    one more key in the queue when the key is new: the key built from the
    order id and the time of the attempt. *)
Lemma completeTask_failure_enqueues taskData (server : reply json) now d :
  delivery_failed server → failing d = false →
  ∃ e d', completeTask taskData server now d = (Rejected e, d')
          ∧ queue d'
            = {[offlineKey (complete_task_key (order_id taskData) now)]} ∪ queue d.
Proof.
  intros Hfail Hd.
  destruct (apiClient_request_failed server d Hfail Hd) as (e & d1 & Hreq & Hd1 & Hsame).
  unfold completeTask, try_catch. rewrite Hreq.
  unfold bind, log, storeOfflineData, try_catch, setItem, storage_call. simpl.
  rewrite Hd1. simpl. do 2 eexists. split; [reflexivity|].
  apply set_eq. intros k. rewrite elem_of_union, elem_of_singleton, !elem_of_queue. simpl.
  destruct (decide (k = offlineKey (complete_task_key (order_id taskData) now))) as [->|Hne].
  - rewrite lookup_insert_eq. split; [by left|]. intros _. split; [done|by eexists].
  - rewrite lookup_insert_ne by done. split.
    + intros [Hk Hin]. right. split; [done|]. by rewrite <- Hsame.
    + intros [?|[Hk Hin]]; [done|]. split; [done|]. by rewrite Hsame.
Qed.

End CompleteTask.

(** ** The session store: tokens in, tokens out *)

Lemma multiSet_ok kvs d :
  failing d = false →
  multiSet kvs d = (Fulfilled tt, with_items (set_all kvs (items d)) d).
Proof. intros Hd. unfold multiSet, storage_call. by rewrite Hd. Qed.

Lemma multiRemove_ok ks d :
  failing d = false →
  multiRemove ks d = (Fulfilled tt, with_items (remove_all ks (items d)) d).
Proof. intros Hd. unfold multiRemove, storage_call. by rewrite Hd. Qed.

Lemma set_all_lookup_other kvs (m : gmap string text) k :
  k ∉ kvs.*1 → set_all kvs m !! k = m !! k.
Proof.
  revert m. induction kvs as [|[k' v] kvs IH]; intros m Hk; [done|].
  change (set_all ((k', v) :: kvs) m) with (set_all kvs (<[k' := v]> m)).
  rewrite fmap_cons, not_elem_of_cons in Hk. destruct Hk as [Hne Hk].
  rewrite IH by done. by rewrite lookup_insert_ne.
Qed.

Lemma set_all_app kvs kvs' (m : gmap string text) :
  set_all (kvs ++ kvs') m = set_all kvs' (set_all kvs m).
Proof. unfold set_all. by rewrite foldl_app. Qed.

Lemma isAuthenticated_ok d :
  failing d = false →
  isAuthenticated d = (Fulfilled (double_bang (items d !! "access_token")), d).
Proof.
  intros Hd. unfold isAuthenticated, try_catch, bind. by rewrite getItem_ok.
Qed.

(** What [storeTokens] leaves on a working store. *)
Lemma storeTokens_run (tokenData : TokenData) (username : option string) (d : Device) :
  failing d = false →
  ∃ d', storeTokens tokenData username d = (Fulfilled tt, d')
        ∧ failing d' = false
        ∧ items d' !! "access_token" = Some (Raw (access_token tokenData))
        ∧ ∀ k, k ∉ session_keys → items d' !! k = items d !! k.
Proof.
  intros Hd. unfold storeTokens, try_catch. rewrite multiSet_ok by done.
  set (extra := match username with
                | Some u => if string_truthy u then [("username", Raw u)] else []
                | None => []
                end).
  assert (∀ k, k ∈ extra.*1 → k = "username") as Hextra.
  { subst extra. intros k. destruct username as [u|]; [destruct (string_truthy u)|];
      simpl; rewrite ?elem_of_cons, ?elem_of_nil; tauto. }
  eexists. split; [reflexivity|]. split; [done|].
  unfold with_items. cbn [items]. split.
  - rewrite set_all_app, set_all_lookup_other.
    + unfold set_all. simpl. rewrite !lookup_insert_ne by done. apply lookup_insert_eq.
    + intros Hin. by apply Hextra in Hin.
  - intros k Hk. apply set_all_lookup_other. intros Hin. apply Hk.
    rewrite fmap_app, elem_of_app in Hin. unfold session_keys.
    destruct Hin as [Hin|Hin].
    + simpl in Hin. rewrite !elem_of_cons in *. rewrite elem_of_nil in Hin. tauto.
    + apply Hextra in Hin as ->. rewrite !elem_of_cons. tauto.
Qed.

(** X1. After [storeTokens] on a working store, [getToken] returns the
    access token that was stored and [isAuthenticated] answers whether that
    token is a non-empty string; no key other than the four session keys is
    written. *)
Theorem stored_token_is_read_back
    (tokenData : TokenData) (username : option string) (d : Device) :
  failing d = false →
  ∃ d', storeTokens tokenData username d = (Fulfilled tt, d')
        ∧ getToken d' = (Fulfilled (Some (Raw (access_token tokenData))), d')
        ∧ isAuthenticated d'
          = (Fulfilled (string_truthy (access_token tokenData)), d')
        ∧ ∀ k, k ∉ session_keys → items d' !! k = items d !! k.
Proof.
  intros Hd.
  destruct (storeTokens_run tokenData username d Hd) as (d' & Hstore & Hd' & Htoken & Hrest).
  exists d'. split; [done|]. split; [|split; [|done]].
  - unfold getToken, try_catch. rewrite getItem_ok by done. by rewrite Htoken.
  - rewrite isAuthenticated_ok by done. by rewrite Htoken.
Qed.

(** What [clearTokens] leaves. *)
Lemma clearTokens_run (d : Device) :
  ∃ d', clearTokens d = (Fulfilled tt, d')
        ∧ failing d' = failing d
        ∧ ∀ k, items d' !! k
               = if decide (k ∈ session_keys)
                 then (if failing d then items d !! k else None)
                 else items d !! k.
Proof.
  unfold clearTokens, try_catch. destruct (failing d) eqn:Hd.
  - unfold multiRemove, storage_call. rewrite Hd. eexists. split; [reflexivity|].
    split; [done|]. intros k; by destruct (decide _).
  - rewrite multiRemove_ok by done. eexists. split; [reflexivity|]. split; [done|].
    intros k. unfold with_items. cbn [items]. apply remove_all_lookup.
Qed.

(** X2. [clearTokens] never rejects. On a working store it removes the
    four session keys and nothing else, after which [getToken] returns
    [null] and [isAuthenticated] answers [false]; on a failing store it
    changes no item. *)
Theorem clearTokens_removes_the_session_keys_only (d : Device) :
  ∃ d', clearTokens d = (Fulfilled tt, d')
        ∧ (∀ k, items d' !! k
                = if decide (k ∈ session_keys)
                  then (if failing d then items d !! k else None)
                  else items d !! k)
        ∧ (isAuthenticated d').1 = Fulfilled false
        ∧ (getToken d').1 = Fulfilled None.
Proof.
  destruct (clearTokens_run d) as (d' & Hrun & Hd' & Hlook).
  exists d'. split; [done|]. split; [done|].
  unfold isAuthenticated, getToken, try_catch, bind. destruct (failing d) eqn:Hd.
  - by rewrite !getItem_failing by done.
  - rewrite !getItem_ok by done. by rewrite Hlook.
Qed.

(** ** Requests through [apiClient] *)

Lemma request_interceptor_run d :
  request_interceptor d
  = (Fulfilled tt, if failing d then printed "Error retrieving token:" d else d).
Proof.
  unfold request_interceptor, try_catch, bind. destruct (failing d) eqn:Hd.
  - by rewrite getItem_failing.
  - by rewrite getItem_ok.
Qed.

Lemma apiClient_request_ok {A} status (data : A) d :
  (200 <=? status) && (status <? 300) = true → failing d = false →
  apiClient_request (Response status data) d = (Fulfilled data, d).
Proof.
  intros Hok Hd. unfold apiClient_request, bind. rewrite request_interceptor_run, Hd.
  simpl. by rewrite Hok.
Qed.

Lemma apiClient_request_ok' {A} status (data : A) d :
  (200 <=? status) && (status <? 300) = true →
  apiClient_request (Response status data) d = (Fulfilled data, (request_interceptor d).2).
Proof.
  intros Hok. unfold apiClient_request, bind. rewrite request_interceptor_run.
  simpl. by rewrite Hok.
Qed.

Lemma apiClient_request_inv {A} (server : reply A) d a d' :
  apiClient_request server d = (Fulfilled a, d') →
  (∃ status, server = Response status a ∧ (200 <=? status) && (status <? 300) = true)
  ∧ d' = (request_interceptor d).2.
Proof.
  unfold apiClient_request, bind. destruct (request_interceptor d) as [[[]|e] d1] eqn:Hreq.
  - destruct server as [status data|]; simpl.
    + destruct ((200 <=? status) && (status <? 300)) eqn:Hok.
      * intros [= <- <-]. split; [by exists status|done].
      * unfold bind at 1.
        match goal with |- context [match ?c with _ => _ end] =>
          destruct c as [[?|?] ?] end; discriminate.
    + unfold bind, log. discriminate.
  - discriminate.
Qed.

(** X3. An [apiClient] request answered with 401 rejects with that
    status and, on a working store, leaves the session without a token:
    [access_token], [token_type] and [username] are removed, every other
    item, [token_expires_in] included, stays, and [isAuthenticated] then
    answers [false]. *)
Theorem unauthorized_response_ends_the_session {A} (data : A) (d : Device) :
  failing d = false →
  ∃ d', apiClient_request (Response 401 data) d = (Rejected (HttpError 401), d')
        ∧ isAuthenticated d' = (Fulfilled false, d')
        ∧ ∀ k, items d' !! k = if decide (k ∈ token_fields) then None else items d !! k.
Proof.
  intros Hd. unfold apiClient_request, bind at 1.
  rewrite request_interceptor_run, Hd. simpl.
  unfold bind at 1, try_catch, bind at 1. rewrite multiRemove_ok by done.
  unfold log at 1, throw.
  match goal with |- ∃ d', (_, ?dd) = _ ∧ _ => set (cleared := dd) end.
  assert (∀ k, items cleared !! k
               = if decide (k ∈ token_fields) then None else items d !! k) as Hlook.
  { intros k. subst cleared. unfold printed, with_items. cbn [items].
    apply remove_all_lookup. }
  exists cleared. split; [reflexivity|]. split; [|exact Hlook].
  rewrite isAuthenticated_ok by done. by rewrite Hlook.
Qed.

(** ** authAPI *)

(** On the JSON of a [TokenData], [storeTokens] as [login] calls it is
    [storeTokens]. *)
Lemma storeTokens_body_typed (tokenData : TokenData) (username : option string) :
  storeTokens_body (tokenDataToJSON tokenData) username = storeTokens tokenData username.
Proof. reflexivity. Qed.

(** [storeTokens] on [response.data]: it rejects, with nothing written,
    or it stores the access token, and which of the two depends on the
    store and on three properties of the body only. *)
Lemma storeTokens_body_cases (body : json) (username : option string) (d : Device) :
  (∃ e, storeTokens_body body username d = (Rejected e, printed "Error storing tokens:" d)
        ∧ (failing d = true
           ∨ toString (get "expires_in" body) = None
           ∨ as_str (get "access_token" body) = None
           ∨ as_str (get "token_type" body) = None))
  ∨ (failing d = false
     ∧ ∃ expires token type d',
         toString (get "expires_in" body) = Some expires
         ∧ as_str (get "access_token" body) = Some token
         ∧ as_str (get "token_type" body) = Some type
         ∧ storeTokens_body body username d = (Fulfilled tt, d')
         ∧ failing d' = false
         ∧ items d' !! "access_token" = Some (Raw token)
         ∧ ∀ k, k ∉ session_keys → items d' !! k = items d !! k).
Proof.
  destruct (toString (get "expires_in" body)) as [expires|] eqn:Hexpires.
  2:{ left. exists TypeError. split; [|tauto].
      unfold storeTokens_body, try_catch. rewrite Hexpires. by destruct body. }
  destruct (as_str (get "access_token" body)) as [token|] eqn:Htoken.
  2:{ left. exists StorageError. split; [|tauto].
      unfold storeTokens_body, try_catch. rewrite Hexpires, Htoken. by destruct body. }
  destruct (as_str (get "token_type" body)) as [type|] eqn:Htype.
  2:{ left. exists StorageError. split; [|tauto].
      unfold storeTokens_body, try_catch. rewrite Hexpires, Htoken, Htype. by destruct body. }
  set (extra := match username with
                | Some u => if string_truthy u then [("username", Raw u)] else []
                | None => []
                end).
  assert (storeTokens_body body username
          = try_catch
              (multiSet ([("access_token", Raw token); ("token_type", Raw type);
                          ("token_expires_in", Raw expires)] ++ extra))
              (λ error, log "Error storing tokens:" >> throw error)) as ->.
  { unfold storeTokens_body. rewrite Hexpires, Htoken, Htype. by destruct body. }
  destruct (failing d) eqn:Hd.
  - left. exists StorageError. split; [|tauto].
    unfold try_catch, multiSet, storage_call. by rewrite Hd.
  - right. split; [done|]. exists expires, token, type.
    unfold try_catch. rewrite multiSet_ok by done.
    assert (∀ k, k ∈ extra.*1 → k = "username") as Hextra.
    { subst extra. intros k. destruct username as [u|]; [destruct (string_truthy u)|];
        simpl; rewrite ?elem_of_cons, ?elem_of_nil; tauto. }
    eexists. do 3 (split; [reflexivity|]). split; [reflexivity|]. split; [done|].
    unfold with_items. cbn [items]. split.
    + rewrite set_all_app, set_all_lookup_other.
      * unfold set_all. simpl. rewrite !lookup_insert_ne by done. apply lookup_insert_eq.
      * intros Hin. by apply Hextra in Hin.
    + intros k Hk. apply set_all_lookup_other. intros Hin. apply Hk.
      rewrite fmap_app, elem_of_app in Hin. unfold session_keys.
      destruct Hin as [Hin|Hin].
      * simpl in Hin. rewrite !elem_of_cons in *. rewrite elem_of_nil in Hin. tauto.
      * apply Hextra in Hin as ->. rewrite !elem_of_cons. tauto.
Qed.

(** X4. [login] gives [response.data] to [storeTokens] as it came. For
    a server whose bodies, when they carry an [expires_in] that [toString]
    can be called on, carry strings as [access_token] and [token_type]:
    [login] fulfils exactly when the store works, the server answered 2xx
    and the body carries such an [expires_in]; it then yields the body,
    with its access token stored. It rejects in every other case, also on
    a working store after an accepted request whose body is [null] or has
    no [expires_in]; no access token has been written then: the stored one
    is as before or, after a 401, removed. *)
Theorem login_stores_the_token_or_rejects
    (credentials : LoginCredentials) (server : reply json) (d : Device) :
  (∀ status body,
     server = Response status body → is_Some (toString (get "expires_in" body)) →
     is_Some (as_str (get "access_token" body))
     ∧ is_Some (as_str (get "token_type" body))) →
  match login credentials server d with
  | (Fulfilled tokenData, d') =>
      failing d = false
      ∧ (∃ status, server = Response status tokenData
                   ∧ (200 <=? status) && (status <? 300) = true)
      ∧ is_Some (toString (get "expires_in" tokenData))
      ∧ ∃ token, as_str (get "access_token" tokenData) = Some token
                 ∧ getToken d' = (Fulfilled (Some (Raw token)), d')
  | (Rejected _, d') =>
      (failing d = true
       ∨ delivery_failed server
       ∨ ∃ status body, server = Response status body
                        ∧ toString (get "expires_in" body) = None)
      ∧ (items d' !! "access_token" = items d !! "access_token"
         ∨ items d' !! "access_token" = None)
  end.
Proof.
  intros Hstrings. unfold login, try_catch, bind at 1.
  destruct (apiClient_request server d) as [[tokenData|e] d1] eqn:Hreq.
  - destruct (apiClient_request_inv _ _ _ _ Hreq) as [(status & Hserver & Hok) ->].
    rewrite request_interceptor_run. unfold bind at 1.
    match goal with |- context [storeTokens_body _ ?u ?dd] =>
      destruct (storeTokens_body_cases tokenData u dd)
        as [(e & -> & Hwhy)|(Hd & expires & token & type & d' & Hexpires & Htoken & _
                             & -> & Hd' & Hstored & _)]
    end.
    + unfold log, throw, bind. cbn [fst snd]. split.
      * destruct (failing d) eqn:Hd; [by left|]. right. right.
        exists status, tokenData. split; [done|].
        destruct (toString (get "expires_in" tokenData)) as [expires|] eqn:Hexpires;
          [|done].
        destruct (Hstrings status tokenData Hserver) as [[token Htoken] [type Htype]];
          [by eexists|].
        destruct Hwhy as [Hw|[Hw|[Hw|Hw]]]; cbn [snd] in Hw; rewrite ?Hd in Hw;
          congruence.
      * left. by destruct (failing d).
    + assert (failing d = false) as Hfailing.
      { destruct (failing d) eqn:Hf; [|done]. simpl in Hd. congruence. }
      rewrite Hfailing in *. unfold ret. cbn [fst snd].
      split; [done|]. split; [by exists status|]. split; [by eexists|].
      exists token. split; [done|].
      unfold getToken, try_catch. rewrite getItem_ok by done. by rewrite Hstored.
  - unfold bind, log, throw. simpl. split.
    + destruct (failing d) eqn:Hd; [by left|right; left].
      destruct server as [status data|]; [|exact I]. simpl.
      destruct ((200 <=? status) && (status <? 300)) eqn:Hok; [|done].
      by rewrite apiClient_request_ok in Hreq.
    + revert Hreq. unfold apiClient_request, bind at 1. rewrite request_interceptor_run.
      destruct server as [status data|]; simpl.
      * destruct ((200 <=? status) && (status <? 300)); [discriminate|].
        unfold bind, try_catch, throw. destruct (status =? 401).
        -- unfold multiRemove, storage_call, log.
           destruct (failing d) eqn:Hd; simpl; rewrite ?Hd; simpl.
           ++ intros [= _ <-]. by left.
           ++ intros [= _ <-]. right. simpl. apply lookup_delete_eq.
        -- intros [= _ <-]. left. by destruct (failing d).
      * unfold bind, log, throw. intros [= _ <-]. left. by destruct (failing d).
Qed.

(** ** offlineStorage *)

Lemma elem_of_all_keys (m : gmap string text) k : k ∈ all_keys m ↔ is_Some (m !! k).
Proof.
  unfold all_keys. rewrite list_elem_of_fmap. split.
  - intros ([k' v] & -> & Hin). apply elem_of_map_to_list in Hin. by exists v.
  - intros [v Hv]. exists (k, v). split; [done|]. by apply elem_of_map_to_list.
Qed.

Lemma setItem_ok k v d :
  failing d = false → setItem k v d = (Fulfilled tt, with_items (<[k := v]> (items d)) d).
Proof. intros Hd. unfold setItem, storage_call. by rewrite Hd. Qed.

Section OfflineStorage.
Context `{Platform}.

Lemma storeOfflineData_ok key data now d :
  failing d = false →
  storeOfflineData key data now d
  = (Fulfilled tt,
     with_items (<[offlineKey key := Stringified (envelope data now)]> (items d)) d).
Proof. intros Hd. unfold storeOfflineData, try_catch. by rewrite setItem_ok. Qed.

Lemma getOfflineData_found key data now d :
  failing d = false →
  items d !! offlineKey key = Some (Stringified (envelope data now)) →
  getOfflineData key d = (Fulfilled (Some data), d).
Proof.
  intros Hd Hlook. unfold getOfflineData, try_catch, bind.
  rewrite getItem_ok by done. by rewrite Hlook.
Qed.

(** X5. What [storeOfflineData] stores under a key on a working store,
    [getOfflineData] returns for that key: the data comes back as it was
    given, without the envelope's timestamp. *)
Theorem stored_offline_data_is_read_back (key : string) (data : json) (now : Z) (d : Device) :
  failing d = false →
  ∃ d', storeOfflineData key data now d = (Fulfilled tt, d')
        ∧ getOfflineData key d' = (Fulfilled (Some data), d').
Proof.
  intros Hd. rewrite storeOfflineData_ok by done. eexists. split; [reflexivity|].
  eapply getOfflineData_found; [done|]. apply lookup_insert_eq.
Qed.

(** X6. [getOfflineData] never rejects and never changes an item: a
    failing store, a missing key, an empty text, text that does not parse
    and the text [null] all give a value, and the first two give [null]. *)
Theorem getOfflineData_never_rejects (key : string) (d : Device) :
  ∃ found d', getOfflineData key d = (Fulfilled found, d')
              ∧ items d' = items d
              ∧ (failing d = true ∨ items d !! offlineKey key = None → found = None).
Proof.
  unfold getOfflineData, try_catch, bind. destruct (failing d) eqn:Hd.
  - rewrite getItem_failing by done. do 2 eexists. by split; [reflexivity|].
  - rewrite getItem_ok by done.
    destruct (items d !! offlineKey key) as [t|] eqn:Hlook.
    + destruct (text_truthy t); [|do 2 eexists; split; [reflexivity|]; split; [done|]].
      * destruct (JSON_parse t) as [[]|]; do 2 eexists;
          (split; [reflexivity|]); (split; [done|]); by intros [|].
      * by intros [|].
    + do 2 eexists. by split; [reflexivity|].
Qed.

(** The second branch of [clearOfflineData], taken without a key and with
    the empty key. *)
Lemma clearOfflineData_all key d :
  failing d = false → key = None ∨ key = Some "" →
  ∃ d', clearOfflineData key d = (Fulfilled tt, d')
        ∧ failing d' = false
        ∧ ∀ k, items d' !! k = if is_offline_key k then None else items d !! k.
Proof.
  intros Hd Hkey.
  assert (∀ ks : list string, ∃ d',
             (if 0 <? Z.of_nat (length ks) then multiRemove ks else ret tt) d
             = (Fulfilled tt, d')
             ∧ failing d' = false
             ∧ ∀ k, items d' !! k = if decide (k ∈ ks) then None else items d !! k)
    as Hremove.
  { intros ks. destruct ks as [|k0 ks].
    - exists d. split; [done|]. split; [done|]. intros k.
      by rewrite decide_False by apply not_elem_of_nil.
    - change (0 <? Z.of_nat (length (k0 :: ks))) with true. cbv iota.
      rewrite multiRemove_ok by done. eexists. split; [reflexivity|]. split; [done|].
      intros k. unfold with_items. cbn [items]. apply remove_all_lookup. }
  destruct (Hremove (filter (λ k, Is_true (is_offline_key k)) (all_keys (items d))))
    as (d' & Hrun & Hd' & Hlook).
  exists d'. split; [|split; [done|]].
  - unfold clearOfflineData, try_catch, bind, getAllKeys, storage_call.
    destruct Hkey as [->| ->]; simpl; rewrite Hd, with_items_same, Hrun; done.
  - intros k. rewrite Hlook. destruct (is_offline_key k) eqn:Hk.
    + destruct (decide _) as [|Hnin]; [done|].
      destruct (items d !! k) eqn:Hin; [|done]. exfalso. apply Hnin.
      apply list_elem_of_filter. split; [by rewrite Hk|].
      apply elem_of_all_keys. by eexists.
    + rewrite decide_False; [done|]. rewrite list_elem_of_filter, Hk. by intros [? _].
Qed.

(** X7. [clearOfflineData] without a key, and with the empty string as
    key, never rejects and on a working store empties the offline queue: it
    removes every [offline_] item and no other item. *)
Theorem clearOfflineData_without_key_empties_queue (key : option string) (d : Device) :
  failing d = false → key = None ∨ key = Some "" →
  ∃ d', clearOfflineData key d = (Fulfilled tt, d')
        ∧ queue d' = ∅
        ∧ ∀ k, is_offline_key k = false → items d' !! k = items d !! k.
Proof.
  intros Hd Hkey. destruct (clearOfflineData_all key d Hd Hkey) as (d' & Hrun & _ & Hlook).
  exists d'. split; [done|]. split.
  - apply set_eq. intros k. rewrite elem_of_queue, Hlook. split; [|set_solver].
    intros [-> [? ?]]. done.
  - intros k Hk. by rewrite Hlook, Hk.
Qed.

(** X8. [clearOfflineData(key)] with a non-empty key removes the item
    [offline_<key>] and no other: every other queued envelope stays. *)
Theorem clearOfflineData_with_key_removes_that_envelope (key : string) (d : Device) :
  key ≠ "" → failing d = false →
  ∃ d', clearOfflineData (Some key) d = (Fulfilled tt, d')
        ∧ queue d' = queue d ∖ {[offlineKey key]}.
Proof.
  intros Hkey Hd. unfold clearOfflineData, try_catch.
  assert (string_truthy key = true) as ->.
  { unfold string_truthy. by rewrite negb_true_iff, String.eqb_neq. }
  unfold removeItem, storage_call. rewrite Hd. simpl. eexists. split; [reflexivity|].
  apply set_eq. intros k.
  rewrite elem_of_difference, elem_of_singleton, !elem_of_queue. simpl.
  destruct (decide (k = offlineKey key)) as [->|Hne].
  - rewrite lookup_delete_eq. split; [by intros [_ [? ?]]|by intros [_ ?]].
  - rewrite lookup_delete_ne by done. tauto.
Qed.

End OfflineStorage.

(** X9. [logout] never rejects. On a working store it removes the four
    session keys and every queued envelope and nothing else: afterwards
    [isAuthenticated] answers [false], the offline queue is empty, and the
    other items (saved packout progress among them) are as before. On a
    failing store it changes no item. *)
Theorem logout_ends_session_and_empties_queue (d : Device) :
  ∃ d', logout d = (Fulfilled tt, d')
        ∧ if failing d then items d' = items d
          else isAuthenticated d' = (Fulfilled false, d')
               ∧ queue d' = ∅
               ∧ ∀ k, k ∉ session_keys → is_offline_key k = false →
                      items d' !! k = items d !! k.
Proof.
  unfold logout, try_catch, bind at 1.
  destruct (clearTokens_run d) as (d1 & -> & Hd1 & Hlook1).
  destruct (failing d) eqn:Hd.
  - unfold clearOfflineData, try_catch, bind, getAllKeys, storage_call. rewrite Hd1.
    eexists. split; [reflexivity|]. simpl. apply map_eq. intros k. rewrite Hlook1.
    by destruct (decide _).
  - destruct (clearOfflineData_all None d1 Hd1 (or_introl eq_refl))
      as (d2 & -> & Hd2 & Hlook2).
    exists d2. split; [done|]. split; [|split].
    + rewrite isAuthenticated_ok by done. rewrite Hlook2, Hlook1.
      by rewrite decide_True by (unfold session_keys; set_solver).
    + apply set_eq. intros k. rewrite elem_of_queue, Hlook2. split; [|set_solver].
      intros [-> [? ?]]. done.
    + intros k Hk Hoff. rewrite Hlook2, Hoff, Hlook1. by rewrite decide_False.
Qed.

(** ** Writes that are stored when they fail *)

Section FailedWrites.
Context `{Platform}.

(** The common body of [updateOrderStatus], [createTask], [updateTask] and
    [completeTask] when the request fails. *)
Lemma failed_write_run {A} (server : reply A) (line key : string) (payload : json)
    (now : Z) (d : Device) :
  delivery_failed server → failing d = false →
  ∃ e d',
    try_catch (apiClient_request server)
      (λ error, log line >> storeOfflineData key payload now >> throw error) d
    = (Rejected e, d')
    ∧ failing d' = false
    ∧ items d' !! offlineKey key = Some (Stringified (envelope payload now))
    ∧ ∀ k, is_offline_key k = true → k ≠ offlineKey key → items d' !! k = items d !! k.
Proof.
  intros Hfail Hd.
  destruct (apiClient_request_failed server d Hfail Hd) as (e & d1 & Hreq & Hd1 & Hsame).
  unfold try_catch. rewrite Hreq. unfold bind at 1, log. unfold bind at 1.
  rewrite storeOfflineData_ok by done. unfold throw.
  do 2 eexists. split; [reflexivity|]. split; [done|].
  unfold with_items, printed. cbn [items]. split; [apply lookup_insert_eq|].
  intros k Hk Hne. rewrite lookup_insert_ne by done. by apply Hsame.
Qed.

Lemma queue_after_write d d' key v :
  items d' !! offlineKey key = Some v →
  (∀ k, is_offline_key k = true → k ≠ offlineKey key → items d' !! k = items d !! k) →
  queue d' = {[offlineKey key]} ∪ queue d.
Proof.
  intros Hkey Hrest. apply set_eq. intros k.
  rewrite elem_of_union, elem_of_singleton, !elem_of_queue.
  destruct (decide (k = offlineKey key)) as [->|Hne].
  - split; [by left|]. intros _. split; [reflexivity|by eexists].
  - split.
    + intros [Hk Hin]. right. split; [done|]. by rewrite <- Hrest.
    + intros [?|[Hk Hin]]; [done|]. split; [done|]. by rewrite Hrest.
Qed.

(** X10. Two failed [updateTask] calls for the same task leave one
    envelope, not two: the key is built from the task id alone, so the
    second call overwrites what the first one stored, and what is queued
    is the second update. *)
Theorem later_failed_update_replaces_the_earlier_one
    (taskId : Z) (updateData updateData' : list (string * json))
    (server server' : reply json) (now now' : Z) (d : Device) :
  delivery_failed server → delivery_failed server' → failing d = false →
  let d1 := (updateTask taskId updateData server now d).2 in
  let d2 := (updateTask taskId updateData' server' now' d1).2 in
  queue d1 = {[offlineKey ("update_task_" +:+ pretty taskId)]} ∪ queue d
  ∧ queue d2 = queue d1
  ∧ (getOfflineData ("update_task_" +:+ pretty taskId) d2).1
    = Fulfilled
        (Some (JObj (assign "timestamp" (JStr (toISOString now'))
                       (foldl (λ acc kv, assign kv.1 kv.2 acc)
                          [("taskId", JNum taskId)] updateData')))).
Proof.
  intros Hfail Hfail' Hd. unfold updateTask.
  edestruct (failed_write_run server) as (e & d1 & -> & Hd1 & Hkey1 & Hrest1); [done..|].
  edestruct (failed_write_run server') as (e' & d2 & -> & Hd2 & Hkey2 & Hrest2); [done..|].
  cbn [snd]. split; [by eapply queue_after_write|]. split.
  - erewrite (queue_after_write d1 d2) by done.
    erewrite (queue_after_write d d1) by done.
    by rewrite (assoc_L (∪)), (idemp_L (∪)).
  - by erewrite getOfflineData_found.
Qed.

(** Digits and the sign only: the text of an integer has no underscore. *)
Lemma underscore_text : String underscore "" = "_".
Proof. reflexivity. Qed.

Lemma pretty_N_go_no_underscore x s :
  occurs underscore s = false → occurs underscore (pretty_N_go x s) = false.
Proof.
  revert s. induction (N.lt_wf_0 x) as [x _ IH]; intros s Hs.
  assert (x = 0 ∨ 0 < x)%N as [->|?] by lia; [by rewrite pretty_N_go_0|].
  rewrite pretty_N_go_step by done. apply IH; [by apply N.div_lt|].
  simpl. rewrite Hs. unfold pretty_N_char. by repeat case_match.
Qed.

Lemma pretty_Z_no_underscore (z : Z) : occurs underscore (pretty z) = false.
Proof.
  assert (∀ n : N, occurs underscore (pretty n) = false) as HN.
  { intros n. unfold pretty, pretty_N. case_decide; [done|].
    by apply pretty_N_go_no_underscore. }
  destruct z as [|p|p]; [done|apply (HN (N.pos p))|].
  change (pretty (Z.neg p)) with ("-" +:+ pretty (N.pos p)). simpl. apply HN.
Qed.

Lemma split_at_separator c a a' b b' :
  occurs c a = false → occurs c a' = false →
  a +:+ String c b = a' +:+ String c b' → a = a' ∧ b = b'.
Proof.
  revert a'. induction a as [|x a IH]; intros [|x' a']; simpl.
  - by intros _ _ [= ->].
  - intros _ Hx' [= <- _]. by rewrite Ascii.eqb_refl in Hx'.
  - intros Hx _ [= -> _]. by rewrite Ascii.eqb_refl in Hx.
  - intros [_ Ha]%orb_false_elim [_ Ha']%orb_false_elim [= -> Heq].
    destruct (IH a' Ha Ha' Heq) as [-> ->]. done.
Qed.

Lemma complete_task_key_inj (orderId orderId' now now' : Z) :
  offlineKey (complete_task_key orderId now) = offlineKey (complete_task_key orderId' now')
  ↔ orderId = orderId' ∧ now = now'.
Proof.
  split; [|by intros [-> ->]].
  unfold offlineKey, complete_task_key. intros Heq.
  apply (inj (String.append offline_prefix)) in Heq.
  apply (inj (String.append "complete_task_")) in Heq.
  change (pretty orderId +:+ String underscore (pretty now)
          = pretty orderId' +:+ String underscore (pretty now')) in Heq.
  apply split_at_separator in Heq; [|apply pretty_Z_no_underscore..].
  destruct Heq as [Hid Hnow]. split; by apply (inj pretty).
Qed.

(** X11. Two failed [completeTask] calls that differ in the order or in
    the millisecond of the attempt are stored under different keys: after
    the second one both envelopes are queued and the first still holds the
    first submission. *)
Theorem failed_completions_are_queued_separately
    (taskData taskData' : PackoutTaskData) (server server' : reply json)
    (now now' : Z) (d : Device) :
  delivery_failed server → delivery_failed server' → failing d = false →
  (order_id taskData, now) ≠ (order_id taskData', now') →
  let key := complete_task_key (order_id taskData) now in
  let key' := complete_task_key (order_id taskData') now' in
  let d2 := (completeTask taskData' server' now'
               (completeTask taskData server now d).2).2 in
  queue d2 = {[offlineKey key; offlineKey key']} ∪ queue d
  ∧ offlineKey key ≠ offlineKey key'
  ∧ (getOfflineData key d2).1
    = Fulfilled
        (Some (JObj (assign "offline_timestamp" (JStr (toISOString now))
                       (taskDataProps taskData)))).
Proof.
  intros Hfail Hfail' Hd Hdiff. unfold completeTask.
  edestruct (failed_write_run server) as (e & d1 & -> & Hd1 & Hkey1 & Hrest1); [done..|].
  edestruct (failed_write_run server') as (e' & d2 & -> & Hd2 & Hkey2 & Hrest2); [done..|].
  cbn [snd].
  assert (offlineKey (complete_task_key (order_id taskData) now)
          ≠ offlineKey (complete_task_key (order_id taskData') now')) as Hne.
  { rewrite complete_task_key_inj. intros [Hid Hnow]. apply Hdiff. by rewrite Hid, Hnow. }
  split; [|split; [done|]].
  - erewrite (queue_after_write d1 d2) by done.
    erewrite (queue_after_write d d1) by done.
    rewrite (assoc_L (∪)). f_equal. apply (comm_L (∪)).
  - erewrite getOfflineData_found; [done..|].
    rewrite Hrest2; [done| |done].
    unfold offlineKey. reflexivity.
Qed.

(** ** Reads that keep a copy *)

(** X12. A cached read ([getOrders], [getTasks], [getRoutingGuides])
    that succeeded with a truthy body keeps it: when the next request
    fails, the call fulfils with the body of the earlier answer instead of
    rejecting. *)
Theorem cached_read_serves_the_last_answer
    (key errorLine hitLine : string) (status : Z) (data : json)
    (server' : reply json) (now now' : Z) (d : Device) :
  failing d = false → (200 <=? status) && (status <? 300) = true →
  truthy data = true → delivery_failed server' →
  ∃ d1 d2,
    cached_get key errorLine hitLine (Response status data) now d = (Fulfilled data, d1)
    ∧ cached_get key errorLine hitLine server' now' d1 = (Fulfilled data, d2).
Proof.
  intros Hd Hok Hdata Hfail. unfold cached_get at 1, try_catch, bind at 1.
  rewrite apiClient_request_ok by done. unfold bind at 1.
  rewrite storeOfflineData_ok by done. eexists. unfold ret at 1.
  match goal with |- ∃ d2, (_, ?dd) = _ ∧ _ => set (d1 := dd) end.
  assert (failing d1 = false) as Hd1 by done.
  destruct (apiClient_request_failed server' d1 Hfail Hd1) as (e & d2 & Hreq & Hd2 & Hsame).
  unfold cached_get, try_catch, bind at 1. rewrite Hreq. unfold bind at 1, log.
  unfold bind at 1. erewrite getOfflineData_found; [| done |].
  - rewrite Hdata. unfold bind, ret. eexists. split; reflexivity.
  - unfold printed. cbn [items]. rewrite Hsame by reflexivity.
    subst d1. unfold with_items. cbn [items]. apply lookup_insert_eq.
Qed.

End FailedWrites.

(** ** What leaves the offline queue alone *)

Section QueueFrame.
Context {A B : Type}.

Lemma ret_alone (a : A) : leaves_queue_alone (ret a).
Proof. by intros d k _. Qed.

Lemma throw_alone e : leaves_queue_alone (throw (A:=A) e).
Proof. by intros d k _. Qed.

Lemma bind_alone (c : Async A) (k : A → Async B) :
  leaves_queue_alone c → (∀ a, leaves_queue_alone (k a)) →
  leaves_queue_alone (bind c k).
Proof.
  intros Hc Hk d key Hkey. unfold bind. specialize (Hc d key Hkey).
  destruct (c d) as [[a|e] d'] eqn:Hcd; simpl in *; [|done].
  by rewrite Hk.
Qed.

Lemma try_catch_alone (c : Async A) (h : Error → Async A) :
  leaves_queue_alone c → (∀ e, leaves_queue_alone (h e)) →
  leaves_queue_alone (try_catch c h).
Proof.
  intros Hc Hh d key Hkey. unfold try_catch. specialize (Hc d key Hkey).
  destruct (c d) as [[a|e] d'] eqn:Hcd; simpl in *; [done|].
  by rewrite Hh.
Qed.

Lemma storage_call_alone (f : gmap string text → A * gmap string text) :
  (∀ m k, is_offline_key k = true → (f m).2 !! k = m !! k) →
  leaves_queue_alone (storage_call f).
Proof.
  intros Hf d k Hk. unfold storage_call. destruct (failing d); simpl; [done|].
  specialize (Hf (items d) k Hk). by destruct (f (items d)).
Qed.

End QueueFrame.

Lemma log_alone line : leaves_queue_alone (log line).
Proof. by intros d k _. Qed.

Lemma getItem_alone k : leaves_queue_alone (getItem k).
Proof. by apply storage_call_alone. Qed.

Lemma getAllKeys_alone : leaves_queue_alone getAllKeys.
Proof. by apply storage_call_alone. Qed.

Lemma setItem_alone k v : is_offline_key k = false → leaves_queue_alone (setItem k v).
Proof.
  intros Hk. apply storage_call_alone. intros m k' Hk'. simpl.
  rewrite lookup_insert_ne; [done|]. intros ->. congruence.
Qed.

Lemma removeItem_alone k : is_offline_key k = false → leaves_queue_alone (removeItem k).
Proof.
  intros Hk. apply storage_call_alone. intros m k' Hk'. simpl.
  rewrite lookup_delete_ne; [done|]. intros ->. congruence.
Qed.

Lemma multiRemove_alone ks :
  forallb (λ k, negb (is_offline_key k)) ks = true → leaves_queue_alone (multiRemove ks).
Proof.
  intros Hks. apply storage_call_alone. intros m k Hk. simpl.
  rewrite remove_all_lookup. destruct (decide (k ∈ ks)) as [Hkin|]; [|done].
  rewrite forallb_forall in Hks. apply list_elem_of_In, Hks in Hkin.
  by rewrite Hk in Hkin.
Qed.

Lemma multiSet_alone kvs :
  forallb (λ kv, negb (is_offline_key kv.1)) kvs = true → leaves_queue_alone (multiSet kvs).
Proof.
  intros Hks. apply storage_call_alone. intros m k Hk. simpl.
  apply set_all_lookup_other. intros ([k' v] & -> & Hin)%list_elem_of_fmap.
  rewrite forallb_forall in Hks. apply list_elem_of_In, Hks in Hin.
  simpl in *. by rewrite Hk in Hin.
Qed.

Create HintDb alone discriminated.

#[export] Hint Resolve ret_alone throw_alone log_alone getItem_alone getAllKeys_alone
  : alone.
#[export] Hint Extern 1 (leaves_queue_alone (setItem _ _)) =>
  apply setItem_alone; reflexivity : alone.
#[export] Hint Extern 1 (leaves_queue_alone (removeItem _)) =>
  apply removeItem_alone; reflexivity : alone.
#[export] Hint Extern 1 (leaves_queue_alone (multiRemove _)) =>
  apply multiRemove_alone; reflexivity : alone.
#[export] Hint Extern 1 (leaves_queue_alone (multiSet _)) =>
  apply multiSet_alone; reflexivity : alone.

(** Splits a computation along its binds, handlers and case distinctions
    and closes each piece with a lemma of the [alone] database. *)
Ltac alone :=
  repeat first
    [ solve [auto 1 with alone nocore]
    | apply bind_alone | apply try_catch_alone
    | match goal with
      | |- ∀ _, _ => intro
      | |- leaves_queue_alone (match ?x with _ => _ end) => destruct x
      | |- leaves_queue_alone (if ?b then _ else _) => destruct b
      end ].

Lemma request_interceptor_alone : leaves_queue_alone request_interceptor.
Proof. unfold request_interceptor. alone. Qed.
#[export] Hint Resolve request_interceptor_alone : alone.

Lemma response_interceptor_alone {A} (r : reply A) :
  leaves_queue_alone (response_interceptor r).
Proof. unfold response_interceptor. alone. Qed.
#[export] Hint Resolve response_interceptor_alone : alone.

Lemma apiClient_request_alone {A} (r : reply A) : leaves_queue_alone (apiClient_request r).
Proof. unfold apiClient_request. alone. Qed.
#[export] Hint Resolve apiClient_request_alone : alone.

Lemma axios_request_alone {A} (r : reply A) : leaves_queue_alone (axios_request r).
Proof. unfold axios_request. alone. Qed.
#[export] Hint Resolve axios_request_alone : alone.

Lemma storeTokens_alone tokenData username :
  leaves_queue_alone (storeTokens tokenData username).
Proof.
  unfold storeTokens. destruct username as [u|]; [destruct (string_truthy u)|]; alone.
Qed.
#[export] Hint Resolve storeTokens_alone : alone.

Lemma clearTokens_alone : leaves_queue_alone clearTokens.
Proof. unfold clearTokens. alone. Qed.
#[export] Hint Resolve clearTokens_alone : alone.

Lemma isAuthenticated_alone : leaves_queue_alone isAuthenticated.
Proof. unfold isAuthenticated. alone. Qed.
#[export] Hint Resolve isAuthenticated_alone : alone.

Lemma getOfflineData_alone `{Platform} key : leaves_queue_alone (getOfflineData key).
Proof. unfold getOfflineData. alone. Qed.
#[export] Hint Resolve getOfflineData_alone : alone.

Lemma sync_each_alone offlineKeys : leaves_queue_alone (sync_each offlineKeys).
Proof. induction offlineKeys as [|key rest IH]; simpl; alone. Qed.
#[export] Hint Resolve sync_each_alone : alone.

Lemma syncOfflineData_alone : leaves_queue_alone syncOfflineData.
Proof. unfold syncOfflineData. alone. Qed.
#[export] Hint Resolve syncOfflineData_alone : alone.

Lemma getCurrentUser_alone server : leaves_queue_alone (getCurrentUser server).
Proof. unfold getCurrentUser. alone. Qed.
#[export] Hint Resolve getCurrentUser_alone : alone.

Lemma checkConnectivity_alone health : leaves_queue_alone (checkConnectivity health).
Proof. unfold checkConnectivity. alone. Qed.
#[export] Hint Resolve checkConnectivity_alone : alone.

Lemma syncPendingData_alone health : leaves_queue_alone (syncPendingData health).
Proof. unfold syncPendingData. alone. Qed.
#[export] Hint Resolve syncPendingData_alone : alone.

Lemma savePackoutProgress_alone `{Platform} order s now :
  leaves_queue_alone (savePackoutProgress order s now).
Proof. unfold savePackoutProgress. alone. Qed.
#[export] Hint Resolve savePackoutProgress_alone : alone.

Lemma fetchOrderData_alone s barcode server :
  leaves_queue_alone (fetchOrderData s barcode server).
Proof. unfold fetchOrderData. alone. Qed.
#[export] Hint Resolve fetchOrderData_alone : alone.

Lemma handleBarCodeRead_alone s data server :
  leaves_queue_alone (handleBarCodeRead s data server).
Proof. unfold handleBarCodeRead. alone. Qed.
#[export] Hint Resolve handleBarCodeRead_alone : alone.

Lemma getToken_alone : leaves_queue_alone getToken.
Proof. unfold getToken. alone. Qed.
#[export] Hint Resolve getToken_alone : alone.

Lemma storeTokens_body_alone tokenData username :
  leaves_queue_alone (storeTokens_body tokenData username).
Proof.
  unfold storeTokens_body. destruct username as [u|]; [destruct (string_truthy u)|]; alone.
Qed.
#[export] Hint Resolve storeTokens_body_alone : alone.

Lemma login_alone credentials server : leaves_queue_alone (login credentials server).
Proof. unfold login. alone. Qed.
#[export] Hint Resolve login_alone : alone.

Lemma reported_request_alone errorLine server :
  leaves_queue_alone (reported_request errorLine server).
Proof. unfold reported_request. alone. Qed.
#[export] Hint Resolve reported_request_alone : alone.

Lemma initializeApp_alone app me health health' :
  leaves_queue_alone (initializeApp app me health health').
Proof. unfold initializeApp, token_validation_failed. alone. Qed.
#[export] Hint Resolve initializeApp_alone : alone.

Lemma loadPackoutProgress_alone `{Platform} order s :
  leaves_queue_alone (loadPackoutProgress order s).
Proof. unfold loadPackoutProgress. alone. Qed.
#[export] Hint Resolve loadPackoutProgress_alone : alone.

Lemma handleChecklistItemToggle_alone `{Platform} order s stepIndex itemId now :
  leaves_queue_alone (handleChecklistItemToggle order s stepIndex itemId now).
Proof. unfold handleChecklistItemToggle. alone. Qed.
#[export] Hint Resolve handleChecklistItemToggle_alone : alone.

Lemma handleCameraCapture_alone `{Platform} order s uri now :
  leaves_queue_alone (handleCameraCapture order s uri now).
Proof. unfold handleCameraCapture. alone. Qed.
#[export] Hint Resolve handleCameraCapture_alone : alone.

Lemma handleNextStep_alone `{Platform} order s now :
  leaves_queue_alone (handleNextStep order s now).
Proof. unfold handleNextStep. alone. Qed.
#[export] Hint Resolve handleNextStep_alone : alone.

Lemma handlePreviousStep_alone `{Platform} order s now :
  leaves_queue_alone (handlePreviousStep order s now).
Proof. unfold handlePreviousStep. alone. Qed.
#[export] Hint Resolve handlePreviousStep_alone : alone.

Lemma handleSubmitPackout_alone `{Platform} order s server now :
  leaves_queue_alone (handleSubmitPackout order s server now).
Proof. unfold handleSubmitPackout. alone. Qed.
#[export] Hint Resolve handleSubmitPackout_alone : alone.

Lemma accepted_spec {A} (server : reply A) : accepted server = false ↔ delivery_failed server.
Proof. destruct server as [status data|]; simpl; [done|]. by split. Qed.

(** A request that is not accepted rejects. *)
Lemma apiClient_request_rejects {A} (server : reply A) (d : Device) :
  delivery_failed server → ∃ e d', apiClient_request server d = (Rejected e, d').
Proof.
  intros Hfail. unfold apiClient_request, bind. rewrite request_interceptor_run.
  destruct server as [status data|]; simpl in *.
  - rewrite Hfail. unfold bind.
    match goal with |- context [match ?c with _ => _ end] =>
      destruct c as [[?|?] ?] end; by do 2 eexists.
  - by do 2 eexists.
Qed.

(** ** What writes one envelope and leaves the others *)

Section OthersFrame.
Context {A B : Type}.

Lemma alone_others key (c : Async A) : leaves_queue_alone c → leaves_others_alone key c.
Proof. intros Hc d k Hk _. by apply Hc. Qed.

Lemma bind_others key (c : Async A) (k : A → Async B) :
  leaves_others_alone key c → (∀ a, leaves_others_alone key (k a)) →
  leaves_others_alone key (bind c k).
Proof.
  intros Hc Hk d key' Hkey Hne. unfold bind. specialize (Hc d key' Hkey Hne).
  destruct (c d) as [[a|e] d'] eqn:Hcd; simpl in *; [|done].
  by rewrite Hk.
Qed.

Lemma try_catch_others key (c : Async A) (h : Error → Async A) :
  leaves_others_alone key c → (∀ e, leaves_others_alone key (h e)) →
  leaves_others_alone key (try_catch c h).
Proof.
  intros Hc Hh d key' Hkey Hne. unfold try_catch. specialize (Hc d key' Hkey Hne).
  destruct (c d) as [[a|e] d'] eqn:Hcd; simpl in *; [done|].
  by rewrite Hh.
Qed.

End OthersFrame.

Lemma storeOfflineData_others `{Platform} key data now :
  leaves_others_alone key (storeOfflineData key data now).
Proof.
  intros d k Hk Hne. unfold storeOfflineData, try_catch, setItem, storage_call.
  destruct (failing d); simpl; [done|]. by rewrite lookup_insert_ne.
Qed.

(** A write that fails rewrites at most the envelope under its own key. *)
Lemma failed_write_others `{Platform} (server : reply json) line key payload now :
  leaves_others_alone key
    (try_catch (apiClient_request server)
       (λ error, log line >> storeOfflineData key payload now >> throw error)).
Proof.
  apply try_catch_others; [apply alone_others, apiClient_request_alone|].
  intros e. apply bind_others; [apply alone_others, log_alone|]. intros _.
  apply bind_others; [apply storeOfflineData_others|]. intros _.
  apply alone_others, throw_alone.
Qed.

(** A write the server accepts does not reach its [catch]. *)
Lemma accepted_request_alone {A} (server : reply A) (h : Error → Async A) :
  accepted server = true → leaves_queue_alone (try_catch (apiClient_request server) h).
Proof.
  intros Hok d k Hk. destruct server as [status data|]; [|done]. unfold try_catch.
  rewrite apiClient_request_ok' by done. simpl. by apply request_interceptor_alone.
Qed.

Lemma cached_get_others `{Platform} key errorLine hitLine server now :
  leaves_others_alone key (cached_get key errorLine hitLine server now).
Proof.
  unfold cached_get. apply try_catch_others.
  - apply bind_others; [apply alone_others, apiClient_request_alone|]. intros data.
    apply bind_others; [apply storeOfflineData_others|]. intros _.
    apply alone_others, ret_alone.
  - intros e. apply alone_others. alone.
Qed.

(** A cached read the server does not answer writes nothing. *)
Lemma failed_read_alone `{Platform} key errorLine hitLine server now :
  accepted server = false → leaves_queue_alone (cached_get key errorLine hitLine server now).
Proof.
  intros Hfail%accepted_spec d k Hk. unfold cached_get, try_catch. unfold bind at 1.
  pose proof (apiClient_request_alone server d k Hk) as Hreq.
  destruct (apiClient_request_rejects server d Hfail) as (e & d1 & Hrun).
  rewrite Hrun in *. simpl in Hreq. rewrite <- Hreq.
  assert (leaves_queue_alone
            (log errorLine >>
             await offlineData := getOfflineData key in
             match offlineData with
             | Some v => if truthy v then log hitLine >> ret v else throw e
             | None => throw e
             end)) as Hhandler by alone.
  exact (Hhandler d1 k Hk).
Qed.

Section QueueWriters.
Context `{Platform}.

(** X13. The offline queue changes only through the functions of
    [api.ts] that are written to change it, and through [handleLogout],
    which calls [logout]. Every other call ([login], the token functions,
    [getOfflineData], [syncOfflineData], [checkConnectivity],
    [syncPendingData], [getCurrentUser], the eight requests that only
    report their error, [initializeApp], and every handler of the scanner
    and packout screens, [handleSubmitPackout] included) leaves each
    [offline_] item as it is, whatever the server answers and whether or
    not the store works: none adds an envelope, removes one or rewrites
    one. *)
Theorem queue_changes_only_through_its_writers (c : Call) (now : Z) (d : Device) (k : string) :
  writes_queue c = false → is_offline_key k = true →
  items (perform c now d) !! k = items d !! k.
Proof.
  intros Hc. revert d k.
  destruct c; try discriminate Hc; simpl;
    match goal with |- ∀ d k, _ → items (?f d).2 !! k = _ =>
      change (leaves_queue_alone f) end.
  - apply storeTokens_alone.
  - unfold getToken. alone.
  - apply clearTokens_alone.
  - apply isAuthenticated_alone.
  - apply getOfflineData_alone.
  - apply syncOfflineData_alone.
  - unfold login. alone.
  - apply getCurrentUser_alone.
  - apply checkConnectivity_alone.
  - apply syncPendingData_alone.
  - apply reported_request_alone.
  - apply reported_request_alone.
  - apply reported_request_alone.
  - apply reported_request_alone.
  - apply reported_request_alone.
  - apply reported_request_alone.
  - apply reported_request_alone.
  - apply reported_request_alone.
  - apply initializeApp_alone.
  - apply handleBarCodeRead_alone.
  - apply fetchOrderData_alone.
  - unfold loadPackoutProgress. alone.
  - apply savePackoutProgress_alone.
  - unfold handleChecklistItemToggle. alone.
  - unfold handleCameraCapture. alone.
  - unfold handleNextStep. alone.
  - unfold handlePreviousStep. alone.
  - unfold handleSubmitPackout. alone.
Qed.

(** A key leaves the queue only through a call that clears it. *)
Lemma key_leaves_queue_by_clearing (c : Call) (now : Z) (d : Device) (k : string) :
  k ∈ queue d → k ∉ queue (perform c now d) → clears_envelope c k.
Proof.
  rewrite !elem_of_queue. intros [Hk Hin] Hout.
  destruct c; simpl; try exact I;
    try (apply Hout; split; [done|];
         apply (call_keeps_envelopes _ now d);
           [intros ? Hclears; exact Hclears|done|done]).
  destruct key as [key|]; [|exact I].
  destruct (string_truthy key) eqn:Hkey.
  - destruct (decide (k = offlineKey key)) as [|Hne]; [by right|].
    exfalso. apply Hout. split; [done|]. simpl. unfold clearOfflineData. rewrite Hkey.
    unfold try_catch, removeItem, storage_call. destruct (failing d); simpl; [done|].
    by rewrite lookup_delete_ne.
  - left. unfold string_truthy in Hkey.
    by apply negb_false_iff, String.eqb_eq in Hkey.
Qed.

(** C5, amended: a queued envelope leaves the queue only through
    [logout], also when [handleLogout] calls it, or [clearOfflineData]
    (without a key: every envelope; with a key: that envelope), sent or
    not; and the item under an [offline_] key is changed only by one of
    these or by a call that stores under that key, which replaces what was
    queued there: [storeOfflineData] with the key, a cached read that is
    answered, a write that fails. Every other function of [api.ts] and
    every handler leaves each envelope as it is; [syncOfflineData] in
    particular removes and changes none. So an envelope that is gone after
    a sequence of calls was cleared by one of them. *)
Theorem envelope_leaves_only_by_clear_or_logout
    (c : Call) (now : Z) (d : Device) (k : string) :
  (k ∈ queue d → k ∉ queue (perform c now d) → clears_envelope c k)
  ∧ (is_offline_key k = true → items (perform c now d) !! k ≠ items d !! k →
     clears_envelope c k ∨ rewrites_envelope c now k)
  ∧ (∀ calls d0,
       k ∈ queue d0 → k ∉ queue (run calls d0) →
       ∃ c' now', (c', now') ∈ calls ∧ clears_envelope c' k).
Proof.
  split; [apply key_leaves_queue_by_clearing|]. split.
  2:{ intros calls. induction calls as [|[c' now'] rest IH]; intros d0 Hin Hout;
        [done|]. simpl in Hout.
      destruct (decide (k ∈ queue (perform c' now' d0))) as [Hkept|Hgone].
      - destruct (IH _ Hkept Hout) as (c'' & now'' & Hmem & Hclears).
        exists c'', now''. split; [by right|done].
      - exists c', now'. split; [by left|]. by eapply key_leaves_queue_by_clearing. }
  - intros Hk Hchanged.
    destruct c; simpl in *;
      try (left; exact I);
      try (exfalso; apply Hchanged;
           match goal with |- items (?f d).2 !! k = _ =>
             let Ha := fresh in
             assert (leaves_queue_alone f) as Ha
               by first [solve [auto 1 with alone nocore]|apply reported_request_alone];
             exact (Ha d k Hk)
           end).
    + right. destruct (decide (k = offlineKey key)) as [|Hne]; [done|].
      exfalso. by apply Hchanged, storeOfflineData_others.
    + left. destruct key as [key|]; [|exact I].
      destruct (string_truthy key) eqn:Hkey.
      * destruct (decide (k = offlineKey key)) as [|Hne]; [by right|].
        exfalso. apply Hchanged. unfold clearOfflineData. rewrite Hkey.
        unfold try_catch, removeItem, storage_call. destruct (failing d); simpl; [done|].
        by rewrite lookup_delete_ne.
      * left. unfold string_truthy in Hkey.
        by apply negb_false_iff, String.eqb_eq in Hkey.
    + right. destruct (accepted server) eqn:Hok.
      * split; [done|]. destruct (decide (k = offlineKey "orders")) as [|Hne]; [done|].
        exfalso. apply Hchanged. unfold getOrders.
        exact (cached_get_others _ _ _ server now d k Hk Hne).
      * exfalso. apply Hchanged. unfold getOrders.
        exact (failed_read_alone _ _ _ server now Hok d k Hk).
    + right. destruct (accepted server) eqn:Hok.
      * split; [done|].
        destruct (decide (k = offlineKey "packout_tasks")) as [|Hne]; [done|].
        exfalso. apply Hchanged. unfold getTasks.
        exact (cached_get_others _ _ _ server now d k Hk Hne).
      * exfalso. apply Hchanged. unfold getTasks.
        exact (failed_read_alone _ _ _ server now Hok d k Hk).
    + right. destruct (accepted server) eqn:Hok.
      * split; [done|].
        destruct (decide (k = offlineKey "routing_guides")) as [|Hne]; [done|].
        exfalso. apply Hchanged. unfold getRoutingGuides.
        exact (cached_get_others _ _ _ server now d k Hk Hne).
      * exfalso. apply Hchanged. unfold getRoutingGuides.
        exact (failed_read_alone _ _ _ server now Hok d k Hk).
    + right. destruct (accepted server) eqn:Hok.
      * exfalso. apply Hchanged. by apply accepted_request_alone.
      * split; [done|].
        destruct (decide (k = offlineKey ("order_status_update_" +:+ pretty orderId)))
          as [|Hne]; [done|].
        exfalso. apply Hchanged. by apply failed_write_others.
    + right. destruct (accepted server) eqn:Hok.
      * exfalso. apply Hchanged. by apply accepted_request_alone.
      * split; [done|].
        destruct (decide (k = offlineKey ("create_task_" +:+ pretty now)))
          as [|Hne]; [done|].
        exfalso. apply Hchanged. by apply failed_write_others.
    + right. destruct (accepted server) eqn:Hok.
      * exfalso. apply Hchanged. by apply accepted_request_alone.
      * split; [done|].
        destruct (decide (k = offlineKey ("update_task_" +:+ pretty taskId)))
          as [|Hne]; [done|].
        exfalso. apply Hchanged. by apply failed_write_others.
    + right. destruct (accepted server) eqn:Hok.
      * exfalso. apply Hchanged. by apply accepted_request_alone.
      * split; [done|].
        destruct (decide (k = offlineKey (complete_task_key (order_id taskData) now)))
          as [|Hne]; [done|].
        exfalso. apply Hchanged. by apply failed_write_others.
Qed.

(** X14. The requests that only report their error
    ([getOrderByBarcode], [getOrder], [uploadPhoto], [getPhotos],
    [updatePhoto], [getRoutingGuide], [getWorkerStats], [getWorkerTasks])
    reject when the request fails, with one console line, and store nothing
    for a later sync: a failed photo upload leaves no envelope. *)
Theorem reported_request_failure_stores_nothing
    (errorLine : string) (server : reply json) (d : Device) :
  delivery_failed server →
  ∃ e d', reported_request errorLine server d = (Rejected e, d')
          ∧ last (console d') = Some errorLine
          ∧ queue d' = queue d.
Proof.
  intros Hfail.
  assert (leaves_queue_alone (reported_request errorLine server)) as Halone
    by (unfold reported_request; alone).
  assert (∃ e d1, apiClient_request server d = (Rejected e, d1)) as (e & d1 & Hreq).
  { unfold apiClient_request, bind. rewrite request_interceptor_run.
    destruct server as [status data|]; simpl in *.
    - rewrite Hfail. unfold bind.
      match goal with |- context [match ?c with _ => _ end] =>
        destruct c as [[?|?] ?] end; by do 2 eexists.
    - by do 2 eexists. }
  exists e, (printed errorLine d1). split; [|split].
  - unfold reported_request, try_catch. rewrite Hreq. reflexivity.
  - simpl. by rewrite last_snoc.
  - specialize (Halone d). unfold reported_request, try_catch in Halone.
    rewrite Hreq in Halone. simpl in Halone.
    apply set_eq. intros k. rewrite !elem_of_queue. simpl.
    split; intros [Hk Hin]; (split; [done|]); by rewrite ?Halone in *.
Qed.

End QueueWriters.

(** ** networkUtils *)

(** X15. [checkConnectivity] never rejects; it answers [true] exactly
    when the health request is answered with status 200 (another 2xx
    status, any other status and no answer at all give [false]). *)
Theorem checkConnectivity_true_iff_status_200 (health : reply json) (d : Device) :
  ∃ connected d',
    checkConnectivity health d = (Fulfilled connected, d')
    ∧ (connected = true ↔ ∃ body, health = Response 200 body).
Proof.
  unfold checkConnectivity, try_catch, bind at 1.
  destruct (apiClient_request health d) as [[body|e] d1] eqn:Hreq.
  - apply apiClient_request_inv in Hreq as [(status & -> & Hok) _]. unfold ret.
    do 2 eexists. split; [reflexivity|]. rewrite Z.eqb_eq. split.
    + intros ->. by exists body.
    + by intros (body' & [= -> _]).
  - unfold ret. do 2 eexists. split; [reflexivity|]. split; [done|].
    intros (body & ->). by rewrite apiClient_request_ok' in Hreq.
Qed.

(** ** The packout screen: what the handlers do to the state *)

Section PackoutHandlers.
Context `{Platform}.
Variable order : ScannedOrder.t.

Lemma steps_changed_at_refl i s : steps_changed_at i s s.
Proof. by repeat split. Qed.

Lemma steps_changed_at_mutated i s r step step' :
  step_at s (packoutSteps s) i = Some (r, step) →
  steps_changed_at i s (with_objects (<[r := step']> (objects s)) s).
Proof.
  intros [Hi _]%step_at_inv. repeat split; simpl; [apply length_insert|].
  intros r' Hr'. rewrite list_lookup_insert_ne; [done|]. intros ->. by apply Hr'.
Qed.

Lemma toggle_after (s : Screen) (stepIndex itemId now : Z) (d : Device) :
  let s' := after s (handleChecklistItemToggle order s stepIndex itemId now d) in
  steps_changed_at stepIndex s s' ∧ showCompletionModal s' = showCompletionModal s.
Proof.
  unfold after, handleChecklistItemToggle.
  destruct (step_at s (packoutSteps s) stepIndex) as [[r step]|] eqn:Hstep;
    [|split; [apply steps_changed_at_refl|done]].
  destruct (find _ _); [|split; [apply steps_changed_at_refl|done]].
  unfold bind. rewrite savePackoutProgress_run. simpl. split; [|done].
  exact (steps_changed_at_mutated _ s r step _ Hstep).
Qed.

Lemma capture_after (s : Screen) (uri : string) (now : Z) (d : Device) :
  let s' := after s (handleCameraCapture order s uri now d) in
  steps_changed_at (currentStepIndex s) s s'
  ∧ showCompletionModal s' = showCompletionModal s.
Proof.
  unfold after, handleCameraCapture, try_catch.
  destruct (step_at s (packoutSteps s) (currentStepIndex s)) as [[r step]|] eqn:Hstep; simpl.
  - unfold bind. rewrite savePackoutProgress_run. simpl. split; [|done].
    exact (steps_changed_at_mutated _ s r step _ Hstep).
  - by repeat split.
Qed.

Lemma submit_after (s : Screen) (server : reply json) (now : Z) (d : Device) :
  ∃ title message d',
    handleSubmitPackout order s server now d
    = (Fulfilled (setShowCompletionModal false
                    (setSubmitting false (Alert_alert title message s))), d').
Proof.
  unfold handleSubmitPackout, bind, try_catch.
  destruct (getItem _ d) as [[token|e] d1]; simpl; [|by eexists _, _, _].
  destruct (submissionData order s now); simpl; [|by eexists _, _, _].
  destruct (axios_request server d1) as [[j|e] d2]; simpl; [|by eexists _, _, _].
  destruct (removeItem _ d2) as [[[]|e] d3]; simpl; by eexists _, _, _.
Qed.

Lemma length_steps_of s : length (steps_of s) = length (packoutSteps s).
Proof. unfold steps_of. apply length_fmap. Qed.

Lemma well_formed_view s : well_formed s ↔ ∀ o, o ∈ steps_of s → is_Some o.
Proof.
  unfold well_formed, steps_of. split.
  - intros Hwf o (r & -> & Hr)%list_elem_of_fmap. by apply Hwf.
  - intros Hall r Hr. apply Hall, list_elem_of_fmap. by exists r.
Qed.

(** The properties of a state that the progress entry keeps are
    properties of its view. *)
Lemma has_current_step_view x y : same_view x y → has_current_step y → has_current_step x.
Proof.
  intros [Hsteps Hidx] [Hwf Hrange]. split.
  - apply well_formed_view. rewrite Hsteps. by apply well_formed_view.
  - by rewrite Hidx, <- (length_steps_of x), Hsteps, length_steps_of.
Qed.

Lemma flags_derived_view x y : same_view x y → flags_derived y → flags_derived x.
Proof.
  intros [Hsteps Hidx] [Hwf Hconsistent]. split.
  - apply well_formed_view. rewrite Hsteps. by apply well_formed_view.
  - unfold consistent. by rewrite Hsteps.
Qed.

Lemma has_current_step_current s :
  has_current_step s → is_Some (step_at s (packoutSteps s) (currentStepIndex s)).
Proof.
  intros [Hwf Hrange]. unfold step_at, at_index.
  destruct (Z.ltb_spec (currentStepIndex s) 0) as [|_]; [lia|].
  destruct (lookup_lt_is_Some_2 (packoutSteps s) (Z.to_nat (currentStepIndex s)))
    as [r Hr]; [lia|].
  rewrite Hr. simpl. destruct (Hwf r) as [step Hstep]; [by eapply list_elem_of_lookup_2|].
  unfold ref in *. rewrite Hstep. by eexists.
Qed.

Lemma well_formed_same s s' :
  objects s' = objects s → packoutSteps s' = packoutSteps s →
  well_formed s → well_formed s'.
Proof. intros Hobj Hsteps Hwf r. rewrite Hsteps, Hobj. apply Hwf. Qed.

Lemma well_formed_changed i s s' : steps_changed_at i s s' → well_formed s → well_formed s'.
Proof.
  intros (Hsteps & _ & Hlen & _) Hwf r. rewrite Hsteps. intros Hr.
  apply lookup_lt_is_Some. rewrite Hlen. apply lookup_lt_is_Some. by apply Hwf.
Qed.

Lemma has_current_step_changed i s s' :
  steps_changed_at i s s' → has_current_step s → has_current_step s'.
Proof.
  intros Hchanged [Hwf Hrange]. split; [by eapply well_formed_changed|].
  by destruct Hchanged as (-> & -> & _).
Qed.

Lemma next_after (s : Screen) (now : Z) (d : Device) :
  let s' := after s (handleNextStep order s now d) in
  objects s' = objects s ∧ packoutSteps s' = packoutSteps s
  ∧ ((currentStepIndex s' = currentStepIndex s
      ∧ showCompletionModal s' = showCompletionModal s)
     ∨ ∃ r step,
         step_at s (packoutSteps s) (currentStepIndex s) = Some (r, step)
         ∧ Step.completed step = true
         ∧ ((currentStepIndex s < last_index s
             ∧ currentStepIndex s' = currentStepIndex s + 1
             ∧ showCompletionModal s' = showCompletionModal s)
            ∨ (last_index s ≤ currentStepIndex s
               ∧ currentStepIndex s' = currentStepIndex s
               ∧ showCompletionModal s' = true))).
Proof.
  unfold after, handleNextStep.
  destruct (step_at s (packoutSteps s) (currentStepIndex s)) as [[r step]|] eqn:Hstep;
    [|by repeat split; left].
  destruct (Step.completed step) eqn:Hc; simpl; [|by repeat split; left].
  fold (last_index s). destruct (Z.ltb_spec (currentStepIndex s) (last_index s)).
  - unfold bind. rewrite savePackoutProgress_run. simpl. do 2 (split; [done|]).
    right. exists r, step. do 2 (split; [done|]). by left.
  - simpl. do 2 (split; [done|]). right. exists r, step. do 2 (split; [done|]). by right.
Qed.

Lemma previous_after (s : Screen) (now : Z) (d : Device) :
  let s' := after s (handlePreviousStep order s now d) in
  objects s' = objects s ∧ packoutSteps s' = packoutSteps s
  ∧ showCompletionModal s' = showCompletionModal s
  ∧ currentStepIndex s'
    = if 0 <? currentStepIndex s then currentStepIndex s - 1 else currentStepIndex s.
Proof.
  unfold after, handlePreviousStep. destruct (0 <? currentStepIndex s); [|done].
  unfold bind. by rewrite savePackoutProgress_run.
Qed.

Lemma dispatch_keeps_well_formed e s now d :
  well_formed s → well_formed (after s (dispatch order e s now d)).
Proof.
  intros Hs. destruct e as [stepIndex itemId|photoType|uri| | |server]; simpl.
  - eapply well_formed_changed; [apply toggle_after|done].
  - exact Hs.
  - eapply well_formed_changed; [apply capture_after|done].
  - destruct (next_after s now d) as (Hobj & Hsteps & _). by eapply well_formed_same.
  - destruct (previous_after s now d) as (Hobj & Hsteps & _). by eapply well_formed_same.
  - destruct (submit_after s server now d) as (title & message & d' & ->). exact Hs.
Qed.

Lemma dispatch_keeps_steps e s now d :
  packoutSteps (after s (dispatch order e s now d)) = packoutSteps s.
Proof.
  destruct e as [stepIndex itemId|photoType|uri| | |server]; simpl.
  - apply toggle_after.
  - done.
  - apply capture_after.
  - apply next_after.
  - apply previous_after.
  - by destruct (submit_after s server now d) as (title & message & d' & ->).
Qed.

Lemma dispatch_has_current_step e s now d :
  has_current_step s → has_current_step (after s (dispatch order e s now d)).
Proof.
  intros [Hwf Hrange]. split; [by apply dispatch_keeps_well_formed|].
  rewrite dispatch_keeps_steps.
  destruct e as [stepIndex itemId|photoType|uri| | |server]; simpl.
  - by destruct (toggle_after s stepIndex itemId now d) as [(_ & -> & _) _].
  - done.
  - by destruct (capture_after s uri now d) as [(_ & -> & _) _].
  - destruct (next_after s now d) as (_ & _ & Hcases).
    destruct Hcases as [[-> _]|(r & step & _ & _ & [(Hlt & -> & _)|(_ & -> & _)])];
      [done| |done].
    unfold last_index in Hlt. lia.
  - destruct (previous_after s now d) as (_ & _ & _ & ->).
    destruct (Z.ltb_spec 0 (currentStepIndex s)); lia.
  - by destruct (submit_after s server now d) as (title & message & d' & ->).
Qed.

Lemma dispatch_keeps_flags_derived e s now d :
  flags_derived s → flags_derived (after s (dispatch order e s now d)).
Proof.
  intros [Hwf Hconsistent].
  split; [by apply dispatch_keeps_well_formed|by apply dispatch_keeps_consistent].
Qed.

Lemma initialScreen_well_formed : well_formed initialScreen.
Proof. intros r Hr. apply elem_of_seq in Hr. apply lookup_lt_is_Some. simpl in *. lia. Qed.

Lemma initialScreen_has_current_step : has_current_step initialScreen.
Proof. split; [apply initialScreen_well_formed|done]. Qed.

Lemma play_has_current_step events now s d :
  has_current_step s → has_current_step (play order events now s d).1.
Proof.
  revert s now d. induction events as [|e rest IH]; intros s now d Hs; [done|]. simpl.
  apply IH, dispatch_has_current_step, Hs.
Qed.

(** ** What the handlers leave of the progress entry *)

Lemma saved_entry s now d :
  items (saved order s now d) !! packout_key order
  = if failing d then items d !! packout_key order
    else Some (Stringified (progressToJSON s now)).
Proof. unfold saved. destruct (failing d); simpl; [done|]. apply lookup_insert_eq. Qed.

Lemma saved_entry_written x s s' now d :
  same_view x s ∨ same_view x s' → entry_written order s s' d (saved order x now d).
Proof.
  intros Hview. unfold entry_written. rewrite saved_entry. destruct (failing d); [by left|].
  right. right. by exists x, now.
Qed.

Lemma toggle_entry s stepIndex itemId now d :
  entry_written order s (after s (handleChecklistItemToggle order s stepIndex itemId now d))
    d (handleChecklistItemToggle order s stepIndex itemId now d).2.
Proof.
  unfold after, handleChecklistItemToggle.
  destruct (step_at s (packoutSteps s) stepIndex) as [[r step]|]; [|by left].
  destruct (find _ _); [|by left].
  unfold bind. rewrite savePackoutProgress_run. simpl.
  apply saved_entry_written. by right.
Qed.

Lemma capture_entry s uri now d :
  entry_written order s (after s (handleCameraCapture order s uri now d))
    d (handleCameraCapture order s uri now d).2.
Proof.
  unfold after, handleCameraCapture, try_catch.
  destruct (step_at s (packoutSteps s) (currentStepIndex s)) as [[r step]|]; simpl;
    [|by left].
  unfold bind. rewrite savePackoutProgress_run. simpl.
  apply saved_entry_written. by right.
Qed.

Lemma next_entry s now d :
  entry_written order s (after s (handleNextStep order s now d))
    d (handleNextStep order s now d).2.
Proof.
  unfold after, handleNextStep.
  destruct (step_at s (packoutSteps s) (currentStepIndex s)) as [[r step]|]; [|by left].
  destruct (Step.completed step); simpl; [|by left].
  destruct (_ <? _); [|by left].
  unfold bind. rewrite savePackoutProgress_run. simpl.
  apply saved_entry_written. by left.
Qed.

Lemma previous_entry s now d :
  entry_written order s (after s (handlePreviousStep order s now d))
    d (handlePreviousStep order s now d).2.
Proof.
  unfold after, handlePreviousStep. destruct (_ <? _); [|by left].
  unfold bind. rewrite savePackoutProgress_run. simpl.
  apply saved_entry_written. by left.
Qed.

Lemma submit_entry s server now d :
  entry_written order s (after s (handleSubmitPackout order s server now d))
    d (handleSubmitPackout order s server now d).2.
Proof.
  unfold entry_written, handleSubmitPackout, bind, try_catch.
  destruct (failing d) eqn:Hd.
  - rewrite getItem_failing by done. by left.
  - rewrite getItem_ok by done. destruct (submissionData order s now); [|by left].
    destruct server as [status body|]; simpl; [|by left].
    destruct (_ && _); simpl; [|by left].
    unfold removeItem, storage_call. rewrite Hd. simpl.
    right. left. apply lookup_delete_eq.
Qed.

Lemma dispatch_entry e s now d :
  entry_written order s (after s (dispatch order e s now d)) d (dispatch order e s now d).2.
Proof.
  destruct e as [stepIndex itemId|photoType|uri| | |server]; simpl.
  - apply toggle_entry.
  - by left.
  - apply capture_entry.
  - apply next_entry.
  - apply previous_entry.
  - apply submit_entry.
Qed.

Lemma entry_from_written (P : Screen → Prop) s s' d d' :
  (∀ x y, same_view x y → P y → P x) → P s → P s' →
  entry_written order s s' d d' → entry_from order P d → entry_from order P d'.
Proof.
  intros Hview Hs Hs' [Hsame|[Hnone|(x & now & Hx & Hentry)]] Hd t Ht.
  - apply Hd. by rewrite <- Hsame.
  - congruence.
  - rewrite Hentry in Ht. injection Ht as <-. exists x, now. split; [done|].
    destruct Hx as [Hx|Hx]; eauto.
Qed.

Lemma entry_from_same_items (P : Screen → Prop) d d' :
  items d' = items d → entry_from order P d → entry_from order P d'.
Proof. intros Hitems Hd t. rewrite Hitems. apply Hd. Qed.

(** ** The mount *)

(** [loadPackoutProgress] on an entry that [savePackoutProgress] wrote:
    the steps of the entry become new objects behind the objects of the
    first render, and [packoutSteps] refers to them. *)
Lemma load_entry (x mounted : Screen) (now : Z) (d : Device) (steps : list Step.t) :
  failing d = false →
  items d !! packout_key order = Some (Stringified (progressToJSON x now)) →
  steps_of x = Some <$> steps →
  loadPackoutProgress order mounted d
  = (Fulfilled
       (Some (setCurrentStepIndex (currentStepIndex x)
                (setCompliancePhotos (parsed_photo <$> compliancePhotos x)
                   (setPackoutSteps (seq (length (objects mounted)) (length steps))
                      (with_objects (objects mounted ++ steps) mounted))))), d).
Proof.
  intros Hd Hentry Hsteps.
  unfold loadPackoutProgress, try_catch, bind. rewrite getItem_ok by done.
  rewrite Hentry. simpl.
  unfold loaded_steps, loaded_photos, loaded_index, progressToJSON. cbn -[mapM].
  rewrite Hsteps, <- list_fmap_compose. simpl.
  erewrite (mapM_fmap_Some stepOfJSON) by (intros; apply stepOfJSON_stepToJSON).
  erewrite mapM_fmap_through by apply photoOfJSON_photoToJSON.
  simpl. destruct (Z.eqb_spec (currentStepIndex x) 0) as [Hz|Hnz]; simpl;
    [rewrite Hz|]; reflexivity.
Qed.

(** On a device without an entry for the order, the mount leaves the
    state of the first render and the device as they are. *)
Lemma mount_without_entry d :
  failing d = false → items d !! packout_key order = None →
  mount order d = (Some initialScreen, d).
Proof.
  intros Hd Hnone. unfold mount, loadPackoutProgress, try_catch, bind.
  rewrite getItem_ok by done. by rewrite Hnone.
Qed.

Lemma session_without_entry events now d :
  failing d = false → items d !! packout_key order = None →
  session order events now d = Some (play order events now initialScreen d).
Proof. intros Hd Hnone. unfold session. by rewrite mount_without_entry. Qed.

(** ** Sessions

    [P] is what the entries hold that the sessions write and [Inv] what
    holds of every state of a session. *)
Section Sessions.
Variables Inv P : Screen → Prop.
Hypothesis P_view : ∀ x y, same_view x y → P y → P x.
Hypothesis P_well_formed : ∀ s, P s → well_formed s.
Hypothesis P_initial : P initialScreen.
Hypothesis Inv_P : ∀ s, Inv s → P s.
Hypothesis Inv_mounted :
  ∀ s, NoDup (packoutSteps s) → showCompletionModal s = false → P s → Inv s.

Lemma mount_establishes d :
  entry_from order P d →
  ∃ s d', mount order d = (Some s, d') ∧ items d' = items d ∧ Inv s.
Proof.
  intros Hentry. destruct (failing d) eqn:Hd.
  - unfold mount, loadPackoutProgress, try_catch, bind.
    rewrite getItem_failing by done. simpl. eexists _, _. split; [reflexivity|].
    split; [done|]. apply Inv_mounted; [apply NoDup_seq|done|done].
  - destruct (items d !! packout_key order) as [t|] eqn:Ht.
    + destruct (Hentry t Ht) as (x & now & -> & Hx).
      destruct (steps_of_well_formed x (P_well_formed x Hx)) as [steps Hsteps].
      unfold mount. rewrite (load_entry x initialScreen now d steps Hd Ht Hsteps).
      eexists _, _. split; [reflexivity|]. split; [done|].
      apply Inv_mounted; [apply NoDup_seq|done|].
      apply (P_view _ x); [|done]. split; [|done].
      rewrite Hsteps. apply (steps_of_fresh (objects initialScreen) steps initialScreen).
    + rewrite mount_without_entry by done. eexists _, _. split; [reflexivity|].
      split; [done|]. apply Inv_mounted; [apply NoDup_seq|done|done].
Qed.

Lemma play_keeps events now s d :
  (∀ e s now d, Inv s → Inv (after s (dispatch order e s now d))) →
  Inv s → entry_from order P d →
  Inv (play order events now s d).1 ∧ entry_from order P (play order events now s d).2.
Proof.
  intros Hstep. revert s now d.
  induction events as [|e rest IH]; intros s now d Hs Hd; [done|]. simpl.
  apply IH; [by apply Hstep|].
  eapply entry_from_written;
    [exact P_view|apply Inv_P, Hs|apply Inv_P, Hstep, Hs|apply dispatch_entry|done].
Qed.

Lemma session_keeps events now d :
  (∀ e s now d, Inv s → Inv (after s (dispatch order e s now d))) →
  entry_from order P d →
  ∃ s d', session order events now d = Some (s, d') ∧ Inv s ∧ entry_from order P d'.
Proof.
  intros Hstep Hd. destruct (mount_establishes d Hd) as (s0 & d0 & Hmount & Hitems & Hs0).
  unfold session. rewrite Hmount. simpl.
  destruct (play_keeps events now s0 d0 Hstep Hs0) as [Hs Hd'];
    [by eapply entry_from_same_items|].
  eexists _, _. split; [|split; [exact Hs|exact Hd']]. by destruct (play _ _ _ _ _).
Qed.

End Sessions.

(** X16. A session of the screen, on a device whose progress entry for
    the order, if it holds one, was written by [savePackoutProgress] from a
    state with a step on display (a device that never ran the screen for
    the order holds none): the mount never leaves the screen without a
    state, and in every state reached by any sequence of handler calls
    (any arguments, any server answers, a store that works or not) every
    slot of [packoutSteps] refers to a step object and [currentStepIndex]
    is the index of a slot, so the handlers that read
    [packoutSteps[currentStepIndex]] never find [undefined]. This holds of
    a resumed session as of a first one: what the session leaves as the
    progress entry is again written from such a state. *)
Theorem reachable_states_have_a_current_step (events : list Event) (now : Z) (d : Device) :
  entry_from order has_current_step d →
  ∃ s d',
    session order events now d = Some (s, d')
    ∧ has_current_step s
    ∧ is_Some (step_at s (packoutSteps s) (currentStepIndex s))
    ∧ entry_from order has_current_step d'.
Proof.
  intros Hd.
  destruct (session_keeps has_current_step has_current_step has_current_step_view
              (λ s Hs, proj1 Hs) initialScreen_has_current_step (λ s Hs, Hs)
              (λ s _ _ Hs, Hs) events now d dispatch_has_current_step Hd)
    as (s & d' & Hrun & Hs & Hd').
  exists s, d'. split; [done|]. split; [done|]. split; [|done].
  by apply has_current_step_current.
Qed.

Lemma find_item_some itemId (items : list Item.t) :
  (∃ item, item ∈ items ∧ Item.id item = itemId) →
  is_Some (find (λ item, Item.id item =? itemId) items).
Proof.
  induction items as [|item rest IH]; intros (found & Hin & Hid).
  - by apply elem_of_nil in Hin.
  - simpl. destruct (Z.eqb_spec (Item.id item) itemId) as [Heq|Hne]; [by eexists|].
    apply IH. apply elem_of_cons in Hin as [->|Hin]; [done|]. by exists found.
Qed.

Lemma toggle_found_negates itemId (items : list Item.t) :
  (∃ item, item ∈ items ∧ Item.id item = itemId) →
  negated_at itemId items (toggle_found itemId items).
Proof.
  induction items as [|item rest IH]; intros (found & Hin & Hid).
  - by apply elem_of_nil in Hin.
  - simpl. destruct (Z.eqb_spec (Item.id item) itemId) as [Heq|Hne].
    + exists [], item, rest. split; [done|]. split; [|done].
      intros earlier Hearlier. by apply elem_of_nil in Hearlier.
    + destruct IH as (before & it & rest' & Hrest & Hbefore & Hit & Htoggled).
      { apply elem_of_cons in Hin as [->|Hin]; [done|]. by exists found. }
      exists (item :: before), it, rest'. rewrite Hrest at 1. rewrite Htoggled.
      split; [done|]. split; [|done].
      intros earlier [->|?]%elem_of_cons; [done|by apply Hbefore].
Qed.

(** C1: both mutating operations compute the flag of the step they touch
    anew from its sources. When the slot they are given refers to a step
    (and, for a toggle, the step has an item of the given id), that step
    object has after the call the checklist with that item negated, or the
    photo recorded, and its [completed] flag is [all checklist items
    completed and (photoRequired implies photoTaken)] of the fields it then
    has, whatever the flag was before. No other step object is changed. So
    the invariant, for every step of the screen, is kept by both
    operations, whatever their arguments and whatever the device does; and
    it holds in every state of every session, first or resumed, on a
    device whose progress entry, if any, was written from a state with
    derived flags, which is what a session leaves again. *)
Theorem completed_flag_stays_derived
    (m : Mutation) (s : Screen) (now : Z) (d : Device) :
  let s' := after s (mutate order m s now d) in
  (∀ r step,
     step_at s (packoutSteps s) (touched_slot m s) = Some (r, step) → finds m step →
     ∃ step', objects s' !! r = Some step'
              ∧ sources_after m step step'
              ∧ Step.completed step' = derived_completed step')
  ∧ steps_changed_at (touched_slot m s) s s'
  ∧ (consistent s → consistent s')
  ∧ (∀ events now0 d0,
       entry_from order flags_derived d0 →
       ∃ s0 d0', session order events now0 d0 = Some (s0, d0')
                 ∧ consistent s0
                 ∧ entry_from order flags_derived d0').
Proof.
  simpl. split; [|split; [|split]].
  - intros r step Hstep Hfinds.
    destruct (step_at_inv _ _ _ _ _ Hstep) as [_ Hobj].
    assert (r < length (objects s))%nat as Hr by (by eapply lookup_lt_Some).
    destruct m as [stepIndex itemId|uri]; simpl in *.
    + destruct (find_item_some itemId _ Hfinds) as [found Hfound].
      unfold after, handleChecklistItemToggle. rewrite Hstep, Hfound.
      unfold bind. rewrite savePackoutProgress_run. simpl.
      eexists. split; [by apply list_lookup_insert_eq|]. split.
      * split; [done|]. split; [by apply toggle_found_negates|done].
      * apply toggled_step_is_consistent.
    + unfold after, handleCameraCapture, try_catch, bind. rewrite Hstep.
      rewrite savePackoutProgress_run. simpl.
      eexists. split; [by apply list_lookup_insert_eq|]. split; [done|].
      apply photographed_step_is_consistent.
  - destruct m as [stepIndex itemId|uri]; simpl.
    + apply toggle_after.
    + apply capture_after.
  - destruct m as [stepIndex itemId|uri]; simpl.
    + apply toggle_keeps_consistent.
    + apply capture_keeps_consistent.
  - intros events now0 d0 Hd0.
    destruct (session_keeps flags_derived flags_derived flags_derived_view
                (λ s Hs, proj1 Hs)
                (conj initialScreen_well_formed initialScreen_consistent)
                (λ s Hs, Hs) (λ s _ _ Hs, Hs) events now0 d0
                dispatch_keeps_flags_derived Hd0)
      as (s0 & d0' & Hrun & [_ Hs0] & Hd0').
    by exists s0, d0'.
Qed.

(** X17. Going back undoes going on: after [handleNextStep] moved on
    from a completed step that is not the last, [handlePreviousStep] gives
    the state before the two calls, with the same step on display, whether
    or not the saves in between worked. *)
Theorem previous_undoes_next
    (s : Screen) (now now' : Z) (d d' : Device) (r : ref) (step : Step.t) :
  step_at s (packoutSteps s) (currentStepIndex s) = Some (r, step) →
  Step.completed step = true → currentStepIndex s < last_index s →
  after (after s (handleNextStep order s now d))
    (handlePreviousStep order (after s (handleNextStep order s now d)) now' d')
  = s.
Proof.
  intros Hstep Hc Hlt.
  assert (0 ≤ currentStepIndex s) as Hpos.
  { apply step_at_inv in Hstep as [Hi _]. unfold at_index in Hi.
    destruct (Z.ltb_spec (currentStepIndex s) 0); [done|lia]. }
  assert (after s (handleNextStep order s now d)
          = setCurrentStepIndex (currentStepIndex s + 1) s) as ->.
  { unfold after, handleNextStep. rewrite Hstep, Hc. simpl. fold (last_index s).
    destruct (Z.ltb_spec (currentStepIndex s) (last_index s)); [|lia].
    unfold bind. by rewrite savePackoutProgress_run. }
  unfold after, handlePreviousStep. cbn [currentStepIndex setCurrentStepIndex].
  destruct (Z.ltb_spec 0 (currentStepIndex s + 1)); [|lia].
  unfold bind. rewrite savePackoutProgress_run. simpl.
  replace (currentStepIndex s + 1 - 1) with (currentStepIndex s) by lia.
  by destruct s.
Qed.

End PackoutHandlers.

(** ** Toggling an item twice *)

Lemma find_toggle_found itemId (items : list Item.t) :
  is_Some (find (λ item, Item.id item =? itemId) items) →
  is_Some (find (λ item, Item.id item =? itemId) (toggle_found itemId items)).
Proof.
  induction items as [|item items IH]; simpl; [done|].
  destruct (Item.id item =? itemId) eqn:Hid; simpl; rewrite Hid; [by eexists|done].
Qed.

Lemma toggle_found_twice itemId (items : list Item.t) :
  toggle_found itemId (toggle_found itemId items) = items.
Proof.
  induction items as [|item items IH]; simpl; [done|].
  destruct (Item.id item =? itemId) eqn:Hid; simpl; rewrite Hid.
  - rewrite negb_involutive. by destruct item.
  - by rewrite IH.
Qed.

Section Toggle.
Context `{Platform}.
Variable order : ScannedOrder.t.

(** X18. Toggling the same checklist item twice gives back the state
    the screen was in, step objects included, when the step's [completed]
    flag was the derived one: the second toggle restores the item and
    recomputes the flag to its old value. *)
Theorem toggle_twice_restores_the_state
    (s : Screen) (stepIndex itemId now now' : Z) (d d' : Device) :
  consistent s →
  after (after s (handleChecklistItemToggle order s stepIndex itemId now d))
    (handleChecklistItemToggle order
       (after s (handleChecklistItemToggle order s stepIndex itemId now d))
       stepIndex itemId now' d')
  = s.
Proof.
  intros Hs.
  destruct (step_at s (packoutSteps s) stepIndex) as [[r step]|] eqn:Hstep.
  2: { assert (after s (handleChecklistItemToggle order s stepIndex itemId now d) = s) as ->.
       { unfold after, handleChecklistItemToggle. by rewrite Hstep. }
       unfold after, handleChecklistItemToggle. by rewrite Hstep. }
  destruct (find (λ item, Item.id item =? itemId) (Step.checklistItems step))
    as [found|] eqn:Hfind.
  2: { assert (after s (handleChecklistItemToggle order s stepIndex itemId now d) = s) as ->.
       { unfold after, handleChecklistItemToggle. by rewrite Hstep, Hfind. }
       unfold after, handleChecklistItemToggle. by rewrite Hstep, Hfind. }
  destruct (step_at_inv _ _ _ _ _ Hstep) as [Hi Hobj].
  set (items1 := toggle_found itemId (Step.checklistItems step)).
  set (step1 := assign_checklist items1
                  (forallb Item.completed items1
                   && (negb (Step.photoRequired step) || Step.photoTaken step)) step).
  assert (after s (handleChecklistItemToggle order s stepIndex itemId now d)
          = with_objects (<[r := step1]> (objects s)) s) as ->.
  { unfold after, handleChecklistItemToggle. rewrite Hstep, Hfind.
    unfold bind. rewrite savePackoutProgress_run. by destruct s. }
  assert (step_at (with_objects (<[r := step1]> (objects s)) s)
            (packoutSteps (with_objects (<[r := step1]> (objects s)) s)) stepIndex
          = Some (r, step1)) as Hstep1.
  { apply (step_at_mutated s r step1 stepIndex); [by eapply lookup_lt_Some|exact Hi]. }
  destruct (find_toggle_found itemId (Step.checklistItems step)) as [found1 Hfind1];
    [by eexists|].
  unfold after, handleChecklistItemToggle. rewrite Hstep1.
  change (Step.checklistItems step1) with items1. unfold items1 at 1. rewrite Hfind1.
  unfold bind. rewrite savePackoutProgress_run. cbn [fst ret].
  assert (consistent_step step) as Hflag.
  { apply Hs. unfold steps_of. apply list_elem_of_fmap. exists r. split; [done|].
    unfold at_index in Hi. destruct (stepIndex <? 0); [done|].
    by eapply list_elem_of_lookup_2. }
  assert (assign_checklist (toggle_found itemId items1)
            (forallb Item.completed (toggle_found itemId items1)
             && (negb (Step.photoRequired step1) || Step.photoTaken step1)) step1
          = step) as ->.
  { unfold items1. rewrite toggle_found_twice. unfold consistent_step, derived_completed in Hflag.
    destruct step as [id title description required completed photoRequired photoTaken
                        photoUri instructions checklistItems].
    simpl in *. rewrite Hflag. by destruct photoRequired, photoTaken. }
  cbn [objects with_objects]. rewrite list_insert_insert_eq.
  rewrite (list_insert_id _ _ _ Hobj). by destruct s.
Qed.

End Toggle.

(** ** Persistence of the packout progress *)

Lemma packout_key_inj `{Platform} (order order' : ScannedOrder.t) :
  packout_key order = packout_key order' ↔ ScannedOrder.id order = ScannedOrder.id order'.
Proof.
  unfold packout_key. split; [|by intros ->].
  intros Heq%(inj (String.append "packout_")). by apply (inj pretty).
Qed.

Section Persistence.
Context `{Platform}.
Variable order : ScannedOrder.t.

(** X19. What [savePackoutProgress] wrote on a working store,
    [loadPackoutProgress] of a new mount reads back: the steps with all
    their fields and the index of the step on display come back as saved;
    each photo comes back with the text of its date in place of the date. *)
Theorem saved_progress_is_resumed (s mounted : Screen) (now : Z) (d : Device) :
  failing d = false → well_formed s →
  ∃ s' d',
    loadPackoutProgress order mounted (savePackoutProgress order s now d).2
    = (Fulfilled (Some s'), d')
    ∧ steps_of s' = steps_of s
    ∧ currentStepIndex s' = currentStepIndex s
    ∧ compliancePhotos s' = parsed_photo <$> compliancePhotos s.
Proof.
  intros Hd Hwf. rewrite savePackoutProgress_run. by apply load_after_save.
Qed.

(** X20. [loadPackoutProgress] never rejects and never changes an item.
    When the store fails, holds no entry for the order, or holds one that
    is empty, does not parse or is the text [null], the state of the render
    that called it is kept as it is. *)
Theorem load_without_usable_entry_keeps_the_state (mounted : Screen) (d : Device) :
  ∃ loaded d',
    loadPackoutProgress order mounted d = (Fulfilled loaded, d')
    ∧ items d' = items d
    ∧ (failing d = true
       ∨ double_bang (items d !! packout_key order) = false
       ∨ items d !! packout_key order ≫= JSON_parse = None
       ∨ items d !! packout_key order ≫= JSON_parse = Some JNull →
       loaded = Some mounted).
Proof.
  unfold loadPackoutProgress, try_catch, bind. destruct (failing d) eqn:Hd.
  - rewrite getItem_failing by done. by eexists _, _.
  - rewrite getItem_ok by done.
    destruct (double_bang (items d !! packout_key order)) eqn:Htruthy;
      [|by eexists _, _].
    destruct (items d !! packout_key order ≫= JSON_parse) as [[]|] eqn:Hparse;
      eexists _, _; (split; [reflexivity|]); (split; [done|]);
      intros [|[|[|]]]; done.
Qed.

(** X21. The progress entries are kept per order id: saving the
    progress of one order leaves the entry of every order with another id
    as it is. *)
Theorem progress_of_other_orders_is_untouched
    (order' : ScannedOrder.t) (s : Screen) (now : Z) (d : Device) :
  ScannedOrder.id order ≠ ScannedOrder.id order' →
  items (savePackoutProgress order s now d).2 !! packout_key order'
  = items d !! packout_key order'.
Proof.
  intros Hne. rewrite savePackoutProgress_run. unfold saved.
  destruct (failing d); [done|]. simpl. apply lookup_insert_ne.
  by rewrite packout_key_inj.
Qed.

(** X22. A submission that the server accepts, from a session whose
    photos carry dates, removes the progress entry of the order and
    nothing else from the store, shows the success alert, and ends with
    the completion modal closed and [submitting] off. *)
Theorem accepted_submission_removes_the_progress_entry
    (s : Screen) (status : Z) (body : json) (now : Z) (d : Device) :
  failing d = false → (200 <=? status) && (status <? 300) = true →
  well_formed s →
  (∀ photo, photo ∈ compliancePhotos s → ∃ ms, Photo.timestamp photo = DateObject ms) →
  ∃ s' d',
    handleSubmitPackout order s (Response status body) now d = (Fulfilled s', d')
    ∧ items d' = delete (packout_key order) (items d)
    ∧ last (alerts s') = Some ("Success!", "Packout completed successfully!")
    ∧ showCompletionModal s' = false
    ∧ submitting s' = false.
Proof.
  intros Hd Hok Hwf Hphotos. destruct (steps_of_well_formed s Hwf) as [steps Hsteps].
  assert (is_Some (submissionData order s now)) as [data Hdata].
  { unfold submissionData. rewrite Hsteps.
    erewrite (mapM_fmap_through (fmap stepCompletion) Some stepCompletion) by done.
    simpl.
    assert (is_Some (mapM photoSummary (compliancePhotos s))) as [photos ->]; [|by eexists].
    apply mapM_is_Some, Forall_forall. intros photo Hin.
    destruct (Hphotos photo Hin) as [ms Hms]. unfold compose, photoSummary.
    rewrite Hms. by eexists. }
  unfold handleSubmitPackout, bind at 1, try_catch, bind at 1.
  rewrite getItem_ok by done. rewrite Hdata. unfold bind at 1. simpl. rewrite Hok.
  unfold ret at 1, bind at 1, removeItem, storage_call. rewrite Hd.
  eexists _, _. split; [reflexivity|]. simpl. by rewrite last_snoc.
Qed.

End Persistence.

(** X23. Every placeholder order has the id 1, so the placeholder
    orders of all scanned codes share one progress entry: what was saved
    while packing the placeholder of one code is resumed when the
    placeholder of any other code is opened. *)
Theorem placeholder_orders_share_progress `{Platform}
    (barcode barcode' : string) (s mounted : Screen) (now : Z) (d : Device) :
  failing d = false → well_formed s →
  ∃ s' d',
    loadPackoutProgress (mockOrder barcode') mounted
      (savePackoutProgress (mockOrder barcode) s now d).2
    = (Fulfilled (Some s'), d')
    ∧ steps_of s' = steps_of s
    ∧ currentStepIndex s' = currentStepIndex s.
Proof.
  intros Hd Hwf. rewrite savePackoutProgress_run.
  destruct (load_after_save (mockOrder barcode) s mounted now d Hd Hwf)
    as (s' & d' & Hload & Hsteps & Hindex & _).
  exists s', d'. split; [|done]. exact Hload.
Qed.

(** ** What a resumed session finds after a move and after a capture *)

Section Resume.
Context `{Platform}.
Variable order : ScannedOrder.t.

Lemma well_formed_mutated s r step :
  well_formed s → well_formed (with_objects (<[r := step]> (objects s)) s).
Proof.
  intros Hwf r' Hr'. simpl. apply lookup_lt_is_Some. rewrite length_insert.
  apply lookup_lt_is_Some, Hwf, Hr'.
Qed.

(** X24. [handleNextStep] saves through the render that handled the
    press: when it moves on, the entry it writes holds the index of the
    step it moved on from. A session resumed from that entry shows that
    step again, one before the step the screen went to. *)
Theorem resume_after_next_shows_the_step_before
    (s mounted : Screen) (now : Z) (d : Device) (r : ref) (step : Step.t) :
  failing d = false → well_formed s →
  step_at s (packoutSteps s) (currentStepIndex s) = Some (r, step) →
  Step.completed step = true → currentStepIndex s < last_index s →
  ∃ s1 d1 resumed d2,
    handleNextStep order s now d = (Fulfilled s1, d1)
    ∧ currentStepIndex s1 = currentStepIndex s + 1
    ∧ loadPackoutProgress order mounted d1 = (Fulfilled (Some resumed), d2)
    ∧ currentStepIndex resumed = currentStepIndex s
    ∧ steps_of resumed = steps_of s1.
Proof.
  intros Hd Hwf Hstep Hc Hlt.
  destruct (load_after_save order s mounted now d Hd Hwf)
    as (resumed & d2 & Hload & Hsteps & Hindex & _).
  unfold handleNextStep. rewrite Hstep, Hc. simpl. fold (last_index s).
  destruct (Z.ltb_spec (currentStepIndex s) (last_index s)); [|lia].
  unfold bind. rewrite savePackoutProgress_run.
  eexists _, _, resumed, d2. split; [reflexivity|]. by repeat split.
Qed.

(** X25. [handleCameraCapture] saves through the render that handled
    the capture: the entry it writes has the step marked as photographed
    and the photos that render started with. A session resumed from that
    entry has the steps as the capture left them and one photo fewer: the
    photo just captured is not in it. *)
Theorem resume_after_capture_lacks_the_new_photo
    (s mounted : Screen) (uri : string) (now : Z) (d : Device) (r : ref) (step : Step.t) :
  failing d = false → well_formed s →
  step_at s (packoutSteps s) (currentStepIndex s) = Some (r, step) →
  ∃ s1 d1 resumed d2,
    handleCameraCapture order s uri now d = (Fulfilled s1, d1)
    ∧ loadPackoutProgress order mounted d1 = (Fulfilled (Some resumed), d2)
    ∧ steps_of resumed = steps_of s1
    ∧ compliancePhotos resumed = parsed_photo <$> compliancePhotos s
    ∧ length (compliancePhotos s1) = S (length (compliancePhotos resumed)).
Proof.
  intros Hd Hwf Hstep.
  destruct (load_after_save order
              (with_objects (<[r := assign_photo uri step]> (objects s)) s)
              mounted now d Hd (well_formed_mutated s r _ Hwf))
    as (resumed & d2 & Hload & Hsteps & _ & Hphotos).
  unfold handleCameraCapture, try_catch, bind. rewrite Hstep.
  rewrite savePackoutProgress_run.
  eexists _, _, resumed, d2. split; [reflexivity|]. split; [exact Hload|].
  split; [exact Hsteps|]. split; [exact Hphotos|].
  rewrite Hphotos. simpl. rewrite length_app, length_fmap. simpl. lia.
Qed.

End Resume.

(** ** The worker's session: when the completion modal shows *)

Section Session.
Context `{Platform}.
Variable order : ScannedOrder.t.

Lemma press_keeps_consistent p s now d :
  consistent s → consistent (after s (press order p s now d)).
Proof.
  intros Hs. unfold press. destruct (showCompletionModal s), p;
    try done;
    try (eapply consistent_steps_only; [| | exact Hs]; reflexivity).
  - apply (dispatch_keeps_consistent order (Submit server)), Hs.
  - apply (dispatch_keeps_consistent order (Toggle (currentStepIndex s) itemId)), Hs.
  - apply (dispatch_keeps_consistent order (Capture uri)), Hs.
  - apply (dispatch_keeps_consistent order Next), Hs.
  - apply (dispatch_keeps_consistent order Previous), Hs.
Qed.

Lemma resumable_view x y : same_view x y → resumable y → resumable x.
Proof.
  intros Hview (Hcurrent & Hpassed & Hconsistent).
  split; [by eapply has_current_step_view|].
  destruct Hview as [Hsteps Hidx]. split.
  - unfold passed_steps_completed. by rewrite Hsteps, Hidx.
  - unfold consistent. by rewrite Hsteps.
Qed.

(** A state that differs in the controls only. *)
Lemma session_invariant_same_steps s s' :
  objects s' = objects s → packoutSteps s' = packoutSteps s →
  currentStepIndex s' = currentStepIndex s →
  (showCompletionModal s' = true → showCompletionModal s = true) →
  session_invariant s → session_invariant s'.
Proof.
  intros Hobj Hsteps Hidx Hmodal.
  unfold session_invariant, resumable, has_current_step, well_formed,
    passed_steps_completed, consistent, all_steps_completed, steps_of.
  rewrite Hobj, Hsteps, Hidx. intros (Hnodup & Hres & Hall).
  split; [done|]. split; [done|]. intros Hshown. by apply Hall, Hmodal.
Qed.

(** A handler that changes at most the step on display. *)
Lemma session_invariant_changed s s' :
  steps_changed_at (currentStepIndex s) s s' →
  showCompletionModal s = false → showCompletionModal s' = false →
  consistent s' →
  session_invariant s → session_invariant s'.
Proof.
  intros Hchanged Hclosed Hclosed' Hconsistent' (Hnodup & (Hcurrent & Hpassed & _) & _).
  split; [|split; [split; [|split]|]].
  - by destruct Hchanged as (-> & _).
  - by eapply has_current_step_changed.
  - destruct Hchanged as (Hsteps & Hidx & Hlen & Hrest).
    intros i step Hi Hstep. rewrite Hidx in Hi. apply (Hpassed i step Hi).
    unfold steps_of in *. rewrite Hsteps in Hstep. rewrite list_lookup_fmap in *.
    destruct (packoutSteps s !! i) as [r|] eqn:Hr; [|done]. simpl in *.
    rewrite <- Hrest; [done|].
    unfold at_index. destruct (Z.ltb_spec (currentStepIndex s) 0); [done|].
    intros Hshown.
    assert (i = Z.to_nat (currentStepIndex s)) by (by eapply NoDup_lookup).
    lia.
  - done.
  - by rewrite Hclosed'.
Qed.

Lemma press_keeps_session_invariant p s now d :
  session_invariant s → session_invariant (after s (press order p s now d)).
Proof.
  intros Hs.
  assert (consistent (after s (press order p s now d))) as Hconsistent'
    by (apply press_keeps_consistent, Hs).
  revert Hconsistent'. unfold press. destruct (showCompletionModal s) eqn:Hmodal.
  - destruct p; intros _; try exact Hs.
    + by eapply session_invariant_same_steps; [..|exact Hs].
    + destruct (submit_after order s server now d) as (title & message & d' & ->).
      by eapply session_invariant_same_steps; [..|exact Hs].
  - destruct p; intros Hconsistent'; try exact Hs.
    + destruct (toggle_after order s (currentStepIndex s) itemId now d) as [Hchanged Hsame].
      eapply session_invariant_changed; [exact Hchanged|done|congruence|done|exact Hs].
    + destruct (capture_after order s uri now d) as [Hchanged Hsame].
      eapply session_invariant_changed; [exact Hchanged|done|congruence|done|exact Hs].
    + destruct (next_after order s now d) as (Hobj & Hsteps & Hcases).
      destruct Hcases as [[Hidx Hsame]|(r & step & Hstep & Hc & Hcases)].
      { eapply session_invariant_same_steps; [done..|congruence|exact Hs]. }
      destruct Hs as (Hnodup & ((Hwf & Hrange) & Hpassed & Hcons) & Hall).
      apply step_at_inv in Hstep as [Hslot Hobject].
      assert (steps_of s !! Z.to_nat (currentStepIndex s) = Some (Some step)) as Hshown.
      { unfold at_index in Hslot.
        destruct (Z.ltb_spec (currentStepIndex s) 0); [done|].
        unfold steps_of. rewrite list_lookup_fmap, Hslot. simpl.
        unfold ref in *. by rewrite Hobject. }
      assert (steps_of (after s (handleNextStep order s now d)) = steps_of s) as Hview
        by (unfold steps_of; by rewrite Hobj, Hsteps).
      destruct Hcases as [(Hlt & Hidx & Hsame)|(Hge & Hidx & Hshown')].
      * split; [by rewrite Hsteps|]. split; [split; [split|split]|].
        -- by eapply well_formed_same.
        -- rewrite Hsteps, Hidx. unfold last_index in Hlt. lia.
        -- intros i step' Hi. rewrite Hview. rewrite Hidx in Hi.
           destruct (decide (Z.of_nat i < currentStepIndex s)) as [Hbelow|Hat];
             [by apply Hpassed|].
           replace i with (Z.to_nat (currentStepIndex s)) by lia.
           rewrite Hshown. by intros [= <-].
        -- done.
        -- congruence.
      * split; [by rewrite Hsteps|]. split; [split; [split|split]|].
        -- by eapply well_formed_same.
        -- by rewrite Hsteps, Hidx.
        -- intros i step' Hi. rewrite Hview. rewrite Hidx in Hi. by apply Hpassed.
        -- done.
        -- intros _ step' Hin. rewrite Hview in Hin.
           apply list_elem_of_lookup in Hin as [i Hi].
           assert (i < length (steps_of s))%nat as Hlen by (by eapply lookup_lt_Some).
           rewrite length_steps_of in Hlen. unfold last_index in Hge.
           destruct (decide (Z.of_nat i < currentStepIndex s)) as [Hbelow|Hat];
             [by eapply Hpassed|].
           replace i with (Z.to_nat (currentStepIndex s)) in Hi by lia.
           rewrite Hshown in Hi. by injection Hi as <-.
    + destruct (previous_after order s now d) as (Hobj & Hsteps & Hsame & Hidx).
      destruct Hs as (Hnodup & ((Hwf & Hrange) & Hpassed & Hcons) & Hall).
      assert (steps_of (after s (handlePreviousStep order s now d)) = steps_of s) as Hview
        by (unfold steps_of; by rewrite Hobj, Hsteps).
      split; [by rewrite Hsteps|]. split; [split; [split|split]|].
      * by eapply well_formed_same.
      * rewrite Hsteps, Hidx. destruct (Z.ltb_spec 0 (currentStepIndex s)); lia.
      * intros i step Hi. rewrite Hview. apply Hpassed. rewrite Hidx in Hi.
        destruct (Z.ltb_spec 0 (currentStepIndex s)); lia.
      * done.
      * congruence.
Qed.

Lemma press_entry p s now d :
  entry_written order s (after s (press order p s now d)) d (press order p s now d).2.
Proof.
  unfold press. destruct (showCompletionModal s), p; try (by left).
  - apply submit_entry.
  - apply toggle_entry.
  - apply capture_entry.
  - apply next_entry.
  - apply previous_entry.
Qed.

Lemma resumable_initialScreen : resumable initialScreen.
Proof.
  split; [apply initialScreen_has_current_step|]. split; [|apply initialScreen_consistent].
  intros i step Hi. simpl in Hi. lia.
Qed.

Lemma session_invariant_mounted s :
  NoDup (packoutSteps s) → showCompletionModal s = false → resumable s →
  session_invariant s.
Proof. intros Hnodup Hclosed Hs. split; [done|]. split; [done|]. congruence. Qed.

Lemma operate_keeps presses now s d :
  session_invariant s → entry_from order resumable d →
  session_invariant (operate order presses now s d).1
  ∧ entry_from order resumable (operate order presses now s d).2.
Proof.
  revert s now d. induction presses as [|p rest IH]; intros s now d Hs Hd; [done|]. simpl.
  apply IH; [by apply press_keeps_session_invariant|].
  eapply entry_from_written;
    [exact resumable_view|apply Hs|apply press_keeps_session_invariant, Hs
    |apply press_entry|done].
Qed.

Lemma completed_in_submission step :
  Step.completed step = true → get "completed" (stepCompletion step) = Some (JBool true).
Proof. intros Hc. unfold stepCompletion. simpl. by rewrite Hc. Qed.

(** X26. A session at the screen, on a device whose progress entry for
    the order, if it holds one, was written from a state with a step on
    display, completed steps before it and derived flags (a device that
    never ran the screen for the order holds none). Whatever the worker
    presses after the mount, in a first session as in a resumed one, every
    step before the one on display is completed, and the completion modal,
    whose Submit button is the only control that calls
    [handleSubmitPackout], is visible only when every step is completed
    with the flag derived from its checklist and photo: every checklist
    item is checked and every required photo taken. What
    [handleSubmitPackout] would then send reports each step as completed.
    What the session leaves as the progress entry is again written from
    such a state. *)
Theorem submit_is_offered_only_for_completed_steps
    (presses : list Press) (now : Z) (d : Device) :
  entry_from order resumable d →
  ∃ s d',
    worked order presses now d = Some (s, d')
    ∧ passed_steps_completed s
    ∧ entry_from order resumable d'
    ∧ (showCompletionModal s = true →
       (∀ step, Some step ∈ steps_of s →
                Step.completed step = true ∧ derived_completed step = true)
       ∧ ∀ now' data,
           submissionData order s now' = Some data →
           Forall (λ j, get "completed" j = Some (JBool true)) (steps_completed data)).
Proof.
  intros Hd.
  destruct (mount_establishes order session_invariant resumable resumable_view
              (λ s Hs, proj1 (proj1 Hs)) resumable_initialScreen
              session_invariant_mounted d Hd)
    as (s0 & d0 & Hmount & Hitems & Hs0).
  destruct (operate_keeps presses now s0 d0 Hs0) as [Hs Hd'];
    [by eapply entry_from_same_items|].
  exists (operate order presses now s0 d0).1, (operate order presses now s0 d0).2.
  split; [unfold worked; rewrite Hmount; simpl; by destruct (operate _ _ _ _ _)|].
  destruct Hs as (_ & (_ & Hpassed & Hconsistent) & Hall).
  split; [done|]. split; [done|]. intros Hshown. specialize (Hall Hshown). split.
  - intros step Hin. split; [by apply Hall|]. rewrite <- (Hconsistent step Hin). by apply Hall.
  - intros now' data. unfold submissionData.
    destruct (mapM _ (steps_of _)) as [steps|] eqn:Hsteps; [|done]. simpl.
    destruct (mapM photoSummary _); [|done]. simpl. intros [= <-]. simpl.
    apply mapM_Some in Hsteps. eapply Forall2_Forall_r; [exact Hsteps|].
    apply Forall_forall. intros [step|] Hin j; [|done].
    intros [= <-]. by apply completed_in_submission, Hall.
Qed.

End Session.

(** ** The scanner screen *)

Lemma fetchOrderData_run s barcode server d :
  ∃ d',
    fetchOrderData s barcode server d
    = (Fulfilled (setLoading false
                    (setShowOrderModal true
                       (setOrderData (resolved_order barcode server d) s))), d').
Proof.
  unfold fetchOrderData, bind at 1, try_catch, bind at 1, resolved_order.
  destruct (failing d) eqn:Hd.
  - rewrite getItem_failing by done. cbn [negb andb].
    destruct server; by eexists.
  - rewrite getItem_ok by done. unfold bind at 1.
    destruct server as [status data|]; simpl; [|by eexists].
    destruct ((200 <=? status) && (status <? 300)); by eexists.
Qed.


Lemma scanner_step_keeps_invariant e s d :
  scanner_invariant s → scanner_invariant (after s (scanner_step e s d)).
Proof.
  intros [Hloading Hs]. destruct e as [data server| |]; simpl.
  - unfold handleBarCodeRead. destruct Hs as [->|(Hscanning & Hdata & Horder)].
    + simpl. unfold bind at 1, try_catch, bind at 1.
      destruct (fetchOrderData_run
                  (setLoading true (setScannedData (Some data) (setScanning false initialScanner)))
                  data server d) as (d' & ->).
      split; [done|]. right. split; [done|]. split; [by eexists|by left].
    + rewrite Hscanning. simpl. split; [done|]. right. by repeat split.
  - unfold after, handleOrderSelect. simpl. destruct Hs as [->|(Hscanning & Hdata & Horder)].
    + split; [done|by left].
    + destruct (truthy (orderData s)) eqn:Htruthy; simpl.
      * split; [done|]. right. repeat split; [done..|]. by right.
      * split; [done|]. right. repeat split; [done..|].
        destruct Horder as [?|?]; [by left|congruence].
  - unfold after, handleRescan. simpl. split; [done|]. left.
    destruct s; simpl in *. by rewrite Hloading.
Qed.

(** X28. In every state the scanner reaches from its first render by
    scans, selections and rescans, loading is off and either the scanner
    is in its initial state, or it is not scanning and holds the code it
    read last; in that case the order modal is open, or it was closed by
    [handleOrderSelect] over a truthy [orderData], the one the packout
    screen was opened with. [handleRescan] always leads back to the
    initial state. *)
Theorem scanner_waits_or_holds_a_code (events : list ScannerEvent) (d : Device) :
  scanner_invariant (scanner_run events initialScanner d).1
  ∧ handleRescan (scanner_run events initialScanner d).1 = initialScanner.
Proof.
  assert (∀ s d, scanner_invariant s → scanner_invariant (scanner_run events s d).1) as Hgen.
  { induction events as [|e rest IH]; intros s d' Hs; [done|]. simpl.
    apply IH, scanner_step_keeps_invariant, Hs. }
  assert (scanner_invariant initialScanner) as Hinit by (split; [done|by left]).
  specialize (Hgen initialScanner d Hinit). split; [done|].
  destruct Hgen as [Hloading _]. unfold handleRescan.
  destruct (scanner_run events initialScanner d).1; simpl in *. by rewrite Hloading.
Qed.


(** ** App.tsx *)

Lemma logout_fulfils d : ∃ d', logout d = (Fulfilled tt, d').
Proof.
  unfold logout, try_catch.
  destruct (bind clearTokens (λ _, clearOfflineData None) d) as [[[]|e] d1];
    by eexists.
Qed.

Lemma checkConnectivity_fulfils health d :
  ∃ connected d', checkConnectivity health d = (Fulfilled connected, d').
Proof.
  unfold checkConnectivity, try_catch.
  destruct (bind (apiClient_request health) _ d) as [[connected|e] d1]; by eexists _, _.
Qed.

Lemma syncPendingData_fulfils health d :
  ∃ d', syncPendingData health d = (Fulfilled tt, d').
Proof.
  unfold syncPendingData, try_catch.
  destruct (bind (checkConnectivity health) _ d) as [[[]|e] d1]; by eexists.
Qed.

Lemma getCurrentUser_run me d :
  failing d = false →
  match me with
  | Response status data =>
      if accepted me then getCurrentUser me d = (Fulfilled data, d)
      else ∃ e d', getCurrentUser me d = (Rejected e, d') ∧ failing d' = false
  | NoResponse => ∃ e d', getCurrentUser me d = (Rejected e, d') ∧ failing d' = false
  end.
Proof.
  intros Hd. unfold getCurrentUser, try_catch.
  assert (delivery_failed me →
          ∃ e d', match apiClient_request me d with
                  | (Fulfilled a, st') => (Fulfilled a, st')
                  | (Rejected e, st') => (log "Get current user error:" >> throw e) st'
                  end = (Rejected e, d') ∧ failing d' = false) as Hfailed.
  { intros Hfail.
    destruct (apiClient_request_failed me d Hfail Hd) as (e & d1 & -> & Hd1 & _).
    by eexists _, _. }
  destruct me as [status data|]; [|by apply Hfailed].
  destruct (accepted (Response status data)) eqn:Hok.
  - by rewrite apiClient_request_ok.
  - by apply Hfailed, accepted_spec.
Qed.

(** X29. [initializeApp] never rejects and always ends the loading
    state. It signs the user in exactly when the store can be read, holds a
    non-empty access token, and the server accepts the request for the
    current user; the user is then the body of that response. In every
    other case the app is signed out, and when a stored token was refused
    the session keys are removed from the store. No queued envelope is
    added, removed or rewritten on the way. *)
Theorem initializeApp_signs_in_only_with_an_accepted_token
    (app : App.t) (me health health' : reply json) (d : Device) :
  ∃ app' d',
    initializeApp app me health health' d = (Fulfilled app', d')
    ∧ App.isLoading app' = false
    ∧ App.isAuthenticated app'
      = Some (negb (failing d) && double_bang (items d !! "access_token") && accepted me)
    ∧ App.user app'
      = (if negb (failing d) && double_bang (items d !! "access_token")
         then match me with
              | Response status data => if accepted me then Some data else App.user app
              | NoResponse => App.user app
              end
         else App.user app)
    ∧ (failing d = false → double_bang (items d !! "access_token") = true →
       accepted me = false → items d' !! "access_token" = None)
    ∧ (∀ k, is_offline_key k = true → items d' !! k = items d !! k).
Proof.
  assert (∃ app' d',
    initializeApp app me health health' d = (Fulfilled app', d')
    ∧ App.isLoading app' = false
    ∧ App.isAuthenticated app'
      = Some (negb (failing d) && double_bang (items d !! "access_token") && accepted me)
    ∧ App.user app'
      = (if negb (failing d) && double_bang (items d !! "access_token")
         then match me with
              | Response status data => if accepted me then Some data else App.user app
              | NoResponse => App.user app
              end
         else App.user app)
    ∧ (failing d = false → double_bang (items d !! "access_token") = true →
       accepted me = false → items d' !! "access_token" = None))
    as (app' & d' & Hrun & Hloading & Hauth & Huser & Hgone).
  2: { exists app', d'. do 5 (split; [done|]). intros k Hk.
       pose proof (initializeApp_alone app me health health' d k Hk) as Halone.
       by rewrite Hrun in Halone. }
  unfold initializeApp. unfold bind at 1, try_catch at 1, bind at 1.
  destruct (failing d) eqn:Hd.
  { unfold isAuthenticated, try_catch, bind. rewrite getItem_failing by done. simpl.
    eexists _, _. split; [reflexivity|]. by repeat split. }
  rewrite isAuthenticated_ok by done.
  destruct (double_bang (items d !! "access_token")) eqn:Htoken; simpl.
  2: { eexists _, _. split; [reflexivity|]. by repeat split. }
  unfold bind at 1, try_catch at 1, bind at 1.
  pose proof (getCurrentUser_run me d Hd) as Hme.
  assert (∀ d1, failing d1 = false →
            ∃ d', token_validation_failed app d1
                  = (Fulfilled (setIsAuthenticated false app), d')
                  ∧ items d' !! "access_token" = None) as Hrefused.
  { intros d1 Hd1. unfold token_validation_failed, bind, log.
    destruct (clearTokens_run (printed "Token validation failed:" d1))
      as (d2 & -> & _ & Hlook).
    eexists. split; [reflexivity|]. rewrite Hlook.
    rewrite decide_True by (unfold session_keys; set_solver).
    change (failing (printed "Token validation failed:" d1)) with (failing d1).
    by rewrite Hd1. }
  destruct me as [status data|].
  - destruct (accepted (Response status data)) eqn:Hok.
    + rewrite Hme. unfold ret at 1. unfold try_catch at 1, bind at 1.
      destruct (checkConnectivity_fulfils health d) as (connected & d1 & ->).
      unfold bind at 1.
      assert (∃ d2, (if connected then syncPendingData health' else ret tt) d1
                    = (Fulfilled tt, d2)) as [d2 ->].
      { destruct connected; [apply syncPendingData_fulfils|by eexists]. }
      unfold ret. eexists _, _. split; [reflexivity|]. by repeat split.
    + destruct Hme as (e & d1 & -> & Hd1). unfold ret at 1.
      destruct (Hrefused d1 Hd1) as (d2 & -> & Hgone). unfold ret.
      eexists _, _. split; [reflexivity|]. by repeat split.
  - destruct Hme as (e & d1 & -> & Hd1). unfold ret at 1.
    destruct (Hrefused d1 Hd1) as (d2 & -> & Hgone). unfold ret.
    eexists _, _. split; [reflexivity|]. by repeat split.
Qed.

(** X30. [handleLogout] always signs the user out: [authAPI.logout]
    never rejects, so the handler fulfils with [isAuthenticated] false and
    no user whatever the store does, and its error alert is never shown. *)
Theorem handleLogout_always_signs_out (app : App.t) (d : Device) :
  ∃ d', handleLogout app d
        = (Fulfilled (setUser None (setIsAuthenticated false app)), d')
        ∧ d' = (logout d).2.
Proof.
  unfold handleLogout, try_catch, bind. destruct (logout_fulfils d) as [d' ->].
  by exists d'.
Qed.

(* ===================================================================== *)
(** * Part 8. Concrete runs                                               *)
(* ===================================================================== *)

#[local] Existing Instance example_platform.

(** The devices of the runs below hold no progress entry for order 42: the
    mount finds nothing to load, and the handler calls start from the
    state of the first render. *)
Example mount_on_signed_in : mount order42 signed_in = (Some initialScreen, signed_in).
Proof. by apply mount_without_entry. Qed.

(** An entry that [savePackoutProgress] did not write can leave the screen
    without a step on display: with [{ currentStep: 7 }] under the key of
    order 42 the mount keeps the five steps and sets the index to 7, and
    [handleNextStep] then reads [completed] of [undefined]. The properties
    of sessions below are stated for the entries the screen writes. *)
Example stray_entry_leaves_no_current_step :
  let d := healthy {["packout_42" := Stringified (JObj [("currentStep", JNum 7)])]} in
  ∃ s, (mount order42 d).1 = Some s
       ∧ currentStepIndex s = 7
       ∧ step_at s (packoutSteps s) (currentStepIndex s) = None
       ∧ (handleNextStep order42 s 1000 d).1 = Rejected TypeError.
Proof. eexists. by vm_compute. Qed.

Example packed_reaches_completion_modal :
  currentStepIndex packed.1 = 4 ∧ showCompletionModal packed.1 = true.
Proof. by vm_compute. Qed.

(** The scenario of the specification: four steps done, the fifth with one
    item unchecked; Next is refused and the index stays at 4; once the item
    is checked, Next opens the completion modal. *)
Example last_step_scenario :
  let before :=
    play order42
      (complete_step 0 ++ complete_step 1 ++ complete_step 2 ++ complete_step 3
       ++ [Toggle 4 1; Toggle 4 2; TakePhoto package; Capture "file:///photo.jpg"])%list
      1000 initialScreen signed_in in
  let refused := play order42 [Next] 2000 before.1 before.2 in
  let accepted := play order42 [Toggle 4 3; Next] 2001 refused.1 refused.2 in
  currentStepIndex before.1 = 4
  ∧ last (alerts refused.1) = Some StepIncomplete
  ∧ currentStepIndex refused.1 = 4 ∧ showCompletionModal refused.1 = false
  ∧ currentStepIndex accepted.1 = 4 ∧ showCompletionModal accepted.1 = true.
Proof. by vm_compute. Qed.

(** [handleCameraCapture] saves through the closure of the render it was
    called in: the entry it writes has the photos of that render, without
    the photo just captured. *)
Example capture_saves_the_photos_of_its_render :
  length (compliancePhotos one_photo.1) = 1%nat
  ∧ (saved ← items one_photo.2 !! "packout_42";
     progress ← JSON_parse saved;
     get "photos" progress) = Some (JArr []).
Proof. by vm_compute. Qed.

(** ** C1 *)

(** C1, witness: two of the three items of the first step are checked and
    its photo is taken, so the step is not completed. Checking the third
    item turns the flag on: it is the derived flag of the step as it then
    is. *)
Lemma completed_flag_stays_derived_witness :
  let s := one_item_left.1 in
  let s' := after s (mutate order42 (ToggleItem 0 3) s 2000 one_item_left.2) in
  (Step.completed <$> objects s !! 0%nat) = Some false
  ∧ ∃ step', objects s' !! 0%nat = Some step'
             ∧ Step.completed step' = derived_completed step'
             ∧ Step.completed step' = true.
Proof.
  simpl. split; [vm_compute; reflexivity|].
  destruct (completed_flag_stays_derived order42 (ToggleItem 0 3) one_item_left.1 2000
              one_item_left.2) as [Htouched _].
  assert (∃ step, step_at one_item_left.1 (packoutSteps one_item_left.1) 0
                  = Some (0%nat, step)
                  ∧ (∃ item, item ∈ Step.checklistItems step ∧ Item.id item = 3))
    as (step & Hstep & Hfinds).
  { eexists. split; [vm_compute; reflexivity|].
    eexists. split; [right; right; left|reflexivity]. }
  destruct (Htouched 0%nat step Hstep Hfinds) as (step' & Hobject & _ & Hflag).
  exists step'. split; [exact Hobject|]. split; [exact Hflag|].
  assert (Step.completed <$> Some step' = Some true) as Hdone
    by (rewrite <- Hobject; vm_compute; reflexivity).
  by injection Hdone.
Defined.

(** ** C2 *)


(** ** C10 *)

(** C10, witness: no item of the first step has id 99. *)
Lemma toggle_of_unknown_item_witness :
  is_Some (step_at initialScreen (packoutSteps initialScreen) 0)
  ∧ handleChecklistItemToggle order42 initialScreen 0 99 1000 signed_in
    = (Fulfilled initialScreen, signed_in).
Proof.
  split; [eexists; reflexivity|].
  apply (toggle_of_unknown_item_changes_nothing order42 initialScreen 0 99 1000 signed_in
           0%nat _ eq_refl).
  intros item Hitem. simpl in Hitem.
  repeat (apply elem_of_cons in Hitem as [->|Hitem]; [discriminate|]).
  by apply elem_of_nil in Hitem.
Defined.

(** ** C3 *)

(** C3, at the failing input: order 42 is packed, the worker submits at
    time 9000 and the request gets no response. [handleSubmitPackout] shows
    the alert that says the data has been saved locally and leaves the
    progress entry [packout_42] in place, but the queue is as empty as
    before: no envelope is stored. [packoutTasksAPI.completeTask], called
    with the same submission on the same device, stores it under
    [offline_complete_task_42_9000]. *)
Theorem failed_submit_enqueues_nothing :
  last (alerts (after packed.1
                  (handleSubmitPackout order42 packed.1 NoResponse 9000 packed.2)))
  = Some SubmissionFailed
  ∧ items packed.2 !! "packout_42" ≠ None
  ∧ items (handleSubmitPackout order42 packed.1 NoResponse 9000 packed.2).2 = items packed.2
  ∧ elements (queue (handleSubmitPackout order42 packed.1 NoResponse 9000 packed.2).2) = []
  ∧ (data ← submissionData order42 packed.1 9000;
     Some (elements (queue (completeTask data NoResponse 9000 packed.2).2)))
    = Some ["offline_complete_task_42_9000"].
Proof.
  split; [exact (proj2 (failed_submit_leaves_items order42 packed.1 9000 packed.2))|].
  split; [vm_compute; discriminate|].
  split; [exact (proj1 (failed_submit_leaves_items order42 packed.1 9000 packed.2))|].
  split; vm_compute; reflexivity.
Qed.

(** ** C4 *)

(** C4, counterexample: one envelope is queued and every submission would
    succeed; the described drain leaves an empty queue, [syncOfflineData]
    leaves the envelope where it is. *)
Lemma sync_leaves_a_deliverable_envelope :
  ¬ sync_is_the_claimed_drain (λ _, true) [("complete_task_42_9000", JNum 42)]
      9000 signed_in.
Proof.
  unfold sync_is_the_claimed_drain. intros Hclaim.
  assert (offlineKey "complete_task_42_9000"
          ∈ queue (syncOfflineData
                     (enqueue_all [("complete_task_42_9000", JNum 42)] 9000 signed_in)).2)
    as Hin by by vm_compute.
  apply Hclaim in Hin. simpl in Hin. by apply elem_of_nil in Hin.
Qed.

(** ** C5 *)

(** C5, counterexample: [logout] removes the envelope that [completeTask]
    stored, and nothing was sent in between. *)
Lemma logout_removes_unsent_envelope : ¬ queued_envelope_is_never_removed.
Proof.
  intros Hclaim.
  assert (offlineKey (complete_task_key 42 9000) ∈ queue with_unsent_task)
    as Hin by by vm_compute.
  apply (Hclaim [(Logout, 9500)]) in Hin. vm_compute in Hin. discriminate.
Qed.

(** C5, witness: the unsent submission is queued before [logout] and is
    not after; and an update of task 7 that failed at 1000 is replaced,
    under the same key, by the one that fails at 2000. *)
Lemma envelope_leaves_only_by_clear_or_logout_witness :
  (offlineKey (complete_task_key 42 9000) ∈ queue with_unsent_task)
  ∧ (offlineKey (complete_task_key 42 9000) ∉ queue (perform Logout 9500 with_unsent_task))
  ∧ clears_envelope Logout (offlineKey (complete_task_key 42 9000))
  ∧ (let first := perform (UpdateTask 7 [("status", JStr "started")] NoResponse) 1000
                    signed_in in
     let second := UpdateTask 7 [("status", JStr "done")] NoResponse in
     items (perform second 2000 first) !! offlineKey "update_task_7"
     ≠ items first !! offlineKey "update_task_7"
     ∧ (clears_envelope second (offlineKey "update_task_7")
        ∨ rewrites_envelope second 2000 (offlineKey "update_task_7"))).
Proof.
  assert (offlineKey (complete_task_key 42 9000) ∈ queue with_unsent_task) as Hin
    by (vm_compute; reflexivity).
  assert (offlineKey (complete_task_key 42 9000) ∉ queue (perform Logout 9500 with_unsent_task))
    as Hout by (vm_compute; discriminate).
  split; [exact Hin|]. split; [exact Hout|]. split.
  - exact (proj1 (envelope_leaves_only_by_clear_or_logout Logout 9500 with_unsent_task _)
             Hin Hout).
  - simpl.
    assert (items (perform (UpdateTask 7 [("status", JStr "done")] NoResponse) 2000
                     (perform (UpdateTask 7 [("status", JStr "started")] NoResponse) 1000
                        signed_in))
              !! offlineKey "update_task_7"
            ≠ items (perform (UpdateTask 7 [("status", JStr "started")] NoResponse) 1000
                       signed_in)
                !! offlineKey "update_task_7") as Hchanged
      by (vm_compute; discriminate).
    split; [exact Hchanged|].
    exact (proj1 (proj2 (envelope_leaves_only_by_clear_or_logout
                           (UpdateTask 7 [("status", JStr "done")] NoResponse) 2000
                           (perform (UpdateTask 7 [("status", JStr "started")] NoResponse)
                              1000 signed_in)
                           (offlineKey "update_task_7"))) eq_refl Hchanged).
Defined.

(** ** C6 *)

(** C6, at the failing input: a session with one compliance photo is saved
    and loaded with nothing in between. The steps and the index come back
    as they were; the photo comes back with a string where its [timestamp]
    was a [Date], so the photos differ. [handleSubmitPackout] calls
    [toISOString] on that field: on the resumed session it fails before any
    request is made, even when the server would answer 200. *)
Theorem resumed_session_has_text_timestamps :
  Photo.timestamp <$> compliancePhotos one_photo.1 = [DateObject 1001]
  ∧ (resumed ← one_photo_resumed;
     Some (Photo.timestamp <$> compliancePhotos resumed,
           currentStepIndex resumed,
           submissionData order42 resumed 6000,
           last (alerts (after resumed
                           (handleSubmitPackout order42 resumed (Response 200 JNull) 6000
                              one_photo_saved)))))
    = Some ([TimeString "T1001"], currentStepIndex one_photo.1, None, Some SubmissionFailed)
  ∧ (resumed ← one_photo_resumed; Some (steps_of resumed)) = Some (steps_of one_photo.1).
Proof. repeat split; vm_compute; reflexivity. Qed.

(** ** C7 *)

(** C7, counterexample: the worker asks for an optional damage photo on the
    first step and captures it; the step's [photoTaken] goes from [false] to
    [true] although the photo is not the required one. *)
Lemma damage_photo_marks_step_as_photographed :
  ¬ only_required_photo_marks_step order42 (handleTakePhoto damage initialScreen)
      "file:///damage.jpg" 1000 signed_in.
Proof.
  unfold only_required_photo_marks_step. intros Hclaim.
  assert (cameraType (handleTakePhoto damage initialScreen) ≠ package) as Hdamage
    by discriminate.
  apply Hclaim in Hdamage. vm_compute in Hdamage. discriminate.
Qed.

(** C7, witness: the same capture, read through the amended statement. *)
Lemma capture_marks_current_step_witness :
  is_Some (step_at (handleTakePhoto damage initialScreen)
             (packoutSteps (handleTakePhoto damage initialScreen))
             (currentStepIndex (handleTakePhoto damage initialScreen)))
  ∧ ∃ s' d' step',
      handleCameraCapture order42 (handleTakePhoto damage initialScreen)
        "file:///damage.jpg" 1000 signed_in = (Fulfilled s', d')
      ∧ step_at s' (packoutSteps s') (currentStepIndex s') = Some (0%nat, step')
      ∧ Step.photoTaken step' = true
      ∧ Photo.type <$> compliancePhotos s' = [damage].
Proof.
  split; [eexists; reflexivity|].
  destruct (capture_marks_current_step_whatever_the_type order42
              (handleTakePhoto damage initialScreen) "file:///damage.jpg" 1000 signed_in
              0%nat _ eq_refl)
    as (s' & d' & step' & Hrun & Hstep & Htaken & _ & _ & _ & Hphotos & _).
  exists s', d', step'. split; [exact Hrun|]. split; [exact Hstep|].
  split; [exact Htaken|]. rewrite Hphotos. reflexivity.
Defined.

(** ** C8 *)

(** C8, counterexample: a lookup that gets no response and a lookup the
    server answers with the very same order leave the scanner in the same
    state, so nothing computed from that state tells them apart. *)
Lemma placeholder_order_is_not_marked : ¬ degraded_result_is_marked.
Proof.
  intros [marker Hmarker].
  pose proof (Hmarker (scanned "4006381333931") "4006381333931" NoResponse signed_in)
    as Hfailed.
  pose proof (Hmarker (scanned "4006381333931") "4006381333931"
                (Response 200 (orderToJSON (mockOrder "4006381333931"))) signed_in)
    as Hfound.
  change (after _ (fetchOrderData _ _ (Response _ _) _))
    with (after (scanned "4006381333931")
            (fetchOrderData (scanned "4006381333931") "4006381333931" NoResponse signed_in))
    in Hfound.
  assert (resolution_failed NoResponse signed_in) as Hyes by (right; exact I).
  apply Hfailed, Hfound in Hyes. destruct Hyes as [Hstore|Hstatus]; discriminate.
Qed.

(** C8, witness: no response for the scanned code 4006381333931; the order
    shown is [ORD-333931]. *)
Lemma fetchOrderData_failure_witness :
  delivery_failed (NoResponse (A:=json))
  ∧ ∃ shown,
      (fetchOrderData (scanned "4006381333931") "4006381333931" NoResponse signed_in).1
      = Fulfilled shown
      ∧ get "order_number" (orderData shown) = Some (JStr "ORD-333931")
      ∧ ScannedOrder.order_number <$> orderOfJSON (orderData shown) = Some "ORD-333931".
Proof.
  split; [exact I|].
  destruct (fetchOrderData_failure_shows_unmarked_mockOrder (scanned "4006381333931")
              "4006381333931" NoResponse signed_in I)
    as (shown & Hrun & Horder & Htyped & _).
  exists shown. split; [exact Hrun|]. rewrite Htyped, Horder. split; reflexivity.
Defined.


(** ** Further properties at concrete inputs *)

(** X1, witness: a login token stored on an empty device is read back. *)
Lemma stored_token_is_read_back_witness :
  failing (healthy ∅) = false
  ∧ ∃ d', storeTokens ada_token (Some "ada") (healthy ∅) = (Fulfilled tt, d')
          ∧ getToken d' = (Fulfilled (Some (Raw "token")), d')
          ∧ isAuthenticated d' = (Fulfilled true, d').
Proof.
  split; [reflexivity|].
  destruct (stored_token_is_read_back ada_token (Some "ada") (healthy ∅) eq_refl)
    as (d' & Hstore & Hget & Hauth & _).
  exists d'. split; [exact Hstore|]. split; [exact Hget|exact Hauth].
Defined.

(** X3, witness: a 401 on a signed-in device. *)
Lemma unauthorized_response_ends_the_session_witness :
  failing signed_in = false
  ∧ ∃ d', apiClient_request (Response 401 JNull) signed_in = (Rejected (HttpError 401), d')
          ∧ isAuthenticated d' = (Fulfilled false, d').
Proof.
  split; [reflexivity|].
  destruct (unauthorized_response_ends_the_session JNull signed_in eq_refl)
    as (d' & Hrun & Hauth & _).
  exists d'. split; [exact Hrun|exact Hauth].
Defined.

(** X4, witness: the server accepts the login and answers without
    [expires_in]; [login] rejects, on a working store, and no token is
    stored. *)
Lemma login_stores_the_token_or_rejects_witness :
  (∀ status body,
     Response 200 token_without_expiry = Response status body →
     is_Some (toString (get "expires_in" body)) →
     is_Some (as_str (get "access_token" body)) ∧ is_Some (as_str (get "token_type" body)))
  ∧ failing (healthy ∅) = false
  ∧ accepted (Response 200 token_without_expiry) = true
  ∧ ∃ d', login (mkCredentials "ada" "secret") (Response 200 token_without_expiry)
            (healthy ∅) = (Rejected TypeError, d')
          ∧ items d' !! "access_token" = None.
Proof.
  assert (∀ status body,
            Response 200 token_without_expiry = Response status body →
            is_Some (toString (get "expires_in" body)) →
            is_Some (as_str (get "access_token" body))
            ∧ is_Some (as_str (get "token_type" body))) as Hstrings.
  { intros status body [= <- <-] _. split; by eexists. }
  split; [exact Hstrings|]. do 2 (split; [reflexivity|]).
  pose proof (login_stores_the_token_or_rejects (mkCredentials "ada" "secret")
                (Response 200 token_without_expiry) (healthy ∅) Hstrings) as Hlogin.
  exists (printed "Login error:" (printed "Error storing tokens:" (healthy ∅))).
  split; [reflexivity|].
  change (login (mkCredentials "ada" "secret") (Response 200 token_without_expiry)
            (healthy ∅))
    with (Rejected (A:=json) TypeError, printed "Login error:"
                                          (printed "Error storing tokens:" (healthy ∅)))
    in Hlogin.
  destruct Hlogin as [_ [Hsame|Hnone]]; [|exact Hnone].
  rewrite Hsame. reflexivity.
Defined.

(** X5, witness: an empty list of orders stored and read back. *)
Lemma stored_offline_data_is_read_back_witness :
  failing signed_in = false
  ∧ ∃ d', storeOfflineData "orders" (JArr []) 1000 signed_in = (Fulfilled tt, d')
          ∧ getOfflineData "orders" d' = (Fulfilled (Some (JArr [])), d').
Proof.
  split; [reflexivity|].
  exact (stored_offline_data_is_read_back "orders" (JArr []) 1000 signed_in eq_refl).
Defined.

(** X7, witness: clearing without a key removes the unsent submission. *)
Lemma clearOfflineData_without_key_witness :
  failing with_unsent_task = false
  ∧ (@None string = None ∨ @None string = Some "")
  ∧ ∃ d', clearOfflineData None with_unsent_task = (Fulfilled tt, d') ∧ queue d' = ∅.
Proof.
  split; [reflexivity|]. split; [left; reflexivity|].
  destruct (clearOfflineData_without_key_empties_queue None with_unsent_task eq_refl
              (or_introl eq_refl)) as (d' & Hrun & Hqueue & _).
  exists d'. split; [exact Hrun|exact Hqueue].
Defined.

(** X8, witness: clearing the key of the unsent submission. *)
Lemma clearOfflineData_with_key_witness :
  complete_task_key 42 9000 ≠ ""
  ∧ failing with_unsent_task = false
  ∧ ∃ d', clearOfflineData (Some (complete_task_key 42 9000)) with_unsent_task
          = (Fulfilled tt, d')
          ∧ queue d' = queue with_unsent_task ∖ {[offlineKey (complete_task_key 42 9000)]}.
Proof.
  assert (complete_task_key 42 9000 ≠ "") as Hkey by (vm_compute; discriminate).
  split; [exact Hkey|]. split; [reflexivity|].
  exact (clearOfflineData_with_key_removes_that_envelope (complete_task_key 42 9000)
           with_unsent_task Hkey eq_refl).
Defined.

(** X10, witness: two updates of task 7 that get no response. *)
Lemma later_failed_update_witness :
  delivery_failed (NoResponse (A:=json))
  ∧ failing signed_in = false
  ∧ queue (updateTask 7 [("status", JStr "done")] NoResponse 2000
             (updateTask 7 [("status", JStr "started")] NoResponse 1000 signed_in).2).2
    = queue (updateTask 7 [("status", JStr "started")] NoResponse 1000 signed_in).2.
Proof.
  split; [exact I|]. split; [reflexivity|].
  exact (proj1 (proj2 (later_failed_update_replaces_the_earlier_one 7
                         [("status", JStr "started")] [("status", JStr "done")]
                         NoResponse NoResponse 1000 2000 signed_in I I eq_refl))).
Defined.

(** X11, witness: order 42 submitted at 9000 and again at 9001. *)
Lemma failed_completions_witness :
  delivery_failed (NoResponse (A:=json))
  ∧ failing signed_in = false
  ∧ (42, 9000) ≠ (42, 9001)
  ∧ offlineKey (complete_task_key 42 9000) ≠ offlineKey (complete_task_key 42 9001).
Proof.
  assert ((42, 9000) ≠ (42, 9001)) as Hdiff by discriminate.
  split; [exact I|]. split; [reflexivity|]. split; [exact Hdiff|].
  exact (proj1 (proj2 (failed_completions_are_queued_separately
                         (mkTaskData 42 [] [] "T9000" (Some ""))
                         (mkTaskData 42 [] [] "T9001" (Some ""))
                         NoResponse NoResponse 9000 9001 signed_in I I eq_refl Hdiff))).
Defined.

(** X12, witness: the orders are fetched once, then the network is down. *)
Lemma cached_read_witness :
  failing signed_in = false
  ∧ (200 <=? 200) && (200 <? 300) = true
  ∧ truthy (JArr []) = true
  ∧ delivery_failed (NoResponse (A:=json))
  ∧ ∃ d1 d2,
      getOrders (Response 200 (JArr [])) 1000 signed_in = (Fulfilled (JArr []), d1)
      ∧ getOrders NoResponse 2000 d1 = (Fulfilled (JArr []), d2).
Proof.
  do 3 (split; [reflexivity|]). split; [exact I|].
  exact (cached_read_serves_the_last_answer "orders" "Get orders error:"
           "Returning offline orders data" 200 (JArr []) NoResponse 1000 2000 signed_in
           eq_refl eq_refl eq_refl I).
Defined.

(** X13, witness: a failed submission from the screen leaves the
    envelope of [completeTask] as it is. *)
Lemma queue_changes_only_through_its_writers_witness :
  writes_queue (SubmitPackout order42 initialScreen NoResponse) = false
  ∧ is_offline_key (offlineKey (complete_task_key 42 9000)) = true
  ∧ items (perform (SubmitPackout order42 initialScreen NoResponse) 9500 with_unsent_task)
      !! offlineKey (complete_task_key 42 9000)
    = items with_unsent_task !! offlineKey (complete_task_key 42 9000).
Proof.
  do 2 (split; [reflexivity|]).
  exact (queue_changes_only_through_its_writers
           (SubmitPackout order42 initialScreen NoResponse) 9500 with_unsent_task
           (offlineKey (complete_task_key 42 9000)) eq_refl eq_refl).
Defined.

(** X14, witness: a photo upload that gets no response. *)
Lemma reported_request_failure_witness :
  delivery_failed (NoResponse (A:=json))
  ∧ ∃ e d', uploadPhoto NoResponse signed_in = (Rejected e, d')
            ∧ queue d' = queue signed_in.
Proof.
  split; [exact I|].
  destruct (reported_request_failure_stores_nothing "Upload compliance photo error:"
              NoResponse signed_in I) as (e & d' & Hrun & _ & Hqueue).
  exists e, d'. split; [exact Hrun|exact Hqueue].
Defined.

(** X17, witness: the first step is done; Next, then Previous. *)
Lemma previous_undoes_next_witness :
  (∃ r step,
     step_at first_step_done.1 (packoutSteps first_step_done.1)
       (currentStepIndex first_step_done.1) = Some (r, step)
     ∧ Step.completed step = true)
  ∧ currentStepIndex first_step_done.1 < last_index first_step_done.1
  ∧ after (after first_step_done.1
             (handleNextStep order42 first_step_done.1 2000 first_step_done.2))
      (handlePreviousStep order42
         (after first_step_done.1
            (handleNextStep order42 first_step_done.1 2000 first_step_done.2))
         2001 first_step_done.2)
    = first_step_done.1.
Proof.
  assert (∃ r step,
            step_at first_step_done.1 (packoutSteps first_step_done.1)
              (currentStepIndex first_step_done.1) = Some (r, step)
            ∧ Step.completed step = true) as Hcurrent
    by (eexists _, _; split; vm_compute; reflexivity).
  assert (currentStepIndex first_step_done.1 < last_index first_step_done.1) as Hlt
    by (vm_compute; reflexivity).
  split; [exact Hcurrent|]. split; [exact Hlt|].
  destruct Hcurrent as (r & step & Hstep & Hc).
  exact (previous_undoes_next order42 first_step_done.1 2000 2001 first_step_done.2
           first_step_done.2 r step Hstep Hc Hlt).
Defined.

(** X18, witness: the first item of the first step, checked and unchecked. *)
Lemma toggle_twice_witness :
  consistent initialScreen
  ∧ after (after initialScreen
             (handleChecklistItemToggle order42 initialScreen 0 1 1000 signed_in))
      (handleChecklistItemToggle order42
         (after initialScreen
            (handleChecklistItemToggle order42 initialScreen 0 1 1000 signed_in))
         0 1 1001 signed_in)
    = initialScreen.
Proof.
  split; [exact initialScreen_consistent|].
  exact (toggle_twice_restores_the_state order42 initialScreen 0 1 1000 1001 signed_in
           signed_in initialScreen_consistent).
Defined.

Lemma one_photo_well_formed : well_formed one_photo.1.
Proof. apply play_has_current_step, initialScreen_has_current_step. Qed.

(** X19, witness: the session with one photo, saved and resumed. *)
Lemma saved_progress_is_resumed_witness :
  failing one_photo.2 = false
  ∧ well_formed one_photo.1
  ∧ ∃ s' d',
      loadPackoutProgress order42 initialScreen
        (savePackoutProgress order42 one_photo.1 5000 one_photo.2).2
      = (Fulfilled (Some s'), d')
      ∧ steps_of s' = steps_of one_photo.1
      ∧ currentStepIndex s' = currentStepIndex one_photo.1.
Proof.
  assert (failing one_photo.2 = false) as Hd by (vm_compute; reflexivity).
  split; [exact Hd|]. split; [exact one_photo_well_formed|].
  destruct (saved_progress_is_resumed order42 one_photo.1 initialScreen 5000 one_photo.2
              Hd one_photo_well_formed) as (s' & d' & Hrun & Hsteps & Hindex & _).
  exists s', d'. split; [exact Hrun|]. split; [exact Hsteps|exact Hindex].
Defined.

(** X21, witness: saving order 42 leaves the entry of order 1 alone. *)
Lemma progress_of_other_orders_witness :
  ScannedOrder.id order42 ≠ ScannedOrder.id (mockOrder "4006381333931")
  ∧ items (savePackoutProgress order42 initialScreen 1000 signed_in).2
      !! packout_key (mockOrder "4006381333931")
    = items signed_in !! packout_key (mockOrder "4006381333931").
Proof.
  assert (ScannedOrder.id order42 ≠ ScannedOrder.id (mockOrder "4006381333931")) as Hne
    by discriminate.
  split; [exact Hne|].
  exact (progress_of_other_orders_is_untouched order42 (mockOrder "4006381333931")
           initialScreen 1000 signed_in Hne).
Defined.

(** X23, witness: progress saved under the placeholder of one code is
    resumed under the placeholder of another. *)
Lemma placeholder_orders_share_progress_witness :
  failing one_photo.2 = false
  ∧ well_formed one_photo.1
  ∧ ∃ s' d',
      loadPackoutProgress (mockOrder "9780201379624") initialScreen
        (savePackoutProgress (mockOrder "4006381333931") one_photo.1 5000 one_photo.2).2
      = (Fulfilled (Some s'), d')
      ∧ steps_of s' = steps_of one_photo.1.
Proof.
  assert (failing one_photo.2 = false) as Hd by (vm_compute; reflexivity).
  split; [exact Hd|]. split; [exact one_photo_well_formed|].
  destruct (placeholder_orders_share_progress "4006381333931" "9780201379624"
              one_photo.1 initialScreen 5000 one_photo.2 Hd one_photo_well_formed)
    as (s' & d' & Hrun & Hsteps & _).
  exists s', d'. split; [exact Hrun|exact Hsteps].
Defined.

(** X22, witness: the session with one photo, submitted and accepted. *)
Lemma accepted_submission_witness :
  failing one_photo.2 = false
  ∧ (200 <=? 200) && (200 <? 300) = true
  ∧ well_formed one_photo.1
  ∧ (∀ photo, photo ∈ compliancePhotos one_photo.1 →
              ∃ ms, Photo.timestamp photo = DateObject ms)
  ∧ ∃ s' d',
      handleSubmitPackout order42 one_photo.1 (Response 200 JNull) 9000 one_photo.2
      = (Fulfilled s', d')
      ∧ items d' = delete (packout_key order42) (items one_photo.2).
Proof.
  assert (failing one_photo.2 = false) as Hd by (vm_compute; reflexivity).
  assert (∀ photo, photo ∈ compliancePhotos one_photo.1 →
                   ∃ ms, Photo.timestamp photo = DateObject ms) as Hphotos.
  { intros photo Hin. vm_compute in Hin.
    apply elem_of_cons in Hin as [->|Hin]; [by eexists|].
    by apply elem_of_nil in Hin. }
  split; [exact Hd|]. split; [reflexivity|]. split; [exact one_photo_well_formed|].
  split; [exact Hphotos|].
  destruct (accepted_submission_removes_the_progress_entry order42 one_photo.1 200 JNull
              9000 one_photo.2 Hd eq_refl one_photo_well_formed Hphotos)
    as (s' & d' & Hrun & Hitems & _).
  exists s', d'. split; [exact Hrun|exact Hitems].
Defined.

Lemma first_step_done_well_formed : well_formed first_step_done.1.
Proof. apply play_has_current_step, initialScreen_has_current_step. Qed.

(** X24, witness: the first step is done and Next is pressed; the entry
    written holds the index of the first step. *)
Lemma resume_after_next_witness :
  failing first_step_done.2 = false
  ∧ well_formed first_step_done.1
  ∧ (∃ r step,
       step_at first_step_done.1 (packoutSteps first_step_done.1)
         (currentStepIndex first_step_done.1) = Some (r, step)
       ∧ Step.completed step = true)
  ∧ currentStepIndex first_step_done.1 < last_index first_step_done.1
  ∧ ∃ s1 d1 resumed d2,
      handleNextStep order42 first_step_done.1 2000 first_step_done.2 = (Fulfilled s1, d1)
      ∧ currentStepIndex s1 = currentStepIndex first_step_done.1 + 1
      ∧ loadPackoutProgress order42 initialScreen d1 = (Fulfilled (Some resumed), d2)
      ∧ currentStepIndex resumed = currentStepIndex first_step_done.1.
Proof.
  assert (failing first_step_done.2 = false) as Hd by (vm_compute; reflexivity).
  assert (∃ r step,
            step_at first_step_done.1 (packoutSteps first_step_done.1)
              (currentStepIndex first_step_done.1) = Some (r, step)
            ∧ Step.completed step = true) as Hcurrent
    by (eexists _, _; split; vm_compute; reflexivity).
  assert (currentStepIndex first_step_done.1 < last_index first_step_done.1) as Hlt
    by (vm_compute; reflexivity).
  split; [exact Hd|]. split; [exact first_step_done_well_formed|].
  split; [exact Hcurrent|]. split; [exact Hlt|].
  destruct Hcurrent as (r & step & Hstep & Hc).
  destruct (resume_after_next_shows_the_step_before order42 first_step_done.1 initialScreen
              2000 first_step_done.2 r step Hd first_step_done_well_formed Hstep Hc Hlt)
    as (s1 & d1 & resumed & d2 & Hrun & Hmoved & Hload & Hindex & _).
  exists s1, d1, resumed, d2. split; [exact Hrun|]. split; [exact Hmoved|].
  split; [exact Hload|exact Hindex].
Defined.

(** X25, witness: the first photo of a session; the entry written by the
    capture holds no photo. *)
Lemma resume_after_capture_witness :
  failing signed_in = false
  ∧ well_formed initialScreen
  ∧ is_Some (step_at initialScreen (packoutSteps initialScreen)
               (currentStepIndex initialScreen))
  ∧ ∃ s1 d1 resumed d2,
      handleCameraCapture order42 initialScreen "file:///photo.jpg" 1000 signed_in
      = (Fulfilled s1, d1)
      ∧ loadPackoutProgress order42 initialScreen d1 = (Fulfilled (Some resumed), d2)
      ∧ compliancePhotos resumed = []
      ∧ length (compliancePhotos s1) = 1%nat.
Proof.
  assert (well_formed initialScreen) as Hwf by apply initialScreen_well_formed.
  split; [reflexivity|]. split; [exact Hwf|]. split; [eexists; reflexivity|].
  destruct (resume_after_capture_lacks_the_new_photo order42 initialScreen initialScreen
              "file:///photo.jpg" 1000 signed_in 0%nat _ eq_refl Hwf eq_refl)
    as (s1 & d1 & resumed & d2 & Hrun & Hload & _ & Hphotos & Hlength).
  exists s1, d1, resumed, d2. split; [exact Hrun|]. split; [exact Hload|].
  split; [exact Hphotos|]. rewrite Hlength, Hphotos. reflexivity.
Defined.

(** What the first visit leaves as the progress entry was written from a
    state that can be resumed. *)
Lemma after_first_visit_resumable : entry_from order42 resumable after_first_visit.
Proof.
  apply operate_keeps.
  - apply session_invariant_mounted; [apply NoDup_seq|done|apply resumable_initialScreen].
  - intros t Ht. vm_compute in Ht. discriminate.
Qed.

Lemma entry_from_weaken order (P Q : Screen → Prop) d :
  (∀ s, P s → Q s) → entry_from order P d → entry_from order Q d.
Proof.
  intros HPQ Hd t Ht. destruct (Hd t Ht) as (s & now & -> & Hs).
  exists s, now. split; [done|]. by apply HPQ.
Qed.

(** X16, witness: a resumed session. The second visit starts at the
    second step, on new step objects behind the five of the first render;
    the worker finishes the step and goes on to the third. *)
Lemma reachable_states_have_a_current_step_witness :
  entry_from order42 has_current_step after_first_visit
  ∧ ∃ s d',
      session order42
        [Toggle 1 2; Toggle 1 3; TakePhoto package; Capture "file:///photo.jpg"; Next]
        5000 after_first_visit = Some (s, d')
      ∧ packoutSteps s = [5; 6; 7; 8; 9]%nat
      ∧ currentStepIndex s = 2
      ∧ is_Some (step_at s (packoutSteps s) (currentStepIndex s)).
Proof.
  assert (entry_from order42 has_current_step after_first_visit) as Hentry.
  { eapply entry_from_weaken; [|exact after_first_visit_resumable]. by intros s [Hs _]. }
  split; [exact Hentry|].
  destruct (reachable_states_have_a_current_step order42
              [Toggle 1 2; Toggle 1 3; TakePhoto package; Capture "file:///photo.jpg"; Next]
              5000 after_first_visit Hentry) as (s & d' & Hrun & _ & Hcurrent & _).
  exists s, d'. split; [exact Hrun|].
  assert ((λ r : Screen * Device, (packoutSteps r.1, currentStepIndex r.1))
          <$> session order42
                [Toggle 1 2; Toggle 1 3; TakePhoto package; Capture "file:///photo.jpg";
                 Next] 5000 after_first_visit
          = Some ([5; 6; 7; 8; 9]%nat, 2)) as Hstate by (vm_compute; reflexivity).
  rewrite Hrun in Hstate. injection Hstate as Hsteps Hindex.
  split; [exact Hsteps|]. split; [exact Hindex|exact Hcurrent].
Defined.

(** X26, witness: a resumed session. In the second visit the worker
    finishes the second step and completes the other three; the modal is
    then shown, over five completed steps. *)
Lemma submit_is_offered_witness :
  entry_from order42 resumable after_first_visit
  ∧ ∃ s d',
      worked order42 second_visit 5000 after_first_visit = Some (s, d')
      ∧ showCompletionModal s = true
      ∧ length (steps_of s) = 5%nat
      ∧ ∀ step, Some step ∈ steps_of s →
                Step.completed step = true ∧ derived_completed step = true.
Proof.
  split; [exact after_first_visit_resumable|].
  destruct (submit_is_offered_only_for_completed_steps order42 second_visit 5000
              after_first_visit after_first_visit_resumable)
    as (s & d' & Hrun & _ & _ & Hmodal).
  exists s, d'. split; [exact Hrun|].
  assert ((λ r : Screen * Device, (showCompletionModal r.1, length (steps_of r.1)))
          <$> worked order42 second_visit 5000 after_first_visit
          = Some (true, 5%nat)) as Hstate by (vm_compute; reflexivity).
  rewrite Hrun in Hstate. injection Hstate as Hshown Hlength.
  split; [exact Hshown|]. split; [exact Hlength|]. exact (proj1 (Hmodal Hshown)).
Defined.

